(** * Flashcard: spaced-repetition scheduler, deck and flashcard store

    A shallow embedding of the scheduling and synchronisation core of the
    Flashcard application:

    - [src/App.tsx]: [calculateNextDueDate], [fetchFlashcards],
      [handleAddFlashcard], [handleReviewFlashcard], [handleDeleteFlashcard],
      [handleNextFlashcard], [handlePreviousFlashcard], [currentFlashcard],
      [fetchSuggestions], [handleAddSuggestedWord], [handleDismissSuggestion],
      [handleReadAloud];
    - [src/worker.ts]: the [/api/flashcards] routes of [fetch], and the
      unwrapping of the text of a Gemini answer ([cleanJsonStr]);
    - [src/services/flashcardService.ts]: the client of those routes;
    - [src/services/geminiService.ts]: [generateDefinition], [suggestWords],
      [generateSpeech], [decode], [decodeAudioData];
    - [components/AddWordForm.tsx]: [handleSubmit],
      [handleGenerateDefinition].

    How the program's surroundings are modelled:

    - Numbers.  JavaScript Numbers that carry intervals and timestamps are
      IEEE-754 binary64 values and are modelled by the kernel's primitive
      floats, whose operations are specified by [FloatAxioms] against
      [SpecFloat].  Array lengths and the review cursor are integer-valued
      Numbers far below 2^53, where binary64 arithmetic is exact; they are
      modelled in [Z], with [NaN] added for the result of [x % 0].
    - Effects.  [Date.now()] and [crypto.randomUUID()] consume the next
      value of a clock and of an identifier source that are passed along;
      the handlers of [App.tsx] pass along the component state, the clock
      and the remote side.  A handler runs to its end before the next one
      starts.
    - Closures.  A handler made by [useCallback] reads [flashcards] and
      [currentFlashcardIndex] as they were at the last render ([App.Render]);
      the properties are stated for a handler that runs against the state it
      was rendered from.
    - Types.  TypeScript's types are erased at run time: the worker and the
      client service are modelled on JSON values, whatever their shape; the
      handlers of [App.tsx] are modelled on the [Flashcard] type they are
      written against and take the service as a parameter.  The handlers
      that call [geminiService] take it as a parameter as well: its answers
      come from a language model.
    - JSON text is kept up to its layout ([Json.Text]): a string is the
      serialisation of a value, or characters that [JSON.parse] rejects.
    - The key-value namespace is a finite map whose operations succeed and
      take effect at once, and whose [list()] returns every key.
    - URLs.  The path the worker sees is the path the client wrote; this is
      so for an id made of letters, digits, ['-'] and ['_']
      ([Store.path_segment]), and the properties of the client that depend
      on it are stated for such ids.
    - Audio.  [atob] is a parameter; typed arrays are lists, with
      assignments outside their bounds dropped; of the Web Audio API the
      model keeps the checks of [createBuffer], the identity of the source
      nodes and which of them are playing. *)

From Stdlib Require Import ZArith Floats Lia Bool Ascii String Sorted.
From stdpp Require Import base option list strings pretty gmap.

Set Warnings "-register-all".
Local Open Scope Z_scope.

(* ===================================================================== *)
(** * Part I. The embedding                                               *)
(* ===================================================================== *)

(** ** The host language: Numbers, strings, arrays *)

Module JS.

(** [ToBoolean] on a Number: [+0], [-0] and [NaN] are falsy. *)
Definition truthy (x : float) : bool :=
  negb (PrimFloat.eqb x 0 || is_nan x).

(** [x || d] where [x] is a possibly [undefined] Number. *)
Definition or_default (x : option float) (d : float) : float :=
  match x with
  | Some v => if truthy v then v else d
  | None => d
  end.

(** [x === +0] as a bit pattern (distinguishes [+0] from [-0]). *)
Definition is_pos_zero (x : float) : bool :=
  is_zero x && negb (get_sign x).

Definition is_neg_zero (x : float) : bool :=
  is_zero x && get_sign x.

(** [Math.max(a, b)] (ECMA-262, 21.3.2.24): [NaN] is contagious, [+0] is
    larger than [-0], otherwise the larger argument. *)
Definition Math_max (a b : float) : float :=
  if is_nan a || is_nan b then nan
  else if is_pos_zero b && is_neg_zero a then b
  else if PrimFloat.ltb a b then b
  else a.

(** [Number.MIN_VALUE], the smallest positive binary64 value (2^-1074). *)
Definition MIN_VALUE : float := 0x1p-1074%float.

(** JavaScript white space and line terminators among the code units below
    256: TAB, LF, VT, FF, CR, SP, NBSP. *)
Definition is_white_space (c : ascii) : bool :=
  let n := nat_of_ascii c in
  ((9 <=? n)%nat && (n <=? 13)%nat) || (n =? 32)%nat || (n =? 160)%nat.

Fixpoint trimStart (s : string) : string :=
  match s with
  | String c s' => if is_white_space c then trimStart s' else s
  | EmptyString => EmptyString
  end.

(** [trimEnd], written as a right fold: the tail is trimmed first and a
    white-space character is dropped when nothing remains after it. *)
Fixpoint trimEnd (s : string) : string :=
  match s with
  | String c s' =>
      match trimEnd s' with
      | EmptyString => if is_white_space c then EmptyString else String c EmptyString
      | t => String c t
      end
  | EmptyString => EmptyString
  end.

(** [String.prototype.trim]. *)
Definition trim (s : string) : string := trimEnd (trimStart s).

(** [ToBoolean] on a string: only the empty string is falsy. *)
Definition nonempty (s : string) : bool :=
  match s with EmptyString => false | _ => true end.

(** The review cursor and every value computed from it: an integer-valued
    Number, or [NaN]. *)
Inductive Index := Idx (z : Z) | NaN.

(** [x % n] on integer-valued Numbers: the sign follows the dividend
    ([Z.rem]); [x % 0] and [NaN % n] are [NaN]. *)
Definition rem (x : Index) (n : Z) : Index :=
  match x with
  | Idx z => if n =? 0 then NaN else Idx (Z.rem z n)
  | NaN => NaN
  end.

Definition plus (x : Index) (k : Z) : Index :=
  match x with Idx z => Idx (z + k) | NaN => NaN end.

(** [x >= k]; every comparison with [NaN] is false. *)
Definition geb (x : Index) (k : Z) : bool :=
  match x with Idx z => k <=? z | NaN => false end.

(** [a[i]]: [undefined] (here [None]) outside [0 .. length-1] and at
    [NaN]. *)
Definition get {A} (a : list A) (i : Index) : option A :=
  match i with
  | Idx z => if z <? 0 then None else a !! Z.to_nat z
  | NaN => None
  end.

Section Sort.
Context {A : Type}.
(** [comparefn(a, b)], a Number. *)
Variable comparefn : A -> A -> float.

(** [SortCompare] moves [x] behind [y] only when [comparefn(x, y) > 0];
    a [NaN] result counts as [+0]. *)
Fixpoint insert_sorted (x : A) (l : list A) : list A :=
  match l with
  | [] => [x]
  | y :: l' =>
      if PrimFloat.ltb 0 (comparefn x y) then y :: insert_sorted x l'
      else x :: y :: l'
  end.

(** [Array.prototype.sort(comparefn)].  ECMAScript (2019 and later)
    requires the sort to be stable; for a consistent comparator the
    result is then determined ([SortFacts.sort_determined] below), and it
    is computed here by a stable insertion sort. *)
Definition sort (l : list A) : list A := foldr insert_sorted [] l.
End Sort.

End JS.

(** ** [src/types.ts] *)

Module Types.

(** [interface Flashcard]; an optional field ([?:]) is an [option]. *)
Record Flashcard := mkFlashcard {
  id : string;
  word : string;
  definition : string;
  exampleSentence : option string;
  createdAt : float;
  lastReviewedAt : option float;
  dueDate : option float;
  interval : option float;
}.

(** [Omit<Flashcard, 'id' | 'createdAt' | 'dueDate' | 'interval'>], the
    draft a caller submits. *)
Record Draft := mkDraft {
  draft_word : string;
  draft_definition : string;
  draft_exampleSentence : option string;
  draft_lastReviewedAt : option float;
}.

(** [interface ApiResponse<T>]. *)
Record ApiResponse (T : Type) := mkApiResponse {
  success : bool;
  data : option T;
  error : option string;
}.
Arguments mkApiResponse {T}.
Arguments success {T}.
Arguments data {T}.
Arguments error {T}.

(** [response.error || fallback]: an absent or empty message is falsy. *)
Definition error_or {T} (response : ApiResponse T) (fallback : string) : string :=
  match error response with
  | Some e => if JS.nonempty e then e else fallback
  | None => fallback
  end.

End Types.

(** ** The system clock *)

Module Host.

(** [Date.now()] is an effect: every call consumes the next reading of
    the clock.  Nothing is assumed about successive readings. *)
Record Clock := mkClock {
  reading : nat -> float;
  reads : nat;
}.

Definition Date_now (c : Clock) : float * Clock :=
  (reading c (reads c), mkClock (reading c) (S (reads c))).

(** [crypto.randomUUID()]: the next value of an identifier source. *)
Record UUIDs := mkUUIDs {
  uuid : nat -> string;
  drawn : nat;
}.

Definition randomUUID (u : UUIDs) : string * UUIDs :=
  (uuid u (drawn u), mkUUIDs (uuid u) (S (drawn u))).

End Host.

(** ** [src/App.tsx]: scheduler, deck and review cursor *)

Module App.
Import Types Host.

(** The component state the handlers read and write. *)
Record State := mkState {
  flashcards : list Flashcard;
  loading : bool;
  error : option string;
  currentFlashcardIndex : JS.Index;
  isReadingAloud : bool;
}.

(** [useState] initial values. *)
Definition initial : State := mkState [] true None (JS.Idx 0) false.

Definition setFlashcards (f : list Flashcard -> list Flashcard) (st : State) : State :=
  mkState (f (flashcards st)) (loading st) (error st) (currentFlashcardIndex st)
          (isReadingAloud st).

Definition setLoading (b : bool) (st : State) : State :=
  mkState (flashcards st) b (error st) (currentFlashcardIndex st) (isReadingAloud st).

Definition setError (e : option string) (st : State) : State :=
  mkState (flashcards st) (loading st) e (currentFlashcardIndex st) (isReadingAloud st).

Definition setCurrentFlashcardIndex (f : JS.Index -> JS.Index) (st : State) : State :=
  mkState (flashcards st) (loading st) (error st) (f (currentFlashcardIndex st))
          (isReadingAloud st).

(** What a [useCallback] closure captured at the last render: the handlers
    read [flashcards] and [currentFlashcardIndex] from it, while the
    functional updates [setX(prev => ...)] act on the live state. *)
Record Render := mkRender {
  r_flashcards : list Flashcard;
  r_currentFlashcardIndex : JS.Index;
}.

Definition render (st : State) : Render :=
  mkRender (flashcards st) (currentFlashcardIndex st).

(** [flashcards.length] as a Number. *)
Definition r_length (r : Render) : Z := Z.of_nat (length (r_flashcards r)).

(** [calculateNextDueDate(flashcard, success)].  The clock is read twice:
    once for [newDueDate], once more for [lastReviewedAt]. *)
Definition calculateNextDueDate (flashcard : Flashcard) (success : bool)
    (clk : Clock) : Flashcard * Clock :=
  let newInterval := JS.or_default (interval flashcard) 0 in
  let newInterval :=
    if success
    then JS.Math_max 1 (if PrimFloat.eqb newInterval 0 then 1 else newInterval * 2)
    else JS.Math_max 0 (newInterval / 2) in
  let '(now1, clk) := Date_now clk in
  let newDueDate := (now1 + newInterval * 24 * 60 * 60 * 1000)%float in
  let '(now2, clk) := Date_now clk in
  (mkFlashcard (id flashcard) (word flashcard) (definition flashcard)
               (exampleSentence flashcard) (createdAt flashcard)
               (Some now2) (Some newDueDate) (Some newInterval),
   clk).

(** The sort key [(a.dueDate || 0)]. *)
Definition due (a : Flashcard) : float := JS.or_default (dueDate a) 0.

(** The comparator [(a, b) => (a.dueDate || 0) - (b.dueDate || 0)]. *)
Definition byDueDate (a b : Flashcard) : float := (due a - due b)%float.

(** [flashcardService], as the handlers use it: each call acts on the
    remote side [R] and answers with an [ApiResponse].  The annotation
    [const data: Flashcard = await response.json()] is where the JSON of the
    wire is taken for a typed card; the handlers stand on the typed side of
    it and are stated for every service of this signature. *)
Record FlashcardService (R : Type) := mkService {
  getFlashcards : R -> ApiResponse (list Flashcard) * R;
  addFlashcard : Draft -> R -> ApiResponse Flashcard * R;
  updateFlashcard : Flashcard -> R -> ApiResponse Flashcard * R;
  deleteFlashcard : string -> R -> ApiResponse unit * R;
}.
Arguments mkService {R}.
Arguments getFlashcards {R}.
Arguments addFlashcard {R}.
Arguments updateFlashcard {R}.
Arguments deleteFlashcard {R}.

(** Everything a handler can touch: the component state, the browser's
    clock and the remote side. *)
Record Sys (R : Type) := mkSys {
  ui : State;
  clock : Clock;
  remote : R;
}.
Arguments mkSys {R}.
Arguments ui {R}.
Arguments clock {R}.
Arguments remote {R}.

Section Handlers.
Context {R : Type}.
Variable flashcardService : FlashcardService R.

Definition fetchFlashcards (s : Sys R) : Sys R :=
  let st := setLoading true (ui s) in
  let st := setError None st in
  let '(response, rem) := getFlashcards flashcardService (remote s) in
  let st :=
    match success response, data response with
    | true, Some d => setFlashcards (fun _ => JS.sort byDueDate d) st
    | _, _ => setError (Some (error_or response "Failed to load flashcards.")) st
    end in
  mkSys (setLoading false st) (clock s) rem.

Definition handleAddFlashcard (newFlashcardData : Draft) (s : Sys R) : Sys R :=
  let st := setError None (ui s) in
  let '(response, rem) := addFlashcard flashcardService newFlashcardData (remote s) in
  let st :=
    match success response, data response with
    | true, Some d => setFlashcards (fun prev => JS.sort byDueDate (prev ++ [d])) st
    | _, _ => setError (Some (error_or response "Failed to add flashcard.")) st
    end in
  mkSys st (clock s) rem.

Definition handleReviewFlashcard (r : Render) (id : string) (success : bool)
    (s : Sys R) : Sys R :=
  match List.find (fun f => String.eqb (Types.id f) id) (r_flashcards r) with
  | None => s
  | Some flashcardToUpdate =>
      let '(updatedFlashcard, clk) :=
        calculateNextDueDate flashcardToUpdate success (clock s) in
      let st := setError None (ui s) in
      let '(response, rem) :=
        updateFlashcard flashcardService updatedFlashcard (remote s) in
      let st :=
        match Types.success response, data response with
        | true, Some d =>
            let st :=
              setFlashcards
                (fun prev =>
                   JS.sort byDueDate
                     (map (fun f => if String.eqb (Types.id f) id then d else f) prev))
                st in
            if r_length r >? 1
            then setCurrentFlashcardIndex
                   (fun prevIndex => JS.rem (JS.plus prevIndex 1) (r_length r)) st
            else st
        | _, _ =>
            setError
              (Some (error_or response "Failed to update flashcard review status.")) st
        end in
      mkSys st clk rem
  end.

Definition handleDeleteFlashcard (r : Render) (id : string) (s : Sys R) : Sys R :=
  let st := setError None (ui s) in
  let '(response, rem) := deleteFlashcard flashcardService id (remote s) in
  let st :=
    if success response
    then
      let st :=
        setFlashcards
          (fun prev => List.filter (fun f => negb (String.eqb (Types.id f) id)) prev) st in
      if JS.geb (r_currentFlashcardIndex r) (r_length r - 1) && (r_length r >? 1)
      then setCurrentFlashcardIndex (fun _ => JS.Idx 0) st
      else st
    else setError (Some (error_or response "Failed to delete flashcard.")) st in
  mkSys st (clock s) rem.
End Handlers.

Definition handleNextFlashcard (r : Render) (st : State) : State :=
  setCurrentFlashcardIndex
    (fun prevIndex => JS.rem (JS.plus prevIndex 1) (r_length r)) st.

Definition handlePreviousFlashcard (r : Render) (st : State) : State :=
  setCurrentFlashcardIndex
    (fun prevIndex => JS.rem (JS.plus (JS.plus prevIndex (-1)) (r_length r)) (r_length r))
    st.

(** [currentFlashcard]: [null] for an empty deck and [undefined] for an
    index outside the array are both [None]. *)
Definition currentFlashcard (st : State) : option Flashcard :=
  if (0 <? length (flashcards st))%nat
  then JS.get (flashcards st) (currentFlashcardIndex st)
  else None.

(** The review screen shows the card and its two navigation buttons only
    when loading is over and the deck is not empty; both buttons carry
    [disabled={flashcards.length <= 1 || isReadingAloud}]. *)
Definition navigation_enabled (st : State) : bool :=
  negb (loading st)
  && negb (length (flashcards st) =? 0)%nat
  && negb ((length (flashcards st) <=? 1)%nat || isReadingAloud st).

(** A click on "Next" / "Previous": a disabled or absent button fires no
    handler. *)
Definition clickNext (st : State) : State :=
  if navigation_enabled st then handleNextFlashcard (render st) st else st.

Definition clickPrevious (st : State) : State :=
  if navigation_enabled st then handlePreviousFlashcard (render st) st else st.

End App.

(** ** JSON values and JSON text *)

Module Json.

(** A value that [JSON.parse] can produce. *)
Inductive JSValue :=
| JNull
| JBool (b : bool)
| JNum (n : float)
| JStr (s : string)
| JArr (items : list JSValue)
| JObj (props : list (string * JSValue)).

(** [ToBoolean], as used by [.filter(Boolean)]. *)
Definition truthy (v : JSValue) : bool :=
  match v with
  | JNull => false
  | JBool b => b
  | JNum n => JS.truthy n
  | JStr s => JS.nonempty s
  | JArr _ | JObj _ => true
  end.

(** [o[k]] on an object's own properties. *)
Fixpoint lookup_prop (k : string) (props : list (string * JSValue)) : option JSValue :=
  match props with
  | [] => None
  | (k', v) :: rest => if String.eqb k' k then Some v else lookup_prop k rest
  end.

(** [o[k] = v]: an existing property keeps its place, a new one is added
    last. *)
Fixpoint set_prop (k : string) (v : JSValue) (props : list (string * JSValue))
    : list (string * JSValue) :=
  match props with
  | [] => [(k, v)]
  | (k', v') :: rest =>
      if String.eqb k' k then (k, v) :: rest else (k', v') :: set_prop k v rest
  end.

(** [v.k] for a value that is neither [null] nor [undefined]; properties of
    primitives and arrays other than indices are [undefined] ([None]). *)
Definition get (k : string) (v : JSValue) : option JSValue :=
  match v with
  | JObj props => lookup_prop k props
  | _ => None
  end.

Fixpoint indexed_from (i : nat) (items : list JSValue) : list (string * JSValue) :=
  match items with
  | [] => []
  | v :: rest => (pretty i, v) :: indexed_from (S i) rest
  end.

Fixpoint chars (s : string) : list JSValue :=
  match s with
  | EmptyString => []
  | String c s' => JStr (String c EmptyString) :: chars s'
  end.

(** The own enumerable properties copied by an object spread [{...v}]:
    those of an object, the indices of an array or of a string, and
    nothing for the other primitives. *)
Definition spread (v : JSValue) : list (string * JSValue) :=
  match v with
  | JObj props => fold_left (fun acc kv => set_prop (fst kv) (snd kv) acc) props []
  | JArr items => indexed_from 0 items
  | JStr s => indexed_from 0 (chars s)
  | _ => []
  end.

(** What survives a trip through [JSON.stringify] and [JSON.parse]: a
    Number that is not finite becomes [null], [-0] becomes [0]. *)
Fixpoint roundtrip (v : JSValue) : JSValue :=
  match v with
  | JNum n => if is_finite n then (if is_zero n then JNum 0 else JNum n) else JNull
  | JArr items => JArr (List.map roundtrip items)
  | JObj props => JObj (List.map (fun kv => let '(k, x) := kv in (k, roundtrip x)) props)
  | _ => v
  end.

(** A string, up to the layout of JSON text: either the serialisation of a
    value, or characters that [JSON.parse] rejects. *)
Inductive Text :=
| Serialized (v : JSValue)
| Malformed (raw : string).

(** The exceptions that occur, each with its [message]. *)
Inductive Exn :=
| SyntaxError (message : string)
| TypeError (message : string)
| Error (message : string).

Definition message (e : Exn) : string :=
  match e with SyntaxError m | TypeError m | Error m => m end.

(** [JSON.stringify(v)]. *)
Definition stringify (v : JSValue) : Text := Serialized (roundtrip v).

(** [JSON.parse(t)]; the wording of the [SyntaxError] is the engine's. *)
Definition parse (t : Text) : Exn + JSValue :=
  match t with
  | Serialized v => inr v
  | Malformed raw => inl (SyntaxError ("Unexpected token in JSON: " +:+ raw))
  end.

(** [ToBoolean] of the string itself: only [""] is falsy. *)
Definition nonempty (t : Text) : bool :=
  match t with
  | Serialized _ => true
  | Malformed raw => JS.nonempty raw
  end.

(** [Promise.all]: the values in order, or the first rejection. *)
Fixpoint Promise_all {A} (ps : list (Exn + A)) : Exn + list A :=
  match ps with
  | [] => inr []
  | inl e :: _ => inl e
  | inr a :: rest =>
      match Promise_all rest with
      | inl e => inl e
      | inr l => inr (a :: l)
      end
  end.

End Json.

(** ** [src/worker.ts]: the flashcard routes over the key-value namespace *)

Module Worker.
Import Json Host.

(** [KVNamespace]: string keys to string values.  Its operations are taken
    to succeed, as the interface declared in [worker.ts] presents them. *)
Abbreviation KVNamespace := (gmap string Text).

Definition KV_get (kv : KVNamespace) (key : string) : option Text := kv !! key.
Definition KV_put (kv : KVNamespace) (key : string) (value : Text) : KVNamespace :=
  <[key := value]> kv.
Definition KV_list (kv : KVNamespace) : list string := (map_to_list kv).*1.
Definition KV_delete (kv : KVNamespace) (key : string) : KVNamespace := delete key kv.

(** [env] and the runtime services the handler calls. *)
Record World := mkWorld {
  FLASHCARDS_KV : option KVNamespace;
  clock : Clock;
  uuids : UUIDs;
}.

Record Request := mkRequest {
  method : string;
  pathname : string;
  body : Text;
}.

Record Response := mkResponse {
  status : Z;
  contentType : option string;
  responseBody : option Text;
}.

(** [createJsonResponse(data, status)]. *)
Definition createJsonResponse (data : JSValue) (status : Z) : Response :=
  mkResponse status (Some "application/json") (Some (stringify data)).

(** [createErrorResponse(message, status)]. *)
Definition createErrorResponse (message : string) (status : Z) : Response :=
  mkResponse status (Some "application/json")
    (Some (stringify (JObj [("success", JBool false); ("error", JStr message)]))).

(** [path.split('/').pop()]: what follows the last ['/']. *)
Fixpoint pop_split (acc s : string) : string :=
  match s with
  | EmptyString => acc
  | String c s' =>
      if Ascii.eqb c "/" then pop_split EmptyString s'
      else pop_split (acc +:+ String c EmptyString) s'
  end.

(** The callback of [keys.map]: the stored value of a key, parsed; [null]
    when the value is absent or the empty string. *)
Definition read (kv : KVNamespace) (key : string) : Exn + JSValue :=
  match KV_get kv key with
  | Some value => if nonempty value then parse value else inr JNull
  | None => inr JNull
  end.

(** [GET /api/flashcards]. *)
Definition getAll (kv : KVNamespace) : Response :=
  let keys := KV_list kv in
  let flashcardPromises := read kv <$> keys in
  match Promise_all flashcardPromises with
  | inr values => createJsonResponse (JArr (List.filter truthy values)) 200
  | inl e => createErrorResponse ("Failed to retrieve flashcards: " +:+ message e) 500
  end.

(** [POST /api/flashcards]. *)
Definition post (request : Request) (kv : KVNamespace) (w : World) : Response * World :=
  match parse (body request) with
  | inr newFlashcardData =>
      let '(id, us) := randomUUID (uuids w) in
      let '(createdAt, clk) := Date_now (clock w) in
      let '(dueDate, clk) := Date_now clk in
      let interval := 0%float in
      let flashcard :=
        JObj (set_prop "interval" (JNum interval)
               (set_prop "dueDate" (JNum dueDate)
                 (set_prop "createdAt" (JNum createdAt)
                   (set_prop "id" (JStr id) (spread newFlashcardData))))) in
      let kv := KV_put kv id (stringify flashcard) in
      (createJsonResponse flashcard 201, mkWorld (Some kv) clk us)
  | inl e => (createErrorResponse ("Failed to add flashcard: " +:+ message e) 400, w)
  end.

(** [updatedData.id !== id]; reading a property of [null] throws. *)
Definition id_differs (updatedData : JSValue) (id : string) : Exn + bool :=
  match updatedData with
  | JNull => inl (TypeError "Cannot read properties of null (reading 'id')")
  | _ =>
      match get "id" updatedData with
      | Some (JStr s) => inr (negb (String.eqb s id))
      | _ => inr true
      end
  end.

(** [PUT /api/flashcards/{id}]. *)
Definition put (request : Request) (id : string) (kv : KVNamespace) (w : World)
    : Response * World :=
  let failed e := (createErrorResponse ("Failed to update flashcard: " +:+ message e) 400, w) in
  match parse (body request) with
  | inr updatedData =>
      match id_differs updatedData id with
      | inr true =>
          (createErrorResponse "Flashcard ID in path and body do not match." 400, w)
      | inr false =>
          let kv := KV_put kv id (stringify updatedData) in
          (createJsonResponse updatedData 200, mkWorld (Some kv) (clock w) (uuids w))
      | inl e => failed e
      end
  | inl e => failed e
  end.

(** [DELETE /api/flashcards/{id}]. *)
Definition del (id : string) (kv : KVNamespace) (w : World) : Response * World :=
  (mkResponse 204 None None, mkWorld (Some (KV_delete kv id)) (clock w) (uuids w)).

(** The branch [if (path.startsWith('/api/flashcards'))] of [fetch]. *)
Definition flashcardsApi (request : Request) (w : World) : Response * World :=
  match FLASHCARDS_KV w with
  | None => (createErrorResponse "KV Namespace (FLASHCARDS_KV) not configured." 500, w)
  | Some kv =>
      let path := pathname request in
      if String.eqb path "/api/flashcards" && String.eqb (method request) "GET"
      then (getAll kv, w)
      else if String.eqb path "/api/flashcards" && String.eqb (method request) "POST"
      then post request kv w
      else if String.prefix "/api/flashcards/" path
      then
        let id := pop_split EmptyString path in
        if negb (JS.nonempty id)
        then (createErrorResponse "Flashcard ID is missing." 400, w)
        else if String.eqb (method request) "PUT" then put request id kv w
        else if String.eqb (method request) "DELETE" then del id kv w
        else (createErrorResponse "Method Not Allowed for Flashcards API." 405, w)
      else (createErrorResponse "Method Not Allowed for Flashcards API." 405, w)
  end.

(** [fetch(request, env, ctx)].  The [/api/gemini] routes call an external
    service and are not part of this model ([None]). *)
Definition fetch (request : Request) (w : World) : option (Response * World) :=
  if String.eqb (method request) "OPTIONS" then Some (mkResponse 200 None None, w)
  else if String.prefix "/api/flashcards" (pathname request)
  then Some (flashcardsApi request w)
  else if String.prefix "/api/gemini" (pathname request) then None
  else Some (mkResponse 404 None (Some (Malformed "Not Found")), w).

End Worker.

(** ** [src/worker.ts]: the text of a Gemini answer *)

Module GeminiText.

(** [s.endsWith(suffix)]: some tail of [s] is [suffix]. *)
Fixpoint endsWith (suffix s : string) : bool :=
  String.eqb s suffix
  || match s with
     | String _ s' => endsWith suffix s'
     | EmptyString => false
     end.

(** [s.slice(start, -fromEnd)]: the characters from position [start] up to
    [fromEnd] characters before the end, none when the two cross. *)
Definition slice (start fromEnd : nat) (s : string) : string :=
  String.substring start (String.length s - fromEnd - start) s.

(** [cleanJsonStr] as computed from [geminiResponse.text] in the
    [/api/gemini/definition] and [/api/gemini/suggestions] routes. *)
Definition cleanJsonStr (text : string) : string :=
  let jsonStr := JS.trim text in
  if String.prefix "```json" jsonStr && endsWith "```" jsonStr
  then JS.trim (slice 7 3 jsonStr)
  else jsonStr.

End GeminiText.

(** ** [src/services/flashcardService.ts]: the client of the flashcard routes *)

Module Service.
Import Json Types.

(** The transport: the n-th request reaches the worker when [online n]. *)
Record Network := mkNetwork {
  online : nat -> bool;
  sent : nat;
}.

(** The remote side as the client sees it. *)
Record Remote := mkRemote {
  network : Network;
  worker : Worker.World;
}.

(** The browser's [fetch], served by the worker.  A transport failure
    rejects with a [TypeError]; the client below only requests flashcard
    routes, so the worker always answers. *)
Definition fetch (request : Worker.Request) (r : Remote) : (Exn + Worker.Response) * Remote :=
  let net := mkNetwork (online (network r)) (S (sent (network r))) in
  if online (network r) (sent (network r))
  then
    match Worker.fetch request (worker r) with
    | Some (response, w) => (inr response, mkRemote net w)
    | None => (inl (TypeError "Failed to fetch"), mkRemote net (worker r))
    end
  else (inl (TypeError "Failed to fetch"), mkRemote net (worker r)).

(** [response.ok]. *)
Definition ok (response : Worker.Response) : bool :=
  (200 <=? Worker.status response) && (Worker.status response <=? 299).

(** [await response.json()]. *)
Definition json (response : Worker.Response) : Exn + JSValue :=
  match Worker.responseBody response with
  | Some t => parse t
  | None => inl (SyntaxError "Unexpected end of JSON input")
  end.

(** [s.includes(sub)]. *)
Definition includes (sub s : string) : bool :=
  match String.index 0 sub s with Some _ => true | None => false end.

(** The text shown for a value that is not a string.  The worker only
    ever sends a string in [error] and declares every JSON body as such,
    so these spellings are never observed; the digits of a Number and the
    layout of JSON text are not spelled out. *)
Definition display (v : JSValue) : string :=
  match v with
  | JStr s => s
  | JBool true => "true"
  | JBool false => "false"
  | JNull => "null"
  | JNum _ => "[number]"
  | JArr _ => "[array]"
  | JObj _ => "[object Object]"
  end.

(** [parseErrorResponse(response)]. *)
Definition parseErrorResponse (response : Worker.Response) : Exn + string :=
  let unknown := "Unknown error (" +:+ pretty (Worker.status response) +:+ ")" in
  let is_json :=
    match Worker.contentType response with
    | Some ct => includes "application/json" ct
    | None => false
    end in
  if is_json
  then
    match json response with
    | inr (JStr s) => inr s
    | inr JNull => inl (TypeError "Cannot read properties of null (reading 'error')")
    | inr errorBody =>
        match get "error" errorBody with
        | Some e => if truthy e then inr (display e) else inr unknown
        | None => inr unknown
        end
    | inl _ => inl (TypeError "Body has already been consumed.")
    end
  else
    match Worker.responseBody response with
    | Some (Malformed raw) => inr raw
    | Some (Serialized v) => inr (display v)
    | None => inr EmptyString
    end.

Definition ENDPOINTS_FLASHCARDS : string := "/api/flashcards".

(** The [catch] clause shared by the four operations. *)
Definition caught {T} (e : Exn) : ApiResponse T :=
  mkApiResponse false None (Some (message e)).

(** The [if (!response.ok)] block: the [Error] the operation throws. *)
Definition rejected (what : string) (response : Worker.Response) : Exn :=
  match parseErrorResponse response with
  | inr errorMessage =>
      Error (what +:+ pretty (Worker.status response) +:+ " " +:+ errorMessage)
  | inl e => e
  end.

Definition finish (what : string) (result : Exn + Worker.Response) : ApiResponse JSValue :=
  match result with
  | inl e => caught e
  | inr response =>
      if negb (ok response) then caught (rejected what response)
      else
        match json response with
        | inr data => mkApiResponse true (Some data) None
        | inl e => caught e
        end
  end.

Definition getFlashcards (r : Remote) : ApiResponse JSValue * Remote :=
  let '(result, r) :=
    fetch (Worker.mkRequest "GET" ENDPOINTS_FLASHCARDS (Malformed EmptyString)) r in
  (finish "Failed to fetch flashcards: " result, r).

Definition opt_prop (k : string) (v : option JSValue) : list (string * JSValue) :=
  match v with Some x => [(k, x)] | None => [] end.

(** The draft as the object handed to [JSON.stringify]; an [undefined]
    property is left out. *)
Definition draft_object (d : Draft) : JSValue :=
  JObj ([("word", JStr (draft_word d)); ("definition", JStr (draft_definition d))]
        ++ opt_prop "exampleSentence" (JStr <$> draft_exampleSentence d)
        ++ opt_prop "lastReviewedAt" (JNum <$> draft_lastReviewedAt d)).

Definition flashcard_object (c : Flashcard) : JSValue :=
  JObj ([("id", JStr (id c)); ("word", JStr (word c)); ("definition", JStr (definition c))]
        ++ opt_prop "exampleSentence" (JStr <$> exampleSentence c)
        ++ [("createdAt", JNum (createdAt c))]
        ++ opt_prop "lastReviewedAt" (JNum <$> lastReviewedAt c)
        ++ opt_prop "dueDate" (JNum <$> dueDate c)
        ++ opt_prop "interval" (JNum <$> interval c)).

Definition addFlashcard (flashcard : Draft) (r : Remote) : ApiResponse JSValue * Remote :=
  let '(result, r) :=
    fetch (Worker.mkRequest "POST" ENDPOINTS_FLASHCARDS (stringify (draft_object flashcard)))
          r in
  (finish "Failed to add flashcard: " result, r).

Definition updateFlashcard (flashcard : Flashcard) (r : Remote)
    : ApiResponse JSValue * Remote :=
  let '(result, r) :=
    fetch (Worker.mkRequest "PUT" (ENDPOINTS_FLASHCARDS +:+ "/" +:+ id flashcard)
                            (stringify (flashcard_object flashcard)))
          r in
  (finish "Failed to update flashcard: " result, r).

Definition deleteFlashcard (id : string) (r : Remote) : ApiResponse unit * Remote :=
  let '(result, r) :=
    fetch (Worker.mkRequest "DELETE" (ENDPOINTS_FLASHCARDS +:+ "/" +:+ id)
                            (Malformed EmptyString))
          r in
  (match result with
   | inl e => caught e
   | inr response =>
       if negb (ok response)
       then caught (rejected "Failed to delete flashcard: " response)
       else mkApiResponse true None None
   end, r).

End Service.

(** ** [src/services/geminiService.ts], as its callers use it *)

Module Gemini.
Import Types.

(** [interface GeminiDefinitionResponse]. *)
Record GeminiDefinitionResponse := mkDefinition {
  g_word : string;
  g_definition : string;
  g_exampleSentence : option string;
}.

(** [interface GeminiSuggestionsResponse]. *)
Record GeminiSuggestionsResponse := mkSuggestions {
  suggestions : list GeminiDefinitionResponse;
}.

(** [geminiService], as [App.tsx] and [AddWordForm.tsx] use it: each call
    acts on the remote side [G] and answers with an [ApiResponse]. *)
Record GeminiService (G : Type) := mkGemini {
  generateDefinition : string -> G -> ApiResponse GeminiDefinitionResponse * G;
  suggestWords : float -> option string -> G -> ApiResponse GeminiSuggestionsResponse * G;
  generateSpeech : string -> string -> G -> ApiResponse string * G;
}.
Arguments mkGemini {G}.
Arguments generateDefinition {G}.
Arguments suggestWords {G}.
Arguments generateSpeech {G}.

(** A suggestion handed to [handleAddFlashcard], which reads it as a draft. *)
Definition as_draft (suggestion : GeminiDefinitionResponse) : Draft :=
  mkDraft (g_word suggestion) (g_definition suggestion) (g_exampleSentence suggestion) None.

End Gemini.

(** ** [src/services/geminiService.ts]: the client of the Gemini routes *)

Module GeminiClient.
Import Json Types.

Section Client.
(** The remote side: the worker's [/api/gemini] routes and the language
    model behind them. *)
Context {G : Type}.
(** The browser's [fetch] against that remote side. *)
Variable fetch : Worker.Request -> G -> (Exn + Worker.Response) * G.

(** The [if (!response.ok)] block: the [Error] the operation throws, or the
    exception that [response.json()] or the property access throws first. *)
Definition rejected (fallback : string) (response : Worker.Response) : Exn :=
  match Service.json response with
  | inl e => e
  | inr JNull => TypeError "Cannot read properties of null (reading 'error')"
  | inr errorBody =>
      match get "error" errorBody with
      | Some e =>
          if truthy e then Error (Service.display e)
          else Error (fallback +:+ pretty (Worker.status response))
      | None => Error (fallback +:+ pretty (Worker.status response))
      end
  end.

(** What follows [await fetch(...)] in the three operations; [pick] is what
    the operation returns of the body. *)
Definition finish (fallback : string) (pick : JSValue -> Exn + option JSValue)
    (result : Exn + Worker.Response) : ApiResponse JSValue :=
  match result with
  | inl e => Service.caught e
  | inr response =>
      if negb (Service.ok response) then Service.caught (rejected fallback response)
      else
        match Service.json response with
        | inl e => Service.caught e
        | inr data =>
            match pick data with
            | inl e => Service.caught e
            | inr d => mkApiResponse true d None
            end
        end
  end.

Definition generateDefinition (word : string) (g : G) : ApiResponse JSValue * G :=
  let '(result, g) :=
    fetch (Worker.mkRequest "POST" "/api/gemini/definition"
             (stringify (JObj [("word", JStr word)]))) g in
  (finish "Failed to generate definition: " (fun data => inr (Some data)) result, g).

(** [suggestWords(count = 3, theme?)]: an argument left out is [None]; the
    body has no [theme] then. *)
Definition suggestWords (count : option float) (theme : option string) (g : G)
    : ApiResponse JSValue * G :=
  let count := default 3%float count in
  let '(result, g) :=
    fetch (Worker.mkRequest "POST" "/api/gemini/suggestions"
             (stringify (JObj ([("count", JNum count)]
                               ++ Service.opt_prop "theme" (JStr <$> theme))))) g in
  (finish "Failed to fetch word suggestions: " (fun data => inr (Some data)) result, g).

(** [data.data]: reading a property of [null] throws. *)
Definition data_of (data : JSValue) : Exn + option JSValue :=
  match data with
  | JNull => inl (TypeError "Cannot read properties of null (reading 'data')")
  | _ => inr (get "data" data)
  end.

(** [generateSpeech(text, voiceName = 'Zephyr')]. *)
Definition generateSpeech (text : string) (voiceName : option string) (g : G)
    : ApiResponse JSValue * G :=
  let voiceName := default "Zephyr" voiceName in
  let '(result, g) :=
    fetch (Worker.mkRequest "POST" "/api/gemini/speech"
             (stringify (JObj [("text", JStr text); ("voiceName", JStr voiceName)]))) g in
  (finish "Failed to generate speech: " data_of result, g).
End Client.

End GeminiClient.

(** ** [src/services/geminiService.ts]: decoding the audio of a speech *)

Module Audio.

(** What the browser throws in this code; the callers read the [message],
    whose wording is the engine's. *)
Inductive Thrown :=
| InvalidCharacterError (message : string)
| RangeError (message : string)
| NotSupportedError (message : string).

Definition message (e : Thrown) : string :=
  match e with
  | InvalidCharacterError m | RangeError m | NotSupportedError m => m
  end.

(** An integer below 2^53 in absolute value, as a Number. *)
Definition of_int (z : Z) : float :=
  if z <? 0 then (- of_uint63 (Uint63.of_Z (- z)))%float else of_uint63 (Uint63.of_Z z).

(** [s.charCodeAt(i)] stored into a [Uint8Array]: the code of the character,
    0 for the [NaN] of a position outside the string. *)
Definition charCodeAt (s : string) (i : nat) : Byte.byte :=
  match String.get i s with
  | Some c => byte_of_ascii c
  | None => Byte.x00
  end.

Section Decode.
(** The browser's [atob]: the binary string (characters below 256) that a
    base64 text stands for, or an [InvalidCharacterError]. *)
Variable atob : string -> Thrown + string.

(** [decode(base64)]. *)
Definition decode (base64 : string) : Thrown + list Byte.byte :=
  match atob base64 with
  | inl e => inl e
  | inr binaryString =>
      let len := String.length binaryString in
      let bytes := replicate len Byte.x00 in
      inr (foldl (fun bytes i => <[i := charCodeAt binaryString i]> bytes) bytes (seq 0 len))
  end.
End Decode.

(** Two bytes, the low one first, as a signed 16-bit integer. *)
Definition int16 (lo hi : Byte.byte) : Z :=
  let u := Z.of_N (Byte.to_N lo) + 256 * Z.of_N (Byte.to_N hi) in
  if u <? 32768 then u else u - 65536.

Fixpoint int16s (bytes : list Byte.byte) : list Z :=
  match bytes with
  | lo :: hi :: rest => int16 lo hi :: int16s rest
  | _ => []
  end.

(** [new Int16Array(buffer)] on the buffer of a [Uint8Array] that owns it:
    a [RangeError] when the number of bytes is odd.  The elements are read
    in the byte order of the platform, which is little-endian wherever a
    browser runs. *)
Definition Int16Array (buffer : list Byte.byte) : Thrown + list Z :=
  if Nat.even (length buffer) then inr (int16s buffer)
  else inl (RangeError "byte length of Int16Array should be a multiple of 2").

(** Every byte. *)
Definition every_byte : list Byte.byte := omap Byte.of_nat (seq 0 256).

(** The limits of an [AudioContext] that [createBuffer] checks. *)
Record AudioContext := mkAudioContext {
  maxChannels : Z;
  rateSupported : float -> bool;
}.

(** An [AudioBuffer]: its channels, each a [Float32Array]. *)
Definition AudioBuffer := list (list float).

(** [ctx.createBuffer(numberOfChannels, length, sampleRate)]: silence, or a
    [NotSupportedError] when a value is zero or outside its range. *)
Definition createBuffer (ctx : AudioContext) (numberOfChannels length : Z)
    (sampleRate : float) : Thrown + AudioBuffer :=
  if (1 <=? numberOfChannels) && (numberOfChannels <=? maxChannels ctx)
     && (1 <=? length) && rateSupported ctx sampleRate
  then inr (replicate (Z.to_nat numberOfChannels) (replicate (Z.to_nat length) 0%float))
  else inl (NotSupportedError "The buffer could not be created with these values").

(** [dataInt16[k] / 32768.0]; [undefined / 32768.0] is [NaN].  The quotient
    of a 16-bit integer by 2^15 is a binary32 value, so that the
    [Float32Array] holds it as it is. *)
Definition sample (dataInt16 : list Z) (k : nat) : float :=
  match dataInt16 !! k with
  | Some z => (of_int z / 32768)%float
  | None => nan
  end.

(** [decodeAudioData(data, ctx, sampleRate, numChannels)].

    [frameCount] is the Number [dataInt16.length / numChannels].  As the
    [length] of [createBuffer] it loses its fraction; the inner loop runs
    while [i < frameCount], once more when the division leaves a remainder,
    and that assignment falls outside the channel and is dropped.  With
    [numChannels < 1] no value of [frameCount] makes [createBuffer]
    succeed. *)
Definition decodeAudioData (data : list Byte.byte) (ctx : AudioContext)
    (sampleRate : float) (numChannels : Z) : Thrown + AudioBuffer :=
  match Int16Array data with
  | inl e => inl e
  | inr dataInt16 =>
      let len := Z.of_nat (length dataInt16) in
      match createBuffer ctx numChannels (len / numChannels) sampleRate with
      | inl e => inl e
      | inr buffer =>
          let nc := Z.to_nat numChannels in
          let iterations := Z.to_nat ((len + numChannels - 1) / numChannels) in
          inr (foldl
                 (fun buffer channel =>
                    let channelData := default [] (buffer !! channel) in
                    let channelData :=
                      foldl (fun channelData i =>
                               <[i := sample dataInt16 (i * nc + channel)]> channelData)
                            channelData (seq 0 iterations) in
                    <[channel := channelData]> buffer)
                 buffer (seq 0 nc))
      end
  end.

End Audio.

(** ** [components/AddWordForm.tsx] *)

Module AddWordForm.
Import Types.

Record Form := mkForm {
  word : string;
  definition : string;
  exampleSentence : string;
  loadingDefinition : bool;
  error : string;
}.

Section Submit.
Context {R : Type}.
(** The props [onAdd] and [onSuccess], acting on the rest of the
    application. *)
Variable onAdd : Draft -> R -> R.
Variable onSuccess : option (R -> R).

(** [handleSubmit]: a blank word or definition stops the submission
    before [onAdd] is called. *)
Definition handleSubmit (f : Form) (r : R) : Form * R :=
  let f := mkForm (word f) (definition f) (exampleSentence f) (loadingDefinition f) "" in
  if negb (JS.nonempty (JS.trim (word f))) || negb (JS.nonempty (JS.trim (definition f)))
  then
    (mkForm (word f) (definition f) (exampleSentence f) (loadingDefinition f)
            "Word and Definition are required.", r)
  else
    let r := onAdd (mkDraft (word f) (definition f) (Some (exampleSentence f)) None) r in
    let f := mkForm "" "" "" (loadingDefinition f) (error f) in
    (f, match onSuccess with Some k => k r | None => r end).
End Submit.


Section Generate.
Context {G : Type}.
Variable geminiService : Gemini.GeminiService G.

(** [handleGenerateDefinition]: a blank word stops the handler before
    [geminiService] is called. *)
Definition handleGenerateDefinition (f : Form) (g : G) : Form * G :=
  if negb (JS.nonempty (JS.trim (word f)))
  then
    (mkForm (word f) (definition f) (exampleSentence f) (loadingDefinition f)
            "Please enter a word to generate a definition.", g)
  else
    let f := mkForm (word f) (definition f) (exampleSentence f) true (error f) in
    let f := mkForm (word f) (definition f) (exampleSentence f) (loadingDefinition f) "" in
    let '(response, g) := Gemini.generateDefinition geminiService (word f) g in
    let f :=
      match success response, data response with
      | true, Some d =>
          let f := mkForm (word f) (Gemini.g_definition d) (exampleSentence f)
                          (loadingDefinition f) (error f) in
          mkForm (word f) (definition f)
                 (match Gemini.g_exampleSentence d with
                  | Some e => if JS.nonempty e then e else ""
                  | None => ""
                  end)
                 (loadingDefinition f) (error f)
      | _, _ =>
          mkForm (word f) (definition f) (exampleSentence f) (loadingDefinition f)
                 (error_or response "Failed to generate definition. Please try again.")
      end in
    (mkForm (word f) (definition f) (exampleSentence f) false (error f), g).
End Generate.

End AddWordForm.

(** ** [src/App.tsx]: word suggestions *)

Module Suggestions.
Import Types App Gemini.

(** The state of the "Suggest" page. *)
Record Panel := mkPanel {
  suggestedWords : list GeminiDefinitionResponse;
  loadingSuggestions : bool;
  suggestionTheme : string;
  addingSuggestionWord : option string;
}.

(** [useState] initial values. *)
Definition initial : Panel := mkPanel [] false "" None.

Definition setSuggestedWords
    (f : list GeminiDefinitionResponse -> list GeminiDefinitionResponse) (p : Panel) : Panel :=
  mkPanel (f (suggestedWords p)) (loadingSuggestions p) (suggestionTheme p)
          (addingSuggestionWord p).

Definition setLoadingSuggestions (b : bool) (p : Panel) : Panel :=
  mkPanel (suggestedWords p) b (suggestionTheme p) (addingSuggestionWord p).

Definition setAddingSuggestionWord (w : option string) (p : Panel) : Panel :=
  mkPanel (suggestedWords p) (loadingSuggestions p) (suggestionTheme p) w.

(** The application with its "Suggest" page and the remote side of
    [geminiService]. *)
Record Page (R G : Type) := mkPage {
  sys : Sys R;
  panel : Panel;
  gemini : G;
}.
Arguments mkPage {R G}.
Arguments sys {R G}.
Arguments panel {R G}.
Arguments gemini {R G}.

Section Handlers.
Context {R G : Type}.
Variable flashcardService : FlashcardService R.
Variable geminiService : GeminiService G.

Definition fetchSuggestions (theme : option string) (p : Page R G) : Page R G :=
  let pn := setLoadingSuggestions true (panel p) in
  let st := setError None (ui (sys p)) in
  let pn := setSuggestedWords (fun _ => []) pn in
  let '(response, g) := suggestWords geminiService 5%float theme (gemini p) in
  let '(pn, st) :=
    match success response, data response with
    | true, Some d => (setSuggestedWords (fun _ => suggestions d) pn, st)
    | _, _ =>
        (pn,
         setError
           (Some (error_or response
                    "Failed to fetch word suggestions. Please ensure the Gemini API key is configured in your Cloudflare Worker."))
           st)
    end in
  mkPage (mkSys st (clock (sys p)) (remote (sys p))) (setLoadingSuggestions false pn) g.

Definition handleAddSuggestedWord (suggestion : GeminiDefinitionResponse) (p : Page R G)
    : Page R G :=
  let pn := setAddingSuggestionWord (Some (g_word suggestion)) (panel p) in
  let s := handleAddFlashcard flashcardService (as_draft suggestion) (sys p) in
  let pn :=
    setSuggestedWords
      (fun prev =>
         List.filter (fun s => negb (String.eqb (g_word s) (g_word suggestion))) prev)
      pn in
  let pn := setAddingSuggestionWord None pn in
  mkPage s pn (gemini p).

Definition handleDismissSuggestion (word : string) (p : Page R G) : Page R G :=
  mkPage (sys p)
         (setSuggestedWords
            (fun prev => List.filter (fun s => negb (String.eqb (g_word s) word)) prev)
            (panel p))
         (gemini p).
End Handlers.

End Suggestions.

(** ** [src/App.tsx]: reading a card aloud *)

Module ReadAloud.
Import Types Gemini Audio.

(** An [AudioBufferSourceNode] with its buffer; [node] tells the nodes
    apart. *)
Record Source := mkSource {
  node : nat;
  buffer : AudioBuffer;
}.

(** The refs [audioContextRef] and [currentAudioSourceRef] of [App], and on
    the side of the browser the number of nodes made so far and the nodes
    that were started and have not been stopped. *)
Record Player := mkPlayer {
  audioContextRef : option AudioContext;
  currentAudioSourceRef : option Source;
  nodes : nat;
  playing : list nat;
}.

(** What [handleReadAloud] can touch. *)
Record Stage (G : Type) := mkStage {
  ui : App.State;
  player : Player;
  gemini : G;
}.
Arguments mkStage {G}.
Arguments ui {G}.
Arguments player {G}.
Arguments gemini {G}.

Definition setIsReadingAloud (b : bool) (st : App.State) : App.State :=
  App.mkState (App.flashcards st) (App.loading st) (App.error st)
              (App.currentFlashcardIndex st) b.

(** [source.stop(); source.disconnect(); currentAudioSourceRef.current = null]. *)
Definition stop (current : Source) (pl : Player) : Player :=
  mkPlayer (audioContextRef pl) None (nodes pl)
           (List.filter (fun n => negb (n =? node current)%nat) (playing pl)).

(** [createBufferSource()], [source.buffer = audioBuffer], [connect],
    [source.start()], [currentAudioSourceRef.current = source]. *)
Definition start (audioBuffer : AudioBuffer) (pl : Player) : Player :=
  let source := mkSource (nodes pl) audioBuffer in
  mkPlayer (audioContextRef pl) (Some source) (S (nodes pl)) (node source :: playing pl).

Section Handler.
Context {G : Type}.
Variable geminiService : GeminiService G.
Variable atob : string -> Thrown + string.

(** The [catch] clause: every exception here is an [Error]. *)
Definition caught (e : Thrown) (st : App.State) : App.State :=
  App.setError (Some ("Read aloud error: " +:+ message e)) st.

Definition handleReadAloud (text voiceName : string) (s : Stage G) : Stage G :=
  match audioContextRef (player s) with
  | None =>
      mkStage (App.setError (Some "Audio context not available.") (ui s)) (player s) (gemini s)
  | Some ctx =>
      let st := setIsReadingAloud true (ui s) in
      let st := App.setError None st in
      let pl :=
        match currentAudioSourceRef (player s) with
        | Some current => stop current (player s)
        | None => player s
        end in
      let '(response, g) := generateSpeech geminiService text voiceName (gemini s) in
      let failed :=
        App.setError
          (Some (error_or response
                   "Failed to generate speech. Please ensure the Gemini API key is configured in your Cloudflare Worker."))
          st in
      let '(st, pl) :=
        match success response, data response with
        | true, Some base64Audio =>
            if JS.nonempty base64Audio
            then
              match decode atob base64Audio with
              | inr audioBytes =>
                  match decodeAudioData audioBytes ctx 24000 1 with
                  | inr audioBuffer => (st, start audioBuffer pl)
                  | inl e => (caught e st, pl)
                  end
              | inl e => (caught e st, pl)
              end
            else (failed, pl)
        | _, _ => (failed, pl)
        end in
      let st :=
        match currentAudioSourceRef pl with
        | Some _ => st
        | None => setIsReadingAloud false st
        end in
      mkStage st pl g
  end.

(** [source.onended], when the browser reports that [source] has stopped
    playing. *)
Definition onended (source : Source) (s : Stage G) : Stage G :=
  let st := setIsReadingAloud false (ui s) in
  let pl :=
    mkPlayer (audioContextRef (player s)) (currentAudioSourceRef (player s))
             (nodes (player s))
             (List.filter (fun n => negb (n =? node source)%nat) (playing (player s))) in
  let pl :=
    match currentAudioSourceRef pl with
    | Some current =>
        if (node current =? node source)%nat
        then mkPlayer (audioContextRef pl) None (nodes pl) (playing pl)
        else pl
    | None => pl
    end in
  mkStage st pl (gemini s).
End Handler.

End ReadAloud.

(** ** Vocabulary for the binary64 lemmas *)

Module Binary64.

(** A result that is not zero and carries the sign [s]: a finite number
    or an infinity. *)
Inductive signed_nonzero (s : bool) : spec_float -> Prop :=
| snz_finite m e : signed_nonzero s (S754_finite s m e)
| snz_infinity : signed_nonzero s (S754_infinity s).

(** The signed integer [±m·2^(e-ez)] of a finite number at exponent [ez]. *)
Definition aligned (s : bool) (m : positive) (e ez : Z) : Z :=
  cond_Zopp s (Z.pos m * 2 ^ (e - ez)).

Definition is_nan_SF (x : spec_float) : bool :=
  match x with S754_nan => true | _ => false end.


(** Two Numbers with the same sign, mantissa and exponent. *)
Definition same_bits (x y : spec_float) : bool :=
  match x, y with
  | S754_zero s, S754_zero s' => Bool.eqb s s'
  | S754_infinity s, S754_infinity s' => Bool.eqb s s'
  | S754_nan, S754_nan => true
  | S754_finite s m e, S754_finite s' m' e' =>
      Bool.eqb s s' && Pos.eqb m m' && Z.eqb e e'
  | _, _ => false
  end.

End Binary64.

(** ** Vocabulary for the scheduler *)

Module Schedule.
Import Types Host App.

(** Reviews of one card in a row, with the given outcomes. *)
Fixpoint reviewed (outcomes : list bool) (c : Flashcard) (clk : Clock) : Flashcard * Clock :=
  match outcomes with
  | [] => (c, clk)
  | success :: rest =>
      let '(c', clk') := calculateNextDueDate c success clk in
      reviewed rest c' clk'
  end.

(** [2^n] as a Number. *)
Definition pow2 (n : nat) : float := Z.ldexp 1 (Z.of_nat n).

(** The interval after a success, as a function of the interval before. *)
Definition doubled (i : float) : float :=
  JS.Math_max 1 (if PrimFloat.eqb i 0 then 1 else i * 2)%float.

End Schedule.

(** ** Vocabulary for the deck *)

Module Deck.
Import Types App.

(** Consecutive cards have non-decreasing sort keys. *)
Definition ordered_by_due (deck : list Flashcard) : Prop :=
  forall (i : nat) (a b : Flashcard),
    deck !! i = Some a -> deck !! S i = Some b -> (due a <=? due b)%float = true.

(** The cards of every due date stand in [deck] in the order they have in
    [cards], and [deck] has the cards of [cards] and no others. *)
Definition stable_rearrangement (cards deck : list Flashcard) : Prop :=
  Permutation cards deck
  /\ forall k : float,
       List.filter (fun c => PrimFloat.eqb (due c) k) deck
       = List.filter (fun c => PrimFloat.eqb (due c) k) cards.

(** The cursor names a position of the deck. *)
Definition cursor_in_range (st : State) : Prop :=
  exists c : Z,
    currentFlashcardIndex st = JS.Idx c /\ 0 <= c < Z.of_nat (length (flashcards st)).

(** An answer [{ success: true, data: d }]. *)
Definition succeeded {T} (response : ApiResponse T) (d : T) : Prop :=
  success response = true /\ data response = Some d.

(** An answer the handlers treat as a failure. *)
Definition failed {T} (response : ApiResponse T) : Prop :=
  success response = false \/ data response = None.

End Deck.

(** ** Vocabulary for the store *)

Module Store.
Import Json.

(** A stored value that [JSON.parse] is called on and rejects. *)
Definition unreadable (t : Text) : Prop :=
  exists raw : string, t = Malformed raw /\ raw <> EmptyString.

(** The cards a listing shows for a namespace: the stored values that parse
    to something truthy, as they come back from the wire. *)
Definition listed (kv : gmap string Text) (card : JSValue) : Prop :=
  exists (key : string) (v : JSValue),
    kv !! key = Some (Serialized v) /\ truthy v = true /\ card = roundtrip v.

(** The card [POST /api/flashcards] builds from a request body:
    [{...newFlashcardData, id, createdAt, dueDate, interval}]. *)
Definition created (newFlashcardData : JSValue) (id : string) (createdAt dueDate : float)
    : JSValue :=
  JObj (set_prop "interval" (JNum 0)
         (set_prop "dueDate" (JNum dueDate)
           (set_prop "createdAt" (JNum createdAt)
             (set_prop "id" (JStr id) (spread newFlashcardData))))).

(** A Number as it arrives after [JSON.stringify] and [JSON.parse]. *)
Definition wire_number (n : float) : JSValue := roundtrip (JNum n).

(** The client is connected for its next request. *)
Definition connected (r : Service.Remote) : Prop :=
  Service.online (Service.network r) (Service.sent (Service.network r)) = true.


(** A character that stands for itself in the path of a URL: a letter, a
    digit, ['-'] or ['_']. *)
Definition is_unreserved (c : ascii) : bool :=
  let n := nat_of_ascii c in
  ((48 <=? n)%nat && (n <=? 57)%nat) || ((65 <=? n)%nat && (n <=? 90)%nat)
  || ((97 <=? n)%nat && (n <=? 122)%nat) || (n =? 45)%nat || (n =? 95)%nat.

Fixpoint unreserved (s : string) : bool :=
  match s with
  | EmptyString => true
  | String c s' => is_unreserved c && unreserved s'
  end.

(** An id that is one segment of a path as it stands, such as the UUIDs the
    worker issues: [new URL(request.url).pathname] is then
    ['/api/flashcards/' + id]. *)
Definition path_segment (id : string) : Prop :=
  id <> EmptyString /\ unreserved id = true.

(** The two shapes of an answer: [{ success: true, data }] with a [data]
    that is truthy, or [{ success: false, error }]. *)
Definition data_or_error (response : Types.ApiResponse JSValue) : Prop :=
  if Types.success response
  then Types.error response = None
       /\ exists d, Types.data response = Some d /\ truthy d = true
  else Types.data response = None /\ is_Some (Types.error response).

End Store.

(** ** Sample data *)

Module Sample.
Import Types Host.

(** A clock that starts at 1 700 000 000 000 ms and advances by one
    millisecond between two readings. *)
Definition ticking : Clock :=
  mkClock (fun n => (1700000000000 + of_uint63 (Uint63.of_Z (Z.of_nat n)))%float) 0.

(** A clock that stands still. *)
Definition frozen : Clock := mkClock (fun _ => 1700000000000%float) 0.

(** A card as the worker creates it, with the given interval. *)
Definition card (id : string) (due : float) (i : float) : Flashcard :=
  mkFlashcard id "ephemeral" "lasting a very short time" None
              1700000000000 None (Some due) (Some i).

Definition new_card : Flashcard := card "a" 1700000000000 0.

(** Three cards; [card_b] and [card_c] are due at the same instant. *)
Definition card_a : Flashcard := card "a" 3000 1.
Definition card_b : Flashcard := card "b" 2000 1.
Definition card_c : Flashcard := card "c" 2000 2.

(** A store that acknowledges every request: it lists [listed], answers a
    draft with a new card, and echoes an update, as the worker does. *)
Definition acknowledging (listed : list Flashcard) : App.FlashcardService unit :=
  App.mkService
    (fun r => (mkApiResponse true (Some listed) None, r))
    (fun d r =>
       (mkApiResponse true
          (Some (mkFlashcard "n" (draft_word d) (draft_definition d)
                   (draft_exampleSentence d) 2500 None (Some 2500%float) (Some 0%float)))
          None, r))
    (fun c r => (mkApiResponse true (Some c) None, r))
    (fun _ r => (mkApiResponse true None None, r)).

(** The answer of a call that ended in the [catch] clause. *)
Definition down {T} : ApiResponse T := mkApiResponse false None (Some "Failed to fetch").

(** A store that cannot be reached. *)
Definition unreachable : App.FlashcardService unit :=
  App.mkService (fun r => (down, r)) (fun _ r => (down, r))
                (fun _ r => (down, r)) (fun _ r => (down, r)).

(** A stored card, as the worker writes it. *)
Definition stored_card (id word : string) : Json.JSValue :=
  Json.JObj [("word", Json.JStr word); ("definition", Json.JStr "a definition");
             ("id", Json.JStr id); ("createdAt", Json.JNum 1700000000000);
             ("dueDate", Json.JNum 1700000000000); ("interval", Json.JNum 0)].

(** Three stored cards. *)
Definition three_cards : gmap string Json.Text :=
  <["k3" := Json.Serialized (stored_card "k3" "gamma")]>
    (<["k2" := Json.Serialized (stored_card "k2" "beta")]>
       (<["k1" := Json.Serialized (stored_card "k1" "alpha")]> ∅)).

(** The same namespace with a fourth value that is not JSON. *)
Definition three_cards_and_junk : gmap string Json.Text :=
  <["k4" := Json.Malformed "{oops"]> three_cards.

(** A connected client in front of a worker bound to [kv]. *)
Definition remote (kv : gmap string Json.Text) : Service.Remote :=
  Service.mkRemote
    (Service.mkNetwork (fun _ => true) 0)
    (Worker.mkWorld (Some kv) ticking (mkUUIDs (fun n => "uuid-" +:+ pretty n) 0)).

(** The review screen with the given deck and cursor. *)
Definition screen (deck : list Flashcard) (cursor : JS.Index) : App.Sys unit :=
  App.mkSys (App.mkState deck false None cursor false) frozen tt.


(** A Gemini service that answers every request: a definition without an
    example, two suggestions of the same word and one of another, and a
    speech of two 16-bit samples, 0 and 32767, in base64. *)
Definition answering : Gemini.GeminiService unit :=
  Gemini.mkGemini
    (fun w g =>
       (mkApiResponse true (Some (Gemini.mkDefinition w "lasting a very short time" None))
          None, g))
    (fun _ _ g =>
       (mkApiResponse true
          (Some (Gemini.mkSuggestions
                   [Gemini.mkDefinition "terse" "brief" None;
                    Gemini.mkDefinition "lucid" "clear" None]))
          None, g))
    (fun _ _ g => (mkApiResponse true (Some "AAD/fw==") None, g)).

(** A Gemini service that cannot be reached. *)
Definition silent : Gemini.GeminiService unit :=
  Gemini.mkGemini (fun _ g => (down, g)) (fun _ _ g => (down, g)) (fun _ _ g => (down, g)).

(** The bytes 00 00 FF 7F as a binary string. *)
Definition two_samples : string :=
  String (ascii_of_nat 0) (String (ascii_of_nat 0)
    (String (ascii_of_nat 255) (String (ascii_of_nat 127) EmptyString))).

(** [atob] on the one text used here. *)
Definition atob (base64 : string) : Audio.Thrown + string :=
  if String.eqb base64 "AAD/fw==" then inr two_samples
  else inl (Audio.InvalidCharacterError "The string to be decoded is not correctly encoded.").

(** An audio context with the limits that every implementation has to
    support: 32 channels, sample rates from 8000 to 96000. *)
Definition context : Audio.AudioContext :=
  Audio.mkAudioContext 32 (fun rate => (8000 <=? rate)%float && (rate <=? 96000)%float).

(** Three suggestions, two of them of the same word. *)
Definition three_suggestions : list Gemini.GeminiDefinitionResponse :=
  [Gemini.mkDefinition "terse" "brief" None;
   Gemini.mkDefinition "lucid" "clear" None;
   Gemini.mkDefinition "terse" "curt" (Some "A terse reply.")].

(** The "Suggest" page over the review screen. *)
Definition page (deck : list Flashcard) : Suggestions.Page unit unit :=
  Suggestions.mkPage (screen deck (JS.Idx 0))
                     (Suggestions.mkPanel three_suggestions false "" None) tt.

(** The review screen with an audio context and nothing playing. *)
Definition stage : ReadAloud.Stage unit :=
  ReadAloud.mkStage (App.mkState [card_a] false None (JS.Idx 0) false)
                    (ReadAloud.mkPlayer (Some context) None 0 []) tt.

End Sample.

(* ===================================================================== *)
(** * Part II. Properties                                                 *)
(* ===================================================================== *)

(** ** Binary64 arithmetic

    Facts about [SpecFloat] at precision 53 and [emax] 1024, carried to the
    primitive floats through [FloatAxioms]. *)

Module Binary64Facts.
Import Binary64.

Lemma digits2_pos_bounds m :
  2 ^ (Zpos (digits2_pos m) - 1) <= Zpos m < 2 ^ Zpos (digits2_pos m).
Proof.
  induction m as [m IH|m IH|]; cbn [digits2_pos].
  - rewrite Pos2Z.inj_succ.
    replace (Z.succ (Zpos (digits2_pos m)) - 1) with (Z.succ (Zpos (digits2_pos m) - 1)) by lia.
    rewrite !Z.pow_succ_r by lia. lia.
  - rewrite Pos2Z.inj_succ.
    replace (Z.succ (Zpos (digits2_pos m)) - 1) with (Z.succ (Zpos (digits2_pos m) - 1)) by lia.
    rewrite !Z.pow_succ_r by lia. lia.
  - cbn. lia.
Qed.

Lemma shr_1_m mrs : 0 <= shr_m mrs -> shr_m (shr_1 mrs) = shr_m mrs / 2.
Proof.
  destruct mrs as [m r s]; cbn [shr_m shr_1]. intros Hm.
  destruct m as [|[p|p|]|p]; cbn [shr_m]; try lia.
  - reflexivity.
  - rewrite Pos2Z.inj_xI. apply Z.div_unique with (r := 1); lia.
  - rewrite Pos2Z.inj_xO. apply Z.div_unique with (r := 0); lia.
  - reflexivity.
Qed.

Lemma iter_shr_1_m p : forall mrs, 0 <= shr_m mrs ->
  shr_m (SpecFloat.iter_pos shr_1 p mrs) = shr_m mrs / 2 ^ Zpos p.
Proof.
  assert (Hnn : forall q mrs, 0 <= shr_m mrs -> 0 <= shr_m (SpecFloat.iter_pos shr_1 q mrs)).
  { induction q as [q IH|q IH|]; intros mrs Hm; cbn [SpecFloat.iter_pos].
    - apply IH, IH. rewrite shr_1_m by done. apply Z.div_pos; lia.
    - apply IH, IH; done.
    - rewrite shr_1_m by done. apply Z.div_pos; lia. }
  induction p as [p IH|p IH|]; intros mrs Hm; cbn [SpecFloat.iter_pos].
  - rewrite IH by (apply Hnn; rewrite shr_1_m by done; apply Z.div_pos; lia).
    rewrite IH by (rewrite shr_1_m by done; apply Z.div_pos; lia).
    rewrite shr_1_m by done.
    assert (0 < 2 ^ Z.pos p) by (apply Z.pow_pos_nonneg; lia).
    rewrite !Z.div_div by lia.
    f_equal. replace (Z.pos p~1) with (1 + Z.pos p + Z.pos p) by lia.
    rewrite !Z.pow_add_r by lia. lia.
  - rewrite IH by (apply Hnn; done). rewrite IH by done.
    assert (0 < 2 ^ Z.pos p) by (apply Z.pow_pos_nonneg; lia).
    rewrite Z.div_div by lia. f_equal.
    replace (Z.pos p~0) with (Z.pos p + Z.pos p) by lia.
    rewrite Z.pow_add_r by lia. done.
  - rewrite shr_1_m by done. reflexivity.
Qed.

Lemma shr_m_of_loc m l : shr_m (shr_record_of_loc m l) = m.
Proof. destruct l as [|[]]; reflexivity. Qed.

Lemma shr_fexp_pos m e l : 0 < m -> -1074 <= e ->
  0 < shr_m (fst (shr_fexp prec emax m e l)) /\ -1074 <= snd (shr_fexp prec emax m e l).
Proof.
  intros Hm He. unfold shr_fexp, shr.
  destruct m as [|p|p]; try lia. cbn [Zdigits2].
  pose proof (digits2_pos_bounds p) as Hd.
  set (d := Z.pos (digits2_pos p)) in *.
  destruct (SpecFloat.fexp prec emax (d + e) - e) as [|n|n] eqn:Hn; cbn [fst snd];
    rewrite ?shr_m_of_loc; try (split; lia).
  unfold SpecFloat.fexp, SpecFloat.emin, prec, emax in Hn.
  rewrite iter_shr_1_m by (rewrite shr_m_of_loc; lia).
  rewrite shr_m_of_loc. split; [|lia].
  apply Z.div_str_pos. split; [apply Z.pow_pos_nonneg; lia|].
  transitivity (2 ^ (d - 1)); [|lia].
  apply Z.pow_le_mono_r; lia.
Qed.

Lemma round_nearest_even_pos m l : 0 < m -> 0 < round_nearest_even m l.
Proof.
  intros Hm. destruct l as [|[]]; cbn [round_nearest_even]; try lia.
  destruct (Z.even m); lia.
Qed.

Lemma binary_round_aux_pos s m e l : 0 < m -> -1074 <= e ->
  signed_nonzero s (binary_round_aux prec emax s m e l).
Proof.
  intros Hm He. unfold binary_round_aux.
  destruct (shr_fexp_pos m e l Hm He) as [H1 H1'].
  destruct (shr_fexp prec emax m e l) as [mrs1 e1]. cbn [fst snd] in *.
  pose proof (round_nearest_even_pos _ (loc_of_shr_record mrs1) H1) as H2.
  destruct (shr_fexp_pos _ e1 loc_Exact H2 H1') as [H3 _].
  destruct (shr_fexp prec emax _ e1 loc_Exact) as [mrs2 e2]. cbn [fst snd] in *.
  destruct (shr_m mrs2) as [|q|q]; try lia.
  destruct (e2 <=? emax - prec); constructor.
Qed.

Lemma bounded_inv m e : bounded prec emax m e = true ->
  Z.max (Z.pos (digits2_pos m) + e - 53) (-1074) = e /\ e <= 971.
Proof.
  unfold bounded, canonical_mantissa, SpecFloat.fexp, SpecFloat.emin, prec, emax.
  intros [H1 H2]%andb_prop. apply Z.eqb_eq in H1. apply Z.leb_le in H2. lia.
Qed.

(** Halving a positive finite number other than the least subnormal. *)
Lemma SFdiv_two_pos m e :
  bounded prec emax m e = true -> (m = 1%positive -> e <> -1074) ->
  signed_nonzero false
    (SFdiv prec emax (S754_finite false m e) (S754_finite false 4503599627370496 (-51))).
Proof.
  intros [Hc He]%bounded_inv Hmin.
  pose proof (digits2_pos_bounds m) as Hd.
  unfold SFdiv, SFdiv_core_binary. cbn [Zdigits2 xorb].
  change (Z.pos (digits2_pos 4503599627370496)) with 53.
  set (d := Z.pos (digits2_pos m)) in *.
  set (e' := Z.min (SpecFloat.fexp prec emax (d + e - (53 + -51))) (e - -51)).
  assert (He' : -1074 <= e' /\ 51 <= e - -51 - e'
                /\ (e - -51 - e' = 51 -> e = -1074)).
  { unfold e', SpecFloat.fexp, SpecFloat.emin, prec, emax. lia. }
  destruct He' as (He1 & He2 & He3).
  destruct (e - -51 - e') as [|s|s] eqn:Hs; try lia.
  destruct (Z.div_eucl (Z.shiftl (Z.pos m) (Z.pos s)) 4503599627370496) as [q r] eqn:Hq.
  apply binary_round_aux_pos; [|done].
  assert (q = Z.shiftl (Z.pos m) (Z.pos s) / 4503599627370496) as ->
    by (unfold Z.div; rewrite Hq; done).
  rewrite Z.shiftl_mul_pow2 by lia.
  apply Z.div_str_pos. split; [lia|].
  destruct (Z.eq_dec (Z.pos s) 51) as [E|E].
  - rewrite E. assert (m <> 1%positive) by (intros ->; apply Hmin; [done|apply He3; done]).
    change (2 ^ 51) with 2251799813685248. lia.
  - assert (2 ^ 52 <= 2 ^ Z.pos s) by (apply Z.pow_le_mono_r; lia).
    change (2 ^ 52) with 4503599627370496 in *. nia.
Qed.

Lemma iter_xO m d : Z.pos (Pos.iter xO m d) = Z.pos m * 2 ^ Z.pos d.
Proof.
  induction d as [|d IH] using Pos.peano_ind.
  - cbn. lia.
  - rewrite Pos.iter_succ, Pos2Z.inj_xO, IH, Pos2Z.inj_succ, Z.pow_succ_r by lia. lia.
Qed.

Lemma shl_align_fst m e ez : ez <= e ->
  Z.pos (fst (shl_align m e ez)) = Z.pos m * 2 ^ (e - ez).
Proof.
  intros H. unfold shl_align.
  destruct (ez - e) as [|d|d] eqn:Hd; cbn [fst]; try lia.
  - replace (e - ez) with 0 by lia. lia.
  - rewrite iter_xO. do 2 f_equal. lia.
Qed.

Lemma shl_align_snd m e ez : -1074 <= e -> -1074 <= ez ->
  -1074 <= snd (shl_align m e ez).
Proof. unfold shl_align. destruct (ez - e); cbn [snd]; lia. Qed.

Lemma binary_round_pos s m e : -1074 <= e ->
  signed_nonzero s (binary_round prec emax s m e).
Proof.
  intros He. unfold binary_round.
  pose proof (shl_align_snd m e (SpecFloat.fexp prec emax (Z.pos (digits2_pos m) + e)) He) as H.
  destruct (shl_align m e _) as [mz ez]. cbn [snd] in H.
  apply binary_round_aux_pos; [lia|]. apply H.
  unfold SpecFloat.fexp, SpecFloat.emin, prec, emax. lia.
Qed.

(** Two canonical mantissas, brought to the smaller exponent, are ordered
    as [SFcompare] orders the pairs: by exponent first, then mantissa. *)
Lemma aligned_compare mx ex my ey :
  bounded prec emax mx ex = true -> bounded prec emax my ey = true ->
  (Z.pos mx * 2 ^ (ex - Z.min ex ey) ?= Z.pos my * 2 ^ (ey - Z.min ex ey))
  = match ex ?= ey with Eq => Pos.compare mx my | c => c end.
Proof.
  intros [Hx Hx']%bounded_inv [Hy Hy']%bounded_inv.
  pose proof (digits2_pos_bounds mx) as Hdx.
  pose proof (digits2_pos_bounds my) as Hdy.
  destruct (Z.compare_spec ex ey) as [E|L|G].
  - subst. rewrite Z.min_id, Z.sub_diag, Z.pow_0_r, !Z.mul_1_r. done.
  - rewrite Z.min_l, Z.sub_diag, Z.pow_0_r, Z.mul_1_r by lia.
    apply Z.compare_lt_iff.
    assert (Z.pos (digits2_pos my) = 53) as Ed by lia. rewrite Ed in Hdy.
    assert (Z.pos mx < 2 ^ 53).
    { eapply Z.lt_le_trans; [apply Hdx|]. apply Z.pow_le_mono_r; lia. }
    assert (2 ^ 1 <= 2 ^ (ey - ex)) by (apply Z.pow_le_mono_r; lia).
    change (2 ^ 53) with 9007199254740992 in *.
    change (2 ^ (53 - 1)) with 4503599627370496 in *.
    change (2 ^ 1) with 2 in *. nia.
  - rewrite Z.min_r, Z.sub_diag, Z.pow_0_r, Z.mul_1_r by lia.
    apply Z.compare_gt_iff.
    assert (Z.pos (digits2_pos mx) = 53) as Ed by lia. rewrite Ed in Hdx.
    assert (Z.pos my < 2 ^ 53).
    { eapply Z.lt_le_trans; [apply Hdy|]. apply Z.pow_le_mono_r; lia. }
    assert (2 ^ 1 <= 2 ^ (ex - ey)) by (apply Z.pow_le_mono_r; lia).
    change (2 ^ 53) with 9007199254740992 in *.
    change (2 ^ (53 - 1)) with 4503599627370496 in *.
    change (2 ^ 1) with 2 in *. nia.
Qed.

Lemma SFcompare_finite sx mx ex sy my ey :
  bounded prec emax mx ex = true -> bounded prec emax my ey = true ->
  SFcompare (S754_finite sx mx ex) (S754_finite sy my ey)
  = Some (aligned sx mx ex (Z.min ex ey) ?= aligned sy my ey (Z.min ex ey)).
Proof.
  intros Hx Hy. pose proof (aligned_compare mx ex my ey Hx Hy) as H.
  unfold aligned.
  assert (0 < Z.pos mx * 2 ^ (ex - Z.min ex ey))
    by (apply Z.mul_pos_pos; [lia|apply Z.pow_pos_nonneg; lia]).
  assert (0 < Z.pos my * 2 ^ (ey - Z.min ex ey))
    by (apply Z.mul_pos_pos; [lia|apply Z.pow_pos_nonneg; lia]).
  destruct sx, sy; cbn [SFcompare cond_Zopp]; f_equal.
  - rewrite Z.compare_opp, (Z.compare_antisym (Z.pos mx * _)), H.
    unfold Pos.compare. destruct (ex ?= ey); done.
  - symmetry. apply Z.compare_lt_iff. lia.
  - symmetry. apply Z.compare_gt_iff. lia.
  - rewrite H. unfold Pos.compare. destruct (ex ?= ey); done.
Qed.

Lemma binary_normalize_sign M e : -1074 <= e ->
  SFltb (S754_zero false) (binary_normalize prec emax M e false) = (0 <? M).
Proof.
  intros He. destruct M as [|p|p]; cbn [binary_normalize]; [done| |].
  - destruct (binary_round_pos false p e He); done.
  - destruct (binary_round_pos true p e He); done.
Qed.

(** [0 < x - y] exactly when [y < x]: gradual underflow keeps the sign of a
    difference. *)
Lemma SFsub_pos x y :
  valid_binary x = true -> valid_binary y = true ->
  is_nan_SF x = false -> is_nan_SF y = false ->
  SFltb (S754_zero false) (SFsub prec emax x y) = SFltb y x.
Proof.
  intros Vx Vy Nx Ny.
  destruct x as [sx|sx| |sx mx ex], y as [sy|sy| |sy my ey]; try discriminate;
    try (destruct sx; try destruct sy; reflexivity);
    try (destruct sy; reflexivity).
  cbn [valid_binary] in Vx, Vy.
  unfold SFltb at 2. rewrite SFcompare_finite by done.
  cbn [SFsub]. rewrite !shl_align_fst by lia.
  pose proof (bounded_inv _ _ Vx). pose proof (bounded_inv _ _ Vy).
  rewrite binary_normalize_sign by lia.
  rewrite (Z.min_comm ey ex). unfold aligned.
  set (X := cond_Zopp sx _). set (Y := cond_Zopp sy _).
  destruct (Z.compare_spec Y X); destruct (Z.ltb_spec 0 (X - Y)); lia || done.
Qed.

Lemma SFcompare_swap x y :
  SFcompare y x = option_map CompOpp (SFcompare x y).
Proof.
  destruct x as [sx|sx| |sx mx ex], y as [sy|sy| |sy my ey]; cbn;
    try (destruct sx; try destruct sy; reflexivity);
    try reflexivity;
    try (destruct sy; reflexivity).
  rewrite (Z.compare_antisym ex ey).
  change (Pos.compare_cont Eq my mx) with (Pos.compare_cont (CompOpp Eq) my mx).
  rewrite <- (Pos.compare_cont_antisym mx my Eq).
  destruct sx, sy, (ex ?= ey); cbn; rewrite ?CompOpp_involutive; done.
Qed.

(** [SFcompare] answers [Eq] on two numbers that both compare [Eq] to a
    third. *)
Lemma SFcompare_Eq_trans x y k :
  SFcompare x k = Some Eq -> SFcompare y k = Some Eq -> SFcompare y x = Some Eq.
Proof.
  assert (Hfin : forall s1 m1 e1 s2 m2 e2,
    SFcompare (S754_finite s1 m1 e1) (S754_finite s2 m2 e2) = Some Eq ->
    s1 = s2 /\ m1 = m2 /\ e1 = e2).
  { intros s1 m1 e1 s2 m2 e2. cbn.
    destruct s1, s2; try discriminate;
      destruct (Z.compare_spec e1 e2); try discriminate;
      destruct (Pos.compare_cont Eq m1 m2) eqn:E; try discriminate;
      apply Pos.compare_eq in E; done. }
  intros H1 H2.
  destruct x as [sx|sx| |sx mx ex], k as [sk|sk| |sk mk ek], y as [sy|sy| |sy my ey];
    try (apply Hfin in H1 as (-> & -> & ->); apply Hfin in H2 as (-> & -> & ->);
         cbn; rewrite Z.compare_refl;
         change (Pos.compare_cont Eq mk mk) with (Pos.compare mk mk);
         rewrite Pos.compare_refl; destruct sk; reflexivity);
    cbn in H1, H2 |- *;
    repeat match goal with s : bool |- _ => destruct s end;
    try discriminate; reflexivity.
Qed.

Lemma SFcompare_refl x : is_nan_SF x = false -> SFcompare x x = Some Eq.
Proof.
  destruct x as [s|s| |s m e]; try done; try (destruct s; done).
  intros _. cbn. rewrite Z.compare_refl.
  change (Pos.compare_cont Eq m m) with (Pos.compare m m).
  rewrite Pos.compare_refl. destruct s; done.
Qed.

Lemma is_nan_spec x : is_nan x = is_nan_SF (Prim2SF x).
Proof.
  unfold is_nan. rewrite FloatAxioms.eqb_spec. unfold SFeqb.
  destruct (is_nan_SF (Prim2SF x)) eqn:E.
  - destruct (Prim2SF x); done.
  - rewrite SFcompare_refl; done.
Qed.

Lemma sub_pos x y :
  is_nan x = false -> is_nan y = false -> (0 <? x - y)%float = (y <? x)%float.
Proof.
  rewrite !is_nan_spec, !ltb_spec, sub_spec. intros Nx Ny.
  apply SFsub_pos; auto using Prim2SF_valid.
Qed.

Lemma leb_ltb x y :
  is_nan x = false -> is_nan y = false -> (x <=? y)%float = negb (y <? x)%float.
Proof.
  rewrite !is_nan_spec, leb_spec, ltb_spec. unfold SFleb, SFltb.
  rewrite (SFcompare_swap (Prim2SF x) (Prim2SF y)). intros Nx Ny.
  destruct (SFcompare (Prim2SF x) (Prim2SF y)) as [[]|] eqn:E; try done.
  destruct (Prim2SF x), (Prim2SF y); done.
Qed.

Lemma eqb_same_class x y k :
  (x =? k)%float = true -> (y =? k)%float = true -> (y <? x)%float = false.
Proof.
  rewrite !FloatAxioms.eqb_spec, ltb_spec. unfold SFeqb, SFltb. intros Hx Hy.
  rewrite (SFcompare_Eq_trans (Prim2SF x) (Prim2SF y) (Prim2SF k)); [done| |].
  - destruct (SFcompare (Prim2SF x) (Prim2SF k)) as [[]|]; done.
  - destruct (SFcompare (Prim2SF y) (Prim2SF k)) as [[]|]; done.
Qed.

Lemma ltb_not_nan x y : (x <? y)%float = true -> is_nan x = false /\ is_nan y = false.
Proof.
  rewrite !is_nan_spec, ltb_spec. unfold SFltb.
  destruct (Prim2SF x), (Prim2SF y); done.
Qed.

Lemma leb_not_nan x y : (x <=? y)%float = true -> is_nan x = false /\ is_nan y = false.
Proof.
  rewrite !is_nan_spec, leb_spec. unfold SFleb.
  destruct (Prim2SF x), (Prim2SF y); done.
Qed.

Lemma eqb_zero_inv i : (i =? 0)%float = true -> i = 0%float \/ i = (-0)%float.
Proof.
  rewrite FloatAxioms.eqb_spec. change (Prim2SF 0) with (S754_zero false).
  destruct (Prim2SF i) as [[]|[]| |[] m e] eqn:E; try done; intros _;
    apply (f_equal SF2Prim) in E; rewrite SF2Prim_Prim2SF in E; auto.
Qed.

Lemma div_two_pos i :
  (0 <? i)%float = true -> i <> 0x1p-1074%float -> (0 <? i / 2)%float = true.
Proof.
  rewrite !ltb_spec, div_spec. intros Hpos Hmin.
  change (Prim2SF 0) with (S754_zero false) in *.
  change (Prim2SF 2) with (S754_finite false 4503599627370496 (-51)).
  pose proof (Prim2SF_valid i) as V.
  destruct (Prim2SF i) as [s|[]| |[] m e] eqn:E; try done.
  cbn [valid_binary] in V.
  assert (Hm : m = 1%positive -> e <> -1074).
  { intros -> ->. apply Hmin, Prim2SF_inj. rewrite E. reflexivity. }
  unfold SF64div. destruct (SFdiv_two_pos m e V Hm); done.
Qed.
Lemma SFleb_trans x y z :
  SFleb x y = true -> SFleb y z = true -> SFleb x z = true.
Proof.
  unfold SFleb.
  destruct x as [sx|sx| |sx mx ex], y as [sy|sy| |sy my ey], z as [sz|sz| |sz mz ez];
    cbn; try done;
    repeat match goal with s : bool |- _ => destruct s end; try done.
  all: destruct (Z.compare_spec ex ey), (Z.compare_spec ey ez), (Z.compare_spec ex ez);
    try done; try lia; subst;
    change (Pos.compare_cont Eq) with Pos.compare;
    destruct (Pos.compare_spec mx my), (Pos.compare_spec my mz), (Pos.compare_spec mx mz);
    cbn; try done; try lia.
Qed.

Lemma leb_trans x y z :
  (x <=? y)%float = true -> (y <=? z)%float = true -> (x <=? z)%float = true.
Proof. rewrite !leb_spec. apply SFleb_trans. Qed.

Lemma leb_antisym x y :
  (x <=? y)%float = true -> (y <=? x)%float = true -> PrimFloat.eqb x y = true.
Proof.
  rewrite !leb_spec, FloatAxioms.eqb_spec. unfold SFleb, SFeqb.
  rewrite (SFcompare_swap (Prim2SF x) (Prim2SF y)).
  by destruct (SFcompare (Prim2SF x) (Prim2SF y)) as [[]|].
Qed.

Lemma eqb_refl x : is_nan x = false -> PrimFloat.eqb x x = true.
Proof. unfold is_nan. by destruct (PrimFloat.eqb x x). Qed.

Lemma eqb_sym x y : PrimFloat.eqb x y = PrimFloat.eqb y x.
Proof.
  rewrite !FloatAxioms.eqb_spec. unfold SFeqb.
  rewrite (SFcompare_swap (Prim2SF x) (Prim2SF y)).
  by destruct (SFcompare (Prim2SF x) (Prim2SF y)) as [[]|].
Qed.

Lemma eqb_leb x y : PrimFloat.eqb x y = true -> (x <=? y)%float = true.
Proof.
  rewrite leb_spec, FloatAxioms.eqb_spec. unfold SFeqb, SFleb.
  by destruct (SFcompare (Prim2SF x) (Prim2SF y)) as [[]|].
Qed.


Lemma same_bits_eq (x y : float) :
  Binary64.same_bits (Prim2SF x) (Prim2SF y) = true -> x = y.
Proof.
  intros H. apply Prim2SF_inj.
  destruct (Prim2SF x) as [s|s| |s m e], (Prim2SF y) as [s'|s'| |s' m' e']; try done;
    cbn in H.
  - by apply Bool.eqb_prop in H as ->.
  - by apply Bool.eqb_prop in H as ->.
  - apply andb_true_iff in H as [[Hs Hm]%andb_true_iff He].
    apply Bool.eqb_prop in Hs as ->. apply Pos.eqb_eq in Hm as ->.
    by apply Z.eqb_eq in He as ->.
Qed.

End Binary64Facts.

(** ** The scheduler: [calculateNextDueDate] *)

Module SchedulerFacts.
Import Types Host App Binary64Facts.

Lemma or_default_not_nan (i : float) :
  is_nan i = false ->
  JS.or_default (Some i) 0 = if PrimFloat.eqb i 0 then 0%float else i.
Proof.
  intros Hn. unfold JS.or_default, JS.truthy. rewrite Hn, orb_false_r.
  destruct (PrimFloat.eqb i 0); reflexivity.
Qed.

(** The interval written by a review, as a function of the old one. *)
Lemma interval_after (c : Flashcard) (success : bool) (clk : Clock) :
  interval (calculateNextDueDate c success clk).1
  = Some (let i := JS.or_default (interval c) 0 in
          if success
          then JS.Math_max 1 (if PrimFloat.eqb i 0 then 1 else i * 2)
          else JS.Math_max 0 (i / 2))%float.
Proof. reflexivity. Qed.

Lemma interval_after_nonneg (c : Flashcard) (i : float) (success : bool) (clk : Clock) :
  interval c = Some i -> (0 <=? i)%float = true ->
  interval (calculateNextDueDate c success clk).1
  = Some (if success
          then JS.Math_max 1 (if PrimFloat.eqb i 0 then 1 else i * 2)
          else JS.Math_max 0 (i / 2))%float.
Proof.
  intros Hi Hge. destruct (leb_not_nan _ _ Hge) as [_ Hn].
  rewrite interval_after, Hi, (or_default_not_nan i Hn). cbn zeta.
  destruct (PrimFloat.eqb i 0) eqn:E.
  - destruct success; [reflexivity|].
    destruct (eqb_zero_inv i E) as [-> | ->]; reflexivity.
  - rewrite E. reflexivity.
Qed.

(** C1. For a card whose interval [i] satisfies [i >= 0], a successful
    review writes [Math.max(1, i === 0 ? 1 : i * 2)] and a failed review
    writes [Math.max(0, i / 2)] as the new interval. *)
Theorem review_interval (c : Flashcard) (i : float) (clk : Clock) :
  interval c = Some i -> (0 <=? i)%float = true ->
  interval (calculateNextDueDate c true clk).1
    = Some (JS.Math_max 1 (if PrimFloat.eqb i 0 then 1 else i * 2))%float
  /\ interval (calculateNextDueDate c false clk).1
    = Some (JS.Math_max 0 (i / 2))%float.
Proof.
  intros Hi Hge.
  split; [apply (interval_after_nonneg c i true clk Hi Hge)
         |apply (interval_after_nonneg c i false clk Hi Hge)].
Qed.

Lemma review_interval_witness :
  interval (calculateNextDueDate (Sample.card "a" 0 2) true Sample.frozen).1
    = Some (JS.Math_max 1 (if PrimFloat.eqb 2 0 then 1 else 2 * 2))%float
  /\ interval (calculateNextDueDate (Sample.card "a" 0 2) false Sample.frozen).1
    = Some (JS.Math_max 0 (2 / 2))%float.
Proof.
  apply (review_interval (Sample.card "a" 0 2) 2 Sample.frozen); reflexivity.
Defined.

(** The first success sets the interval to one day. *)
Lemma first_success (c : Flashcard) (i : float) (clk : Clock) :
  interval c = Some i -> PrimFloat.eqb i 0 = true ->
  interval (calculateNextDueDate c true clk).1 = Some 1%float.
Proof.
  intros Hi E. rewrite interval_after, Hi. cbn zeta.
  destruct (eqb_zero_inv i E) as [-> | ->]; reflexivity.
Qed.

(** The scenario of the specification, on a clock that stands still: a
    new card (interval 0) reviewed with success has interval 1 and is due a
    day after the review; a second success gives interval 2, due two days
    after; a failure then gives interval 1, due a day after. *)
Example three_reviews :
  let c1 := (calculateNextDueDate Sample.new_card true Sample.frozen).1 in
  let c2 := (calculateNextDueDate c1 true Sample.frozen).1 in
  let c3 := (calculateNextDueDate c2 false Sample.frozen).1 in
  (interval c1, dueDate c1) = (Some 1, Some (1700000000000 + 86400000))%float
  /\ (interval c2, dueDate c2) = (Some 2, Some (1700000000000 + 2 * 86400000))%float
  /\ (interval c3, dueDate c3) = (Some 1, Some (1700000000000 + 86400000))%float.
Proof. vm_compute. repeat split; reflexivity. Qed.



(** Everything but the three scheduling fields is carried through. *)
Lemma review_keeps_content (c : Flashcard) (success : bool) (clk : Clock) :
  let c' := (calculateNextDueDate c success clk).1 in
  id c' = id c /\ word c' = word c /\ definition c' = definition c
  /\ exampleSentence c' = exampleSentence c /\ createdAt c' = createdAt c.
Proof. repeat split; reflexivity. Qed.

(** Even with a clock that stands still the difference need not be exact:
    a due date near 1.7e12 ms has a spacing of 2^-12 ms, and the
    23rd halving of a one-day interval (2^-23 days) falls between two
    representable due dates. *)
Example rounded_due_date :
  let c := Sample.card "a" 0 0x1p-22 in
  let c' := (calculateNextDueDate c false Sample.frozen).1 in
  interval c' = Some 0x1p-23%float
  /\ lastReviewedAt c' = Some 1700000000000%float
  /\ (exists d, dueDate c' = Some d
       /\ PrimFloat.eqb (d - 1700000000000) (0x1p-23 * 86400000) = false).
Proof. vm_compute. repeat split; try reflexivity. eexists. split; reflexivity. Qed.

Lemma Math_max_zero_pos (x : float) :
  (0 <? x)%float = true -> JS.Math_max 0 x = x.
Proof.
  intros Hx. destruct (ltb_not_nan _ _ Hx) as [_ Hn].
  unfold JS.Math_max. rewrite Hn, Hx. cbn [orb].
  change (is_nan 0) with false.
  change (JS.is_neg_zero 0) with false. rewrite andb_false_r. reflexivity.
Qed.

(** C10, as stated, fails at the least positive Number: halving
    [Number.MIN_VALUE] rounds to [0], so a failed review takes a card from
    a strictly positive interval to the interval [0]. *)
Lemma min_value_halves_to_zero :
  let c := Sample.card "a" 0 JS.MIN_VALUE in
  interval c = Some JS.MIN_VALUE
  /\ (0 <? JS.MIN_VALUE)%float = true
  /\ interval (calculateNextDueDate c false Sample.frozen).1 = Some 0%float.
Proof. vm_compute. repeat split; reflexivity. Qed.

Lemma positive_nonzero (i : float) : (0 <? i)%float = true -> PrimFloat.eqb i 0 = false.
Proof.
  intros Hpos. destruct (PrimFloat.eqb i 0) eqn:E; [|reflexivity].
  destruct (eqb_zero_inv i E) as [-> | ->]; discriminate Hpos.
Qed.

Lemma interval_after_failure_pos (c : Flashcard) (i : float) (clk : Clock) :
  interval c = Some i -> (0 <? i)%float = true -> (0 <? i / 2)%float = true ->
  interval (calculateNextDueDate c false clk).1 = Some (i / 2)%float.
Proof.
  intros Hi Hpos Hhalf. destruct (ltb_not_nan _ _ Hpos) as [_ Hn].
  rewrite interval_after, Hi, (or_default_not_nan i Hn). cbn zeta.
  rewrite (positive_nonzero i Hpos), Math_max_zero_pos by exact Hhalf. reflexivity.
Qed.

(** C10, amended. For a card whose interval [i] is strictly positive and is
    not [Number.MIN_VALUE], a failed review writes [i / 2], which is
    strictly positive. *)
Theorem failed_review_stays_positive (c : Flashcard) (i : float) (clk : Clock) :
  interval c = Some i -> (0 <? i)%float = true -> i <> JS.MIN_VALUE ->
  interval (calculateNextDueDate c false clk).1 = Some (i / 2)%float
  /\ (0 <? i / 2)%float = true.
Proof.
  intros Hi Hpos Hmin.
  pose proof (div_two_pos i Hpos Hmin) as Hhalf.
  split; [apply interval_after_failure_pos; assumption|exact Hhalf].
Qed.

Lemma one_is_not_min_value : 1%float <> JS.MIN_VALUE.
Proof.
  intros H. apply (f_equal (fun x => PrimFloat.eqb x 1)) in H.
  vm_compute in H. discriminate H.
Qed.

Lemma failed_review_stays_positive_witness :
  interval (calculateNextDueDate (Sample.card "a" 0 1) false Sample.frozen).1
    = Some (1 / 2)%float
  /\ (0 <? 1 / 2)%float = true.
Proof.
  apply (failed_review_stays_positive (Sample.card "a" 0 1) 1 Sample.frozen).
  - reflexivity.
  - reflexivity.
  - exact one_is_not_min_value.
Defined.

Lemma above_one_nonzero (x : float) :
  (1 <? x)%float = true -> PrimFloat.eqb x 0 = false.
Proof.
  rewrite ltb_spec, FloatAxioms.eqb_spec.
  change (Prim2SF 1) with (S754_finite false 4503599627370496 (-52)).
  change (Prim2SF 0) with (S754_zero false).
  destruct (Prim2SF x) as [[]|[]| |[] m e]; done.
Qed.

Lemma Math_max_one_nonzero (x : float) : PrimFloat.eqb (JS.Math_max 1 x) 0 = false.
Proof.
  unfold JS.Math_max. change (is_nan 1) with false. cbn [orb].
  change (JS.is_neg_zero 1) with false. rewrite andb_false_r.
  destruct (is_nan x); [reflexivity|].
  destruct (1 <? x)%float eqn:E; [apply above_one_nonzero, E|reflexivity].
Qed.

Lemma nonneg_cases (i : float) :
  (0 <=? i)%float = true -> PrimFloat.eqb i 0 = true \/ (0 <? i)%float = true.
Proof.
  rewrite leb_spec, ltb_spec, FloatAxioms.eqb_spec.
  change (Prim2SF 0) with (S754_zero false).
  destruct (Prim2SF i) as [[]|[]| |[] m e]; cbn; auto.
Qed.

(** X5. Where the interval [0] comes from: for a card with an interval
    [i >= 0], only a failed review produces the interval [0], and only from
    an interval that was already [0] or was [Number.MIN_VALUE]. *)
Lemma zero_interval_origin (c : Flashcard) (i r : float) (success : bool) (clk : Clock) :
  interval c = Some i -> (0 <=? i)%float = true ->
  interval (calculateNextDueDate c success clk).1 = Some r ->
  PrimFloat.eqb r 0 = true ->
  success = false /\ (PrimFloat.eqb i 0 = true \/ i = JS.MIN_VALUE).
Proof.
  intros Hi Hge Hr Hz. destruct success.
  - rewrite (interval_after_nonneg c i true clk Hi Hge) in Hr. injection Hr as <-.
    rewrite Math_max_one_nonzero in Hz. discriminate Hz.
  - split; [reflexivity|].
    destruct (nonneg_cases i Hge) as [E|Hpos]; [left; exact E|right].
    destruct (PrimFloat.Leibniz.eqb i JS.MIN_VALUE) eqn:L.
    + apply FloatAxioms.Leibniz.eqb_spec, L.
    + assert (Hne : i <> JS.MIN_VALUE).
      { intros ->. vm_compute in L. discriminate L. }
      pose proof (div_two_pos i Hpos Hne) as Hhalf.
      rewrite (interval_after_failure_pos c i clk Hi Hpos Hhalf) in Hr.
      injection Hr as <-.
      destruct (ltb_not_nan _ _ Hhalf) as [_ Hn].
      pose proof (leb_ltb (i / 2) 0 Hn eq_refl) as Hle.
      rewrite Hhalf in Hle. cbn in Hle.
      rewrite leb_spec in Hle. rewrite FloatAxioms.eqb_spec in Hz.
      unfold SFleb in Hle. unfold SFeqb in Hz.
      destruct (SFcompare (Prim2SF (i / 2)) (Prim2SF 0)) as [[]|]; discriminate.
Qed.

Lemma zero_interval_origin_witness :
  false = false /\ (PrimFloat.eqb 0 0 = true \/ 0%float = JS.MIN_VALUE).
Proof.
  apply (zero_interval_origin Sample.new_card 0 0 false Sample.frozen); reflexivity.
Defined.

(** The interval [0] is reachable from a new card: one success, then 1075
    failures. *)
Example zero_again_after_1075_failures :
  let fail c := (calculateNextDueDate c false Sample.frozen).1 in
  let c1 := (calculateNextDueDate Sample.new_card true Sample.frozen).1 in
  interval c1 = Some 1%float
  /\ interval (Nat.iter 1074 fail c1) = Some JS.MIN_VALUE
  /\ interval (Nat.iter 1075 fail c1) = Some 0%float.
Proof. vm_compute. repeat split; reflexivity. Qed.


(** *** Successes in a row *)

Lemma doubled_pow2 (n : nat) :
  (n < 1023)%nat -> Schedule.doubled (Schedule.pow2 n) = Schedule.pow2 (S n).
Proof.
  intros Hn. apply same_bits_eq.
  assert (H : forallb (fun n => Binary64.same_bits
                                  (Prim2SF (Schedule.doubled (Schedule.pow2 n)))
                                  (Prim2SF (Schedule.pow2 (S n))))
                      (seq 0 1023) = true) by (vm_compute; reflexivity).
  rewrite forallb_forall in H. apply H, in_seq. lia.
Qed.

Lemma pow2_truthy (n : nat) :
  (n <= 1023)%nat -> JS.or_default (Some (Schedule.pow2 n)) 0 = Schedule.pow2 n.
Proof.
  intros Hn. apply same_bits_eq.
  assert (H : forallb (fun n => Binary64.same_bits
                                  (Prim2SF (JS.or_default (Some (Schedule.pow2 n)) 0))
                                  (Prim2SF (Schedule.pow2 n)))
                      (seq 0 1024) = true) by (vm_compute; reflexivity).
  rewrite forallb_forall in H. apply H, in_seq. lia.
Qed.

Lemma success_on_pow2 (c : Flashcard) (clk : Clock) (n : nat) :
  (n < 1023)%nat -> interval c = Some (Schedule.pow2 n) ->
  interval (calculateNextDueDate c true clk).1 = Some (Schedule.pow2 (S n)).
Proof.
  intros Hn Hi. rewrite interval_after, Hi, pow2_truthy by lia.
  cbn zeta. by rewrite <- doubled_pow2.
Qed.

Lemma reviewed_successes (n : nat) (c : Flashcard) (clk : Clock) (k : nat) :
  (k + n <= 1023)%nat -> interval c = Some (Schedule.pow2 k) ->
  interval (Schedule.reviewed (repeat true n) c clk).1 = Some (Schedule.pow2 (k + n)).
Proof.
  revert c clk k. induction n as [|n IH]; intros c clk k Hk Hi;
    cbn [repeat Schedule.reviewed].
  - by rewrite Nat.add_0_r.
  - pose proof (success_on_pow2 c clk k ltac:(lia) Hi) as Hstep.
    destruct (calculateNextDueDate c true clk) as [c' clk']. cbn [fst] in Hstep.
    rewrite (IH c' clk' (S k)) by (done || lia). f_equal. f_equal. lia.
Qed.

(** X1. After [n + 1] successful reviews in a row, a card that had no
    interval, or the interval 0, has the interval [2^n] days, for every [n]
    up to 1023 (where [2^n] is still a finite Number). *)
Theorem successes_double (c : Flashcard) (clk : Clock) (n : nat) :
  JS.or_default (interval c) 0 = 0%float -> (n <= 1023)%nat ->
  interval (Schedule.reviewed (repeat true (S n)) c clk).1 = Some (Schedule.pow2 n).
Proof.
  intros H0 Hn. cbn [repeat Schedule.reviewed].
  assert (Hfirst : interval (calculateNextDueDate c true clk).1 = Some (Schedule.pow2 0)).
  { rewrite interval_after, H0. reflexivity. }
  destruct (calculateNextDueDate c true clk) as [c' clk']. cbn [fst] in Hfirst.
  by rewrite (reviewed_successes n c' clk' 0 ltac:(lia) Hfirst).
Qed.

Lemma successes_double_witness :
  interval (Schedule.reviewed [true; true; true; true] Sample.new_card Sample.frozen).1
  = Some (Schedule.pow2 3).
Proof.
  apply (successes_double Sample.new_card Sample.frozen 3); [reflexivity|lia].
Defined.

(** Four successes on a new card: intervals 1, 2, 4 and 8 days. *)
Example four_successes :
  interval (Schedule.reviewed [true; true; true; true] Sample.new_card Sample.frozen).1
  = Some 8%float.
Proof. reflexivity. Qed.

End SchedulerFacts.

(** ** [Array.prototype.sort] with a key comparator *)

Module SortFacts.
Import Binary64Facts.

Section ByKey.
Context {A : Type}.
Variable key : A -> float.
Hypothesis key_not_nan : forall a, is_nan (key a) = false.

Let comparefn (a b : A) : float := (key a - key b)%float.
Let le (a b : A) : Prop := (key a <=? key b)%float = true.

Lemma moves_behind_iff (x y : A) :
  (0 <? comparefn x y)%float = (key y <? key x)%float.
Proof. apply sub_pos; apply key_not_nan. Qed.

Lemma ltb_leb (x y : float) : (x <? y)%float = true -> (x <=? y)%float = true.
Proof.
  rewrite ltb_spec, leb_spec. unfold SFltb, SFleb.
  destruct (SFcompare (Prim2SF x) (Prim2SF y)) as [[]|]; done.
Qed.

Lemma insert_sorted_Permutation (x : A) (l : list A) :
  Permutation (x :: l) (JS.insert_sorted comparefn x l).
Proof.
  induction l as [|y l IH]; cbn [JS.insert_sorted]; [done|].
  destruct (0 <? comparefn x y)%float; [|done].
  rewrite <- IH. apply perm_swap.
Qed.

Lemma sort_Permutation (l : list A) : Permutation l (JS.sort comparefn l).
Proof.
  induction l as [|x l IH]; cbn; [done|].
  rewrite <- insert_sorted_Permutation. by constructor.
Qed.

Lemma insert_sorted_HdRel (a x : A) (l : list A) :
  le a x -> HdRel le a l -> HdRel le a (JS.insert_sorted comparefn x l).
Proof.
  intros Hax Hal. destruct l as [|y l]; cbn [JS.insert_sorted]; [by constructor|].
  destruct (0 <? comparefn x y)%float; constructor; [|done].
  by inversion Hal.
Qed.

Lemma insert_sorted_Sorted (x : A) (l : list A) :
  Sorted le l -> Sorted le (JS.insert_sorted comparefn x l).
Proof.
  induction 1 as [|y l Hl IH Hy]; cbn [JS.insert_sorted]; [by repeat constructor|].
  rewrite moves_behind_iff.
  destruct (key y <? key x)%float eqn:E.
  - constructor; [done|]. apply insert_sorted_HdRel; [|done]. by apply ltb_leb.
  - constructor; [by constructor|]. constructor.
    unfold le. by rewrite leb_ltb, E by apply key_not_nan.
Qed.

Lemma sort_Sorted (l : list A) : Sorted le (JS.sort comparefn l).
Proof.
  induction l as [|x l IH]; cbn; [constructor|]. by apply insert_sorted_Sorted.
Qed.

Lemma Sorted_adjacent (l : list A) (i : nat) (a b : A) :
  Sorted le l -> l !! i = Some a -> l !! S i = Some b -> le a b.
Proof.
  intros Hs. revert i. induction Hs as [|y l Hl IH Hy]; intros i Ha Hb; [done|].
  destruct i as [|i]; cbn in Ha, Hb.
  - injection Ha as ->. destruct l as [|z l]; [done|].
    cbn in Hb. injection Hb as ->. by inversion Hy.
  - by apply (IH i).
Qed.

Lemma insert_sorted_filter (k : float) (x : A) (l : list A) :
  List.filter (fun c => PrimFloat.eqb (key c) k) (JS.insert_sorted comparefn x l)
  = List.filter (fun c => PrimFloat.eqb (key c) k) (x :: l).
Proof.
  induction l as [|y l IH]; cbn [JS.insert_sorted]; [done|].
  rewrite moves_behind_iff.
  destruct (key y <? key x)%float eqn:E; [|done].
  cbn [List.filter] in *. rewrite IH.
  destruct (PrimFloat.eqb (key x) k) eqn:Ex, (PrimFloat.eqb (key y) k) eqn:Ey; try done.
  by rewrite (eqb_same_class _ _ _ Ex Ey) in E.
Qed.

Lemma sort_filter (k : float) (l : list A) :
  List.filter (fun c => PrimFloat.eqb (key c) k) (JS.sort comparefn l)
  = List.filter (fun c => PrimFloat.eqb (key c) k) l.
Proof.
  induction l as [|x l IH]; cbn [JS.sort foldr]; [done|].
  fold (JS.sort comparefn l). rewrite insert_sorted_filter.
  cbn [List.filter]. by rewrite IH.
Qed.

(** *** The result of a stable sort is determined

    Whatever algorithm an engine uses, a rearrangement that is in key order
    and keeps the order of the elements of every key is the one [JS.sort]
    computes. *)

Lemma Sorted_head_least (a : A) (l : list A) :
  Sorted le (a :: l) -> forall b, b ∈ l -> le a b.
Proof.
  intros Hs. apply Sorted_StronglySorted in Hs.
  - apply StronglySorted_inv in Hs as [_ Hall]. intros b Hb.
    rewrite Forall_forall in Hall. by apply Hall.
  - intros x y z. apply leb_trans.
Qed.

Lemma filter_own_key (a : A) (l : list A) :
  a ∈ l -> a ∈ List.filter (fun c => PrimFloat.eqb (key c) (key a)) l.
Proof.
  intros Ha. apply list_elem_of_In, filter_In. split; [by apply list_elem_of_In|].
  apply eqb_refl, key_not_nan.
Qed.

Lemma filter_elem (k : float) (a : A) (l : list A) :
  a ∈ List.filter (fun c => PrimFloat.eqb (key c) k) l -> a ∈ l.
Proof. intros [H _]%list_elem_of_In%filter_In. by apply list_elem_of_In. Qed.

Lemma eqb_class_iff (x y k : float) :
  PrimFloat.eqb x y = true -> PrimFloat.eqb x k = PrimFloat.eqb y k.
Proof.
  intros Hxy.
  destruct (PrimFloat.eqb x k) eqn:Hx, (PrimFloat.eqb y k) eqn:Hy; try done.
  - assert (PrimFloat.eqb k y = true) as Hky.
    { apply leb_antisym.
      + apply leb_trans with x; [rewrite eqb_sym in Hx|]; by apply eqb_leb.
      + apply leb_trans with x; [rewrite eqb_sym in Hxy|]; by apply eqb_leb. }
    by rewrite eqb_sym, Hky in Hy.
  - assert (PrimFloat.eqb x k = true) as Hxk; [|by rewrite Hxk in Hx].
    apply leb_antisym.
    + apply leb_trans with y; by apply eqb_leb.
    + apply leb_trans with y; [rewrite eqb_sym in Hy|rewrite eqb_sym in Hxy];
        by apply eqb_leb.
Qed.

Lemma stable_sorted_unique (l1 l2 : list A) :
  Sorted le l1 -> Sorted le l2 ->
  (forall k, List.filter (fun c => PrimFloat.eqb (key c) k) l1
             = List.filter (fun c => PrimFloat.eqb (key c) k) l2) ->
  l1 = l2.
Proof.
  revert l2. induction l1 as [|a l1 IH]; intros l2 Hs1 Hs2 Hf.
  - destruct l2 as [|b l2]; [done|].
    pose proof (filter_own_key b (b :: l2) ltac:(left)) as Hb.
    rewrite <- Hf in Hb. by apply elem_of_nil in Hb.
  - destruct l2 as [|b l2].
    { pose proof (filter_own_key a (a :: l1) ltac:(left)) as Ha.
      rewrite Hf in Ha. by apply elem_of_nil in Ha. }
    assert (Hab : PrimFloat.eqb (key a) (key b) = true).
    { apply leb_antisym.
      - pose proof (filter_own_key b (b :: l2) ltac:(left)) as Hb.
        rewrite <- Hf in Hb. apply filter_elem in Hb.
        apply elem_of_cons in Hb as [->|Hb];
          [apply eqb_leb, eqb_refl, key_not_nan|by apply (Sorted_head_least a l1)].
      - pose proof (filter_own_key a (a :: l1) ltac:(left)) as Ha.
        rewrite Hf in Ha. apply filter_elem in Ha.
        apply elem_of_cons in Ha as [->|Ha];
          [apply eqb_leb, eqb_refl, key_not_nan|by apply (Sorted_head_least b l2)]. }
    assert (a = b) as ->.
    { pose proof (Hf (key b)) as H. cbn [List.filter] in H.
      rewrite Hab, (eqb_refl (key b)) in H by apply key_not_nan. by injection H. }
    f_equal. apply IH; [by apply Sorted_inv in Hs1 as []|by apply Sorted_inv in Hs2 as []|].
    intros k. pose proof (Hf k) as H. cbn [List.filter] in H.
    destruct (PrimFloat.eqb (key b) k); [by injection H|done].
Qed.

Lemma adjacent_Sorted (l : list A) :
  (forall i a b, l !! i = Some a -> l !! S i = Some b -> le a b) -> Sorted le l.
Proof.
  induction l as [|a l IH]; intros H; [constructor|].
  constructor.
  - apply IH. intros i x y Hx Hy. by apply (H (S i)).
  - destruct l as [|b l]; constructor. by apply (H 0%nat).
Qed.

Lemma sort_determined (l l' : list A) :
  (forall i a b, l' !! i = Some a -> l' !! S i = Some b -> le a b) ->
  (forall k, List.filter (fun c => PrimFloat.eqb (key c) k) l'
             = List.filter (fun c => PrimFloat.eqb (key c) k) l) ->
  l' = JS.sort comparefn l.
Proof.
  intros Hord Hstable. apply stable_sorted_unique.
  - by apply adjacent_Sorted.
  - apply sort_Sorted.
  - intros k. by rewrite sort_filter.
Qed.

End ByKey.
End SortFacts.

(** ** The deck: ordering, review, removal and the cursor *)

Module DeckFacts.
Import Types Host App Deck Binary64Facts SortFacts.

Lemma due_not_nan (c : Flashcard) : is_nan (due c) = false.
Proof.
  unfold due, JS.or_default, JS.truthy.
  destruct (dueDate c) as [v|]; [|reflexivity].
  destruct (is_nan v) eqn:E; [|by destruct (PrimFloat.eqb v 0)].
  by rewrite orb_true_r.
Qed.

Lemma sort_ordered (cards : list Flashcard) : ordered_by_due (JS.sort byDueDate cards).
Proof.
  intros i a b Ha Hb.
  exact (Sorted_adjacent due _ i a b (sort_Sorted due due_not_nan cards) Ha Hb).
Qed.

Lemma sort_stable (cards : list Flashcard) :
  stable_rearrangement cards (JS.sort byDueDate cards).
Proof.
  split; [apply (sort_Permutation due)|].
  intros k. apply (sort_filter due due_not_nan).
Qed.

Lemma sort_ordered_stable (cards : list Flashcard) :
  ordered_by_due (JS.sort byDueDate cards)
  /\ stable_rearrangement cards (JS.sort byDueDate cards).
Proof. split; [apply sort_ordered|apply sort_stable]. Qed.

Section WithService.
Context {R : Type}.
Variable svc : FlashcardService R.

Lemma fetch_succeeded (s : Sys R) (listing : list Flashcard) :
  succeeded (getFlashcards svc (remote s)).1 listing ->
  flashcards (ui (fetchFlashcards svc s)) = JS.sort byDueDate listing.
Proof.
  unfold fetchFlashcards.
  destruct (getFlashcards svc (remote s)) as [response rem].
  intros [Hs Hd]. cbn [fst] in Hs, Hd. by rewrite Hs, Hd.
Qed.

Lemma add_succeeded (s : Sys R) (draft : Draft) (created : Flashcard) :
  succeeded (addFlashcard svc draft (remote s)).1 created ->
  flashcards (ui (handleAddFlashcard svc draft s))
  = JS.sort byDueDate (flashcards (ui s) ++ [created]).
Proof.
  unfold handleAddFlashcard.
  destruct (addFlashcard svc draft (remote s)) as [response rem].
  intros [Hs Hd]. cbn [fst] in Hs, Hd. by rewrite Hs, Hd.
Qed.

Lemma review_succeeded (s : Sys R) (id : string) (success : bool)
    (old stored : Flashcard) :
  List.find (fun f => String.eqb (Types.id f) id) (flashcards (ui s)) = Some old ->
  succeeded
    (updateFlashcard svc (calculateNextDueDate old success (clock s)).1 (remote s)).1
    stored ->
  flashcards (ui (handleReviewFlashcard svc (render (ui s)) id success s))
  = JS.sort byDueDate
      (List.map (fun f => if String.eqb (Types.id f) id then stored else f)
                (flashcards (ui s))).
Proof.
  intros Hfind. unfold handleReviewFlashcard. cbn [render r_flashcards]. rewrite Hfind.
  destruct (calculateNextDueDate old success (clock s)) as [updated clk]. cbn [fst].
  destruct (updateFlashcard svc updated (remote s)) as [response rem].
  intros [Hs Hd]. cbn [fst] in Hs, Hd. rewrite Hs, Hd.
  by destruct (r_length _ >? 1).
Qed.

End WithService.

(** C4. After [fetchFlashcards] replaces the deck by a listing, and after
    [handleAddFlashcard] or [handleReviewFlashcard] puts a card into it, the
    deck is in non-decreasing order of [dueDate || 0], and cards with equal
    due dates keep the order they had in the array that was sorted. *)
Theorem deck_sorted_and_stable {R : Type} (svc : FlashcardService R) (s : Sys R) :
  (forall listing : list Flashcard,
     succeeded (getFlashcards svc (remote s)).1 listing ->
     let deck := flashcards (ui (fetchFlashcards svc s)) in
     ordered_by_due deck /\ stable_rearrangement listing deck)
  /\ (forall (draft : Draft) (created : Flashcard),
     succeeded (addFlashcard svc draft (remote s)).1 created ->
     let deck := flashcards (ui (handleAddFlashcard svc draft s)) in
     ordered_by_due deck /\ stable_rearrangement (flashcards (ui s) ++ [created]) deck)
  /\ (forall (id : string) (success : bool) (old stored : Flashcard),
     List.find (fun f => String.eqb (Types.id f) id) (flashcards (ui s)) = Some old ->
     succeeded
       (updateFlashcard svc (calculateNextDueDate old success (clock s)).1 (remote s)).1
       stored ->
     let deck := flashcards (ui (handleReviewFlashcard svc (render (ui s)) id success s)) in
     ordered_by_due deck
     /\ stable_rearrangement
          (List.map (fun f => if String.eqb (Types.id f) id then stored else f)
                    (flashcards (ui s)))
          deck).
Proof.
  split; [|split].
  - intros listing H. cbn zeta. rewrite (fetch_succeeded svc s listing H).
    apply sort_ordered_stable.
  - intros draft created H. cbn zeta. rewrite (add_succeeded svc s draft created H).
    apply sort_ordered_stable.
  - intros id success old stored Hfind H. cbn zeta.
    rewrite (review_succeeded svc s id success old stored Hfind H).
    apply sort_ordered_stable.
Qed.

(** X4. The deck after a sort does not depend on how the engine sorts: an
    arrangement of [cards] that is in non-decreasing order of [dueDate || 0]
    and keeps the order of the cards of every due date is the one computed
    here. *)
Lemma deck_order_determined (cards deck : list Flashcard) :
  ordered_by_due deck -> stable_rearrangement cards deck ->
  deck = JS.sort byDueDate cards.
Proof.
  intros Hord [_ Hstable]. by apply (sort_determined due due_not_nan).
Qed.

Lemma deck_order_determined_witness :
  [Sample.card_c; Sample.card_a] = JS.sort byDueDate [Sample.card_a; Sample.card_c].
Proof.
  apply deck_order_determined.
  - intros [|[|i]] a b Ha Hb; try discriminate.
    injection Ha as <-. injection Hb as <-. reflexivity.
  - split; [apply perm_swap|].
    intros k. cbn [List.filter].
    destruct (PrimFloat.eqb (due Sample.card_c) k) eqn:Ec,
             (PrimFloat.eqb (due Sample.card_a) k) eqn:Ea; try reflexivity.
    pose proof (eqb_same_class _ _ _ Ea Ec) as H. vm_compute in H. discriminate H.
Defined.

(** A listing of [c], [a], [b] is shown as [c], [b], [a]: [b] and [c] are
    due together, before [a], and [c] was listed first. *)
Example equal_due_dates_keep_listing_order :
  JS.sort byDueDate [Sample.card_c; Sample.card_a; Sample.card_b]
  = [Sample.card_c; Sample.card_b; Sample.card_a].
Proof. reflexivity. Qed.

Lemma deck_sorted_and_stable_witness :
  let s := Sample.screen [Sample.card_b; Sample.card_a] (JS.Idx 0) in
  let listing := [Sample.card_c; Sample.card_a; Sample.card_b] in
  let svc := Sample.acknowledging listing in
  let draft := mkDraft "terse" "brief" None None in
  let created := mkFlashcard "n" "terse" "brief" None 2500 None (Some 2500%float)
                             (Some 0%float) in
  let stored := (calculateNextDueDate Sample.card_a true Sample.frozen).1 in
  (ordered_by_due (flashcards (ui (fetchFlashcards svc s)))
   /\ stable_rearrangement listing (flashcards (ui (fetchFlashcards svc s))))
  /\ (ordered_by_due (flashcards (ui (handleAddFlashcard svc draft s)))
      /\ stable_rearrangement ([Sample.card_b; Sample.card_a] ++ [created])
           (flashcards (ui (handleAddFlashcard svc draft s))))
  /\ (ordered_by_due
        (flashcards (ui (handleReviewFlashcard svc (render (ui s)) "a" true s)))
      /\ stable_rearrangement
           (List.map (fun f => if String.eqb (Types.id f) "a" then stored else f)
                     [Sample.card_b; Sample.card_a])
           (flashcards (ui (handleReviewFlashcard svc (render (ui s)) "a" true s)))).
Proof.
  cbn zeta.
  destruct (deck_sorted_and_stable
              (Sample.acknowledging [Sample.card_c; Sample.card_a; Sample.card_b])
              (Sample.screen [Sample.card_b; Sample.card_a] (JS.Idx 0)))
    as (Hfetch & Hadd & Hreview).
  split; [|split].
  - apply Hfetch. split; reflexivity.
  - apply (Hadd (mkDraft "terse" "brief" None None)). split; reflexivity.
  - apply (Hreview "a" true Sample.card_a); [reflexivity|split; reflexivity].
Defined.

(** The listing fetched when the application starts replaces the empty
    deck, sorted, and ends the loading state; the cursor stays at 0. *)
Example load_on_mount :
  let listing := [Sample.card_c; Sample.card_a; Sample.card_b] in
  let s := fetchFlashcards (Sample.acknowledging listing)
                           (mkSys initial Sample.frozen tt) in
  ui s = mkState [Sample.card_c; Sample.card_b; Sample.card_a] false None (JS.Idx 0) false
  /\ currentFlashcard (ui s) = Some Sample.card_c.
Proof. vm_compute. split; reflexivity. Qed.

(** *** Failed calls *)

(** X2. A listing or a creation that fails leaves the cards and the cursor
    as they were and shows an error message. *)
Theorem failed_call_keeps_deck {R : Type} (svc : FlashcardService R) (s : Sys R)
    (draft : Draft) :
  (failed (getFlashcards svc (remote s)).1 ->
     flashcards (ui (fetchFlashcards svc s)) = flashcards (ui s)
     /\ currentFlashcardIndex (ui (fetchFlashcards svc s)) = currentFlashcardIndex (ui s)
     /\ is_Some (error (ui (fetchFlashcards svc s))))
  /\ (failed (addFlashcard svc draft (remote s)).1 ->
     flashcards (ui (handleAddFlashcard svc draft s)) = flashcards (ui s)
     /\ currentFlashcardIndex (ui (handleAddFlashcard svc draft s))
        = currentFlashcardIndex (ui s)
     /\ is_Some (error (ui (handleAddFlashcard svc draft s)))).
Proof.
  split.
  - unfold fetchFlashcards. destruct (getFlashcards svc (remote s)) as [response rem].
    cbn [fst]. intros [Hs|Hd].
    + rewrite Hs. by repeat split.
    + rewrite Hd. destruct (success response); by repeat split.
  - unfold handleAddFlashcard. destruct (addFlashcard svc draft (remote s)) as [response rem].
    cbn [fst]. intros [Hs|Hd].
    + rewrite Hs. by repeat split.
    + rewrite Hd. destruct (success response); by repeat split.
Qed.

Lemma failed_call_keeps_deck_witness :
  let s := Sample.screen [Sample.card_b; Sample.card_a] (JS.Idx 1) in
  let draft := mkDraft "terse" "brief" None None in
  flashcards (ui (fetchFlashcards Sample.unreachable s)) = [Sample.card_b; Sample.card_a]
  /\ currentFlashcardIndex (ui (fetchFlashcards Sample.unreachable s)) = JS.Idx 1
  /\ is_Some (error (ui (fetchFlashcards Sample.unreachable s))).
Proof.
  cbn zeta.
  apply (proj1 (failed_call_keeps_deck Sample.unreachable
                  (Sample.screen [Sample.card_b; Sample.card_a] (JS.Idx 1))
                  (mkDraft "terse" "brief" None None))).
  left. reflexivity.
Defined.

(** *** Review *)

Section Review.
Context {R : Type}.
Variable svc : FlashcardService R.

Lemma review_absent (s : Sys R) (r : Render) (id : string) (success : bool) :
  List.find (fun f => String.eqb (Types.id f) id) (r_flashcards r) = None ->
  handleReviewFlashcard svc r id success s = s.
Proof. unfold handleReviewFlashcard. by intros ->. Qed.

Lemma review_failed (s : Sys R) (r : Render) (id : string) (success : bool)
    (old : Flashcard) :
  List.find (fun f => String.eqb (Types.id f) id) (r_flashcards r) = Some old ->
  failed (updateFlashcard svc (calculateNextDueDate old success (clock s)).1 (remote s)).1 ->
  let s' := handleReviewFlashcard svc r id success s in
  flashcards (ui s') = flashcards (ui s)
  /\ currentFlashcardIndex (ui s') = currentFlashcardIndex (ui s).
Proof.
  intros Hfind. unfold handleReviewFlashcard. rewrite Hfind.
  destruct (calculateNextDueDate old success (clock s)) as [updated clk]. cbn [fst].
  destruct (updateFlashcard svc updated (remote s)) as [response rem]. cbn [fst].
  intros [Hs|Hd]; cbn zeta.
  - by rewrite Hs.
  - rewrite Hd. by destruct (Types.success response).
Qed.

End Review.

(** C5. A review of an id that is not in the deck changes nothing at all
    (no state, no clock reading, no store call); a review whose store update
    fails leaves the deck and the cursor as they were, so that no card has
    its interval, due date or review time overwritten. *)
Theorem review_is_atomic {R : Type} (svc : FlashcardService R) (s : Sys R)
    (id : string) (success : bool) :
  let found := List.find (fun f => String.eqb (Types.id f) id) (flashcards (ui s)) in
  let s' := handleReviewFlashcard svc (render (ui s)) id success s in
  (found = None -> s' = s)
  /\ (forall old : Flashcard,
        found = Some old ->
        failed (updateFlashcard svc (calculateNextDueDate old success (clock s)).1
                                (remote s)).1 ->
        flashcards (ui s') = flashcards (ui s)
        /\ currentFlashcardIndex (ui s') = currentFlashcardIndex (ui s)).
Proof.
  cbn zeta. split.
  - apply (review_absent svc s (render (ui s))).
  - intros old Hfind Hfail.
    by apply (review_failed svc s (render (ui s)) id success old).
Qed.

Lemma review_is_atomic_witness :
  let s := Sample.screen [Sample.card_b; Sample.card_a] (JS.Idx 1) in
  handleReviewFlashcard Sample.unreachable (render (ui s)) "z" true s = s
  /\ flashcards (ui (handleReviewFlashcard Sample.unreachable (render (ui s)) "a" true s))
     = [Sample.card_b; Sample.card_a]
  /\ currentFlashcardIndex
       (ui (handleReviewFlashcard Sample.unreachable (render (ui s)) "a" true s))
     = JS.Idx 1.
Proof.
  cbn zeta.
  pose (s := Sample.screen [Sample.card_b; Sample.card_a] (JS.Idx 1)).
  split.
  - apply (proj1 (review_is_atomic Sample.unreachable s "z" true)). reflexivity.
  - apply (proj2 (review_is_atomic Sample.unreachable s "a" true) Sample.card_a).
    + reflexivity.
    + left. reflexivity.
Defined.

(** A failed update still consumes two clock readings and replaces the
    error message; a successful one on a deck of two advances the cursor. *)
Example review_failure_and_success :
  let s := Sample.screen [Sample.card_b; Sample.card_a] (JS.Idx 0) in
  let failed := handleReviewFlashcard Sample.unreachable (render (ui s)) "b" true s in
  let passed := handleReviewFlashcard (Sample.acknowledging []) (render (ui s)) "b" true s in
  error (ui failed) = Some "Failed to fetch"
  /\ reads (clock failed) = 2%nat
  /\ List.map Types.id (flashcards (ui passed)) = ["a"; "b"]
  /\ currentFlashcardIndex (ui passed) = JS.Idx 1.
Proof. vm_compute. repeat split; reflexivity. Qed.

(** *** Removal *)




Section Removal.
Context {R : Type}.
Variable svc : FlashcardService R.

Lemma delete_deck (s : Sys R) (r : Render) (id : string) :
  let deck' := flashcards (ui (handleDeleteFlashcard svc r id s)) in
  deck' = flashcards (ui s)
  \/ deck' = List.filter (fun f => negb (String.eqb (Types.id f) id)) (flashcards (ui s)).
Proof.
  unfold handleDeleteFlashcard.
  destruct (deleteFlashcard svc id (remote s)) as [response rem].
  destruct (success response); [right|by left].
  by destruct (JS.geb _ _ && _).
Qed.



End Removal.



(** The scenario of the specification: three cards, cursor at 0; removing
    the card under the cursor leaves the cursor at 0, on the card that was
    second; removing the last remaining card leaves an empty deck and no
    current card. *)
Example remove_at_cursor_scenario :
  let svc := Sample.acknowledging [] in
  let s3 := Sample.screen [Sample.card_b; Sample.card_c; Sample.card_a] (JS.Idx 0) in
  let s2 := handleDeleteFlashcard svc (render (ui s3)) "b" s3 in
  let s1 := handleDeleteFlashcard svc (render (ui s2)) "c" s2 in
  let s0 := handleDeleteFlashcard svc (render (ui s1)) "a" s1 in
  (currentFlashcardIndex (ui s2) = JS.Idx 0
   /\ currentFlashcard (ui s2) = Some Sample.card_c)
  /\ (flashcards (ui s0) = [] /\ currentFlashcardIndex (ui s0) = JS.Idx 0
      /\ currentFlashcard (ui s0) = None).
Proof. vm_compute. repeat split; reflexivity. Qed.

(** Without distinct ids the cursor can be left outside the deck: this is
    why the data model's uniqueness of [id] is assumed above. *)
Example duplicate_ids_strand_cursor :
  let s := Sample.screen [Sample.card_b; Sample.card_b; Sample.card_a] (JS.Idx 1) in
  let s' := handleDeleteFlashcard (Sample.acknowledging []) (render (ui s)) "b" s in
  flashcards (ui s') = [Sample.card_a]
  /\ currentFlashcardIndex (ui s') = JS.Idx 1
  /\ currentFlashcard (ui s') = None.
Proof. vm_compute. repeat split; reflexivity. Qed.

(** *** The cursor *)







(** With one card, or none, a click on either button changes nothing; with
    three cards "next" at the last card returns to the first and "previous"
    at the first goes to the last. *)
Example navigation_scenario :
  let one := mkState [Sample.card_a] false None (JS.Idx 0) false in
  let none := mkState [] false None (JS.Idx 0) false in
  let three c := mkState [Sample.card_b; Sample.card_c; Sample.card_a] false None
                         (JS.Idx c) false in
  clickNext one = one /\ clickPrevious one = one
  /\ clickNext none = none /\ clickPrevious none = none
  /\ clickNext (three 2) = three 0 /\ clickPrevious (three 0) = three 2.
Proof. vm_compute. repeat split; reflexivity. Qed.


(** *** Invariants of the deck *)

Lemma add_failed {R : Type} (svc : FlashcardService R) (s : Sys R) (draft : Draft) :
  failed (addFlashcard svc draft (remote s)).1 ->
  flashcards (ui (handleAddFlashcard svc draft s)) = flashcards (ui s)
  /\ currentFlashcardIndex (ui (handleAddFlashcard svc draft s))
     = currentFlashcardIndex (ui s)
  /\ is_Some (error (ui (handleAddFlashcard svc draft s))).
Proof.
  unfold handleAddFlashcard. destruct (addFlashcard svc draft (remote s)) as [response rem].
  cbn [fst]. intros [Hs|Hd].
  - rewrite Hs. by repeat split.
  - rewrite Hd. destruct (success response); by repeat split.
Qed.

Lemma ordered_Sorted (deck : list Flashcard) :
  ordered_by_due deck <-> Sorted (fun a b => (due a <=? due b)%float = true) deck.
Proof.
  split.
  - apply (adjacent_Sorted due).
  - intros Hs i a b. by apply (Sorted_adjacent due).
Qed.

Lemma filter_ordered (keep : Flashcard -> bool) (deck : list Flashcard) :
  ordered_by_due deck -> ordered_by_due (List.filter keep deck).
Proof.
  rewrite !ordered_Sorted. intros Hs.
  apply StronglySorted_Sorted. apply Sorted_StronglySorted in Hs;
    [|intros x y z; apply leb_trans].
  induction Hs as [|c deck Hs IH Hall]; cbn [List.filter]; [constructor|].
  destruct (keep c); [|done]. constructor; [done|].
  rewrite Forall_forall in *. intros x [Hx _]%list_elem_of_In%filter_In.
  by apply Hall, list_elem_of_In.
Qed.

(** X6. [handleDeleteFlashcard] leaves a deck that was in the order of due
    dates in that order, whatever the store answers and whatever render the
    handler was made in; when the store call succeeds, the deck loses every
    card of the given id and no other card. *)
Theorem remove_keeps_order {R : Type} (svc : FlashcardService R) (s : Sys R)
    (r : Render) (id : string) :
  ordered_by_due (flashcards (ui s)) ->
  let s' := handleDeleteFlashcard svc r id s in
  ordered_by_due (flashcards (ui s'))
  /\ (success (deleteFlashcard svc id (remote s)).1 = true ->
      forall c, c ∈ flashcards (ui s') <-> c ∈ flashcards (ui s) /\ Types.id c <> id).
Proof.
  intros Hord. cbn zeta. unfold handleDeleteFlashcard.
  destruct (deleteFlashcard svc id (remote s)) as [response rem]. cbn [fst].
  destruct (success response).
  - assert (Hdeck : forall st : State,
              flashcards (if JS.geb (r_currentFlashcardIndex r) (r_length r - 1)
                             && (r_length r >? 1)
                          then setCurrentFlashcardIndex (fun _ => JS.Idx 0) st else st)
              = flashcards st) by (intros st; by destruct (_ && _)).
    cbn [ui]. rewrite Hdeck. cbn [setFlashcards setError flashcards]. split.
    + by apply filter_ordered.
    + intros _ c. rewrite !list_elem_of_In, filter_In.
      destruct (String.eqb_spec (Types.id c) id); cbn [negb]; split; try by intros [? ?].
  - by split.
Qed.

Lemma remove_keeps_order_witness :
  let s := Sample.screen [Sample.card_b; Sample.card_c; Sample.card_a] (JS.Idx 0) in
  let s' := handleDeleteFlashcard (Sample.acknowledging []) (render (ui s)) "c" s in
  ordered_by_due (flashcards (ui s'))
  /\ (success (deleteFlashcard (Sample.acknowledging []) "c" (remote s)).1 = true ->
      forall c, c ∈ flashcards (ui s') <-> c ∈ flashcards (ui s) /\ Types.id c <> "c").
Proof.
  cbn zeta.
  apply (remove_keeps_order (Sample.acknowledging [])
           (Sample.screen [Sample.card_b; Sample.card_c; Sample.card_a] (JS.Idx 0))).
  intros [|[|[|i]]] a b Ha Hb; try discriminate.
  - injection Ha as <-. injection Hb as <-. reflexivity.
  - injection Ha as <-. injection Hb as <-. reflexivity.
Defined.



(** The cursor follows positions, not cards: after a successful review of
    the first of three cards, the reviewed card moves to the end, the cursor
    moves to position 1, and the card shown is the one that was third. *)
Example review_skips_a_card :
  let s := Sample.screen [Sample.card_b; Sample.card_c; Sample.card_a] (JS.Idx 0) in
  let s' := handleReviewFlashcard (Sample.acknowledging []) (render (ui s)) "b" true s in
  List.map Types.id (flashcards (ui s')) = ["c"; "a"; "b"]
  /\ currentFlashcardIndex (ui s') = JS.Idx 1
  /\ (Types.id <$> currentFlashcard (ui s')) = Some "a".
Proof. vm_compute. repeat split; reflexivity. Qed.


(** *** Distinct ids, and the two directions of the cursor *)

Lemma map_id_replace (id : string) (d : Flashcard) (deck : list Flashcard) :
  Types.id d = id ->
  List.map Types.id (List.map (fun f => if String.eqb (Types.id f) id then d else f) deck)
  = List.map Types.id deck.
Proof.
  intros Hd. induction deck as [|c deck IH]; cbn [List.map]; [done|].
  rewrite IH. f_equal. destruct (String.eqb_spec (Types.id c) id); congruence.
Qed.

Lemma NoDup_filter_ids (keep : Flashcard -> bool) (deck : list Flashcard) :
  NoDup (List.map Types.id deck) -> NoDup (List.map Types.id (List.filter keep deck)).
Proof.
  induction deck as [|c deck IH]; cbn [List.map List.filter]; [done|].
  intros [Hc Hdeck]%NoDup_cons. destruct (keep c); [|by apply IH].
  cbn [List.map]. apply NoDup_cons. split; [|by apply IH].
  intros (x & Hx & [Hin _]%list_elem_of_In%filter_In)%list_elem_of_fmap.
  apply Hc, list_elem_of_fmap. exists x. split; [done|]. by apply list_elem_of_In.
Qed.

(** X23. Cards with distinct ids keep distinct ids: through a removal, through a
    review when the card the store returns has the id that was reviewed (as
    the worker's PUT route ensures), and through an addition when the card
    the store returns has an id that is not in the deck. *)
Theorem ids_stay_distinct {R : Type} (svc : FlashcardService R) (s : Sys R) (r : Render)
    (id : string) (success : bool) (draft : Draft) :
  NoDup (List.map Types.id (flashcards (ui s))) ->
  NoDup (List.map Types.id (flashcards (ui (handleDeleteFlashcard svc r id s))))
  /\ ((forall old stored,
         List.find (fun f => String.eqb (Types.id f) id) (r_flashcards r) = Some old ->
         succeeded (updateFlashcard svc (calculateNextDueDate old success (clock s)).1
                                    (remote s)).1 stored ->
         Types.id stored = id) ->
      NoDup (List.map Types.id (flashcards (ui (handleReviewFlashcard svc r id success s)))))
  /\ ((forall created,
         succeeded (addFlashcard svc draft (remote s)).1 created ->
         Types.id created ∉ List.map Types.id (flashcards (ui s))) ->
      NoDup (List.map Types.id (flashcards (ui (handleAddFlashcard svc draft s))))).
Proof.
  intros Hnd. split; [|split].
  - destruct (delete_deck svc s r id) as [-> | ->]; [done|]. by apply NoDup_filter_ids.
  - intros Hid. unfold handleReviewFlashcard.
    destruct (List.find _ _) as [old|] eqn:Hfind; [|done].
    specialize (Hid old). 
    destruct (calculateNextDueDate old success (clock s)) as [updated clk]. cbn [fst] in Hid.
    destruct (updateFlashcard svc updated (remote s)) as [response rem]. cbn [fst] in Hid.
    destruct (Types.success response) eqn:Hs, (data response) as [d|] eqn:Hd; try done.
    specialize (Hid d eq_refl (conj Hs Hd)).
    assert (Hdeck : flashcards (ui (mkSys
              (if r_length r >? 1
               then setCurrentFlashcardIndex
                      (fun prevIndex => JS.rem (JS.plus prevIndex 1) (r_length r))
                      (setFlashcards
                         (fun prev => JS.sort byDueDate
                            (List.map (fun f => if String.eqb (Types.id f) id then d else f) prev))
                         (setError None (ui s)))
               else setFlashcards
                      (fun prev => JS.sort byDueDate
                         (List.map (fun f => if String.eqb (Types.id f) id then d else f) prev))
                      (setError None (ui s))) clk rem))
            = JS.sort byDueDate
                (List.map (fun f => if String.eqb (Types.id f) id then d else f)
                          (flashcards (ui s)))) by (by destruct (r_length r >? 1)).
    rewrite Hdeck.
    rewrite <- (Permutation_map Types.id (sort_Permutation due _)).
    by rewrite map_id_replace.
  - intros Hfresh. unfold handleAddFlashcard.
    destruct (addFlashcard svc draft (remote s)) as [response rem]. cbn [fst] in Hfresh.
    destruct (Types.success response) eqn:Hs, (data response) as [d|] eqn:Hd; try done.
    specialize (Hfresh d (conj Hs Hd)). cbn [ui setFlashcards setError flashcards].
    rewrite <- (Permutation_map Types.id (sort_Permutation due _)).
    rewrite map_app. cbn [List.map]. apply NoDup_app. split; [done|]. split.
    + intros x Hx Hx'. apply list_elem_of_singleton in Hx' as ->. done.
    + apply NoDup_singleton.
Qed.

Lemma mod_succ (c n : Z) :
  0 <= c < n -> (c + 1) mod n = if decide (c + 1 = n) then 0 else c + 1.
Proof.
  intros Hc. destruct (decide _) as [<-|?]; [by rewrite Z_mod_same_full|].
  apply Z.mod_small. lia.
Qed.

Lemma mod_pred (c n : Z) :
  0 <= c < n -> (c - 1) mod n = if decide (c = 0) then n - 1 else c - 1.
Proof.
  intros Hc. destruct (decide _) as [->|?]; [|apply Z.mod_small; lia].
  symmetry. apply (Z.mod_unique_pos _ _ (-1)); lia.
Qed.

(** X24. With the cursor on a card, [handlePreviousFlashcard] after
    [handleNextFlashcard] leaves the state as it was, and so does
    [handleNextFlashcard] after [handlePreviousFlashcard]. *)
Theorem previous_undoes_next (st : State) :
  cursor_in_range st ->
  let next := handleNextFlashcard (render st) st in
  let previous := handlePreviousFlashcard (render st) st in
  handlePreviousFlashcard (render next) next = st
  /\ handleNextFlashcard (render previous) previous = st.
Proof.
  intros (c & Hc & Hr). cbn zeta.
  destruct st as [deck l e i rd]. cbn in Hc, Hr. subst i.
  unfold handleNextFlashcard, handlePreviousFlashcard, setCurrentFlashcardIndex, r_length.
  cbn [render r_flashcards flashcards loading error currentFlashcardIndex isReadingAloud
       JS.plus JS.rem].
  set (n := Z.of_nat (length deck)) in *.
  destruct (Z.eqb_spec n 0); [lia|]. cbn [JS.plus JS.rem].
  destruct (Z.eqb_spec n 0); [lia|].
  assert (Hnext : Z.rem (c + 1) n = (c + 1) mod n) by (apply Z.rem_mod_nonneg; lia).
  assert (Hprev : Z.rem (c + -1 + n) n = (c - 1) mod n).
  { rewrite Z.rem_mod_nonneg by lia.
    replace (c + -1 + n) with (c - 1 + 1 * n) by lia. by rewrite Z.mod_add by lia. }
  rewrite Hnext, Hprev.
  pose proof (Z.mod_pos_bound (c + 1) n ltac:(lia)).
  pose proof (Z.mod_pos_bound (c - 1) n ltac:(lia)).
  assert (Z.rem ((c + 1) mod n + -1 + n) n = c) as ->.
  { rewrite Z.rem_mod_nonneg by lia.
    replace ((c + 1) mod n + -1 + n) with ((c + 1) mod n - 1 + 1 * n) by lia.
    rewrite Z.mod_add by lia. rewrite mod_pred by lia. rewrite mod_succ by lia.
    repeat destruct (decide _); lia. }
  assert (Z.rem ((c - 1) mod n + 1) n = c) as ->.
  { rewrite Z.rem_mod_nonneg by lia. rewrite mod_succ by lia. rewrite mod_pred by lia.
    repeat destruct (decide _); lia. }
  done.
Qed.

Lemma ids_stay_distinct_witness :
  let s := Sample.screen [Sample.card_b; Sample.card_c; Sample.card_a] (JS.Idx 0) in
  NoDup (List.map Types.id
           (flashcards (ui (handleDeleteFlashcard (Sample.acknowledging [])
                              (render (ui s)) "b" s)))).
Proof.
  cbn zeta.
  apply (ids_stay_distinct (Sample.acknowledging [])
           (Sample.screen [Sample.card_b; Sample.card_c; Sample.card_a] (JS.Idx 0))
           (render (ui (Sample.screen [Sample.card_b; Sample.card_c; Sample.card_a]
                          (JS.Idx 0))))
           "b" true (mkDraft "terse" "brief" None None)).
  apply (bool_decide_unpack _). vm_compute. exact I.
Defined.

Lemma previous_undoes_next_witness :
  let st := mkState [Sample.card_b; Sample.card_c; Sample.card_a] false None (JS.Idx 2)
                    false in
  let next := handleNextFlashcard (render st) st in
  let previous := handlePreviousFlashcard (render st) st in
  handlePreviousFlashcard (render next) next = st
  /\ handleNextFlashcard (render previous) previous = st.
Proof.
  cbn zeta.
  apply (previous_undoes_next
           (mkState [Sample.card_b; Sample.card_c; Sample.card_a] false None (JS.Idx 2)
                    false)).
  exists 2. split; [reflexivity|cbn; lia].
Defined.

End DeckFacts.

(** ** The store: listing, creation and validation *)

Module StoreFacts.
Import Json Types Host Worker Store.

Lemma Promise_all_inr {A} (ps : list (Exn + A)) (vs : list A) :
  Promise_all ps = inr vs <-> ps = inr <$> vs.
Proof.
  revert vs. induction ps as [|[e|a] ps IH]; intros vs; cbn.
  - split; [intros [= <-]; done|]. destruct vs; done.
  - split; [done|]. destruct vs; done.
  - destruct (Promise_all ps) as [e|l] eqn:E.
    + split; [done|]. destruct vs as [|v vs]; [done|]. cbn. intros [= -> Hps].
      apply IH in Hps. done.
    + split.
      * intros [= <-]. cbn. f_equal. by apply IH.
      * destruct vs as [|v vs]; [done|]. cbn. intros [= -> Hps].
        apply IH in Hps. by injection Hps as ->.
Qed.

Lemma Promise_all_inl {A} (ps : list (Exn + A)) (e : Exn) :
  inl e ∈ ps -> exists e', Promise_all ps = inl e'.
Proof.
  induction ps as [|[e0|a] ps IH]; cbn.
  - by intros ?%elem_of_nil.
  - intros _. by exists e0.
  - intros [?|H]%elem_of_cons; [done|].
    destruct (IH H) as [e' ->]. by exists e'.
Qed.

Lemma key_listed (kv : KVNamespace) (key : string) (t : Text) :
  kv !! key = Some t -> key ∈ KV_list kv.
Proof.
  intros H. unfold KV_list. apply list_elem_of_fmap.
  exists (key, t). split; [done|]. by apply elem_of_map_to_list.
Qed.

Lemma listed_key (kv : KVNamespace) (key : string) :
  key ∈ KV_list kv -> exists t, kv !! key = Some t.
Proof.
  unfold KV_list. intros ([k t] & -> & H)%list_elem_of_fmap.
  exists t. by apply elem_of_map_to_list.
Qed.

Lemma read_unreadable (kv : KVNamespace) (key : string) (t : Text) :
  kv !! key = Some t -> unreadable t -> exists e, read kv key = inl e.
Proof.
  intros Hk (raw & -> & Hraw). unfold read, KV_get. rewrite Hk. cbn.
  destruct raw; [done|]. cbn. by eexists.
Qed.

Lemma read_readable (kv : KVNamespace) (key : string) :
  (forall t, kv !! key = Some t -> ~ unreadable t) ->
  exists v, read kv key = inr v
            /\ (truthy v = true -> kv !! key = Some (Serialized v)).
Proof.
  intros Hok. unfold read, KV_get.
  destruct (kv !! key) as [[v|raw]|] eqn:Hk; cbn.
  - by exists v.
  - destruct raw as [|c raw]; cbn; [by exists JNull|].
    destruct (Hok _ eq_refl). by eexists.
  - by exists JNull.
Qed.

(** The listing fails as a whole as soon as one stored value is rejected by
    [JSON.parse]. *)
Lemma getAll_unreadable (kv : KVNamespace) (key : string) (t : Text) :
  kv !! key = Some t -> unreadable t ->
  exists e,
    getAll kv = createErrorResponse ("Failed to retrieve flashcards: " +:+ message e) 500.
Proof.
  intros Hk Hbad. unfold getAll.
  destruct (read_unreadable kv key t Hk Hbad) as [e He].
  destruct (Promise_all_inl (read kv <$> KV_list kv) e) as [e' ->]; [|by exists e'].
  apply list_elem_of_fmap. exists key. split; [done|]. by apply (key_listed kv key t).
Qed.

(** Without such a value the listing succeeds with the values that parse to
    something truthy. *)
Lemma getAll_readable (kv : KVNamespace) :
  (forall key t, kv !! key = Some t -> ~ unreadable t) ->
  exists values,
    getAll kv = createJsonResponse (JArr (List.filter truthy values)) 200
    /\ (forall v, truthy v = true ->
          (v ∈ values <-> exists key, kv !! key = Some (Serialized v))).
Proof.
  intros Hok. unfold getAll.
  assert (Hall : exists values, read kv <$> KV_list kv = inr <$> values).
  { induction (KV_list kv) as [|key keys IH]; [by exists []|].
    destruct IH as [values IH].
    destruct (read_readable kv key (Hok key)) as (v & Hv & _).
    exists (v :: values). cbn. by rewrite Hv, IH. }
  destruct Hall as [values Hall].
  exists values. rewrite (proj2 (Promise_all_inr _ values) Hall). split; [done|].
  intros v Hv. split.
  - intros Hin.
    assert (Hin' : inr v ∈ read kv <$> KV_list kv).
    { rewrite Hall. apply list_elem_of_fmap. by exists v. }
    apply list_elem_of_fmap in Hin' as (key & Hread & Hkey).
    exists key. destruct (read_readable kv key (Hok key)) as (v' & Hv' & Hs).
    rewrite Hv' in Hread. injection Hread as ->. by apply Hs.
  - intros [key Hk].
    assert (Hin' : inr v ∈ read kv <$> KV_list kv).
    { apply list_elem_of_fmap. exists key. split; [|by apply (key_listed kv key _ Hk)].
      unfold read, KV_get. by rewrite Hk. }
    rewrite Hall in Hin'. apply list_elem_of_fmap in Hin' as (v' & [= ->] & Hin'). done.
Qed.

(** *** The client's view of a listing *)

Lemma getFlashcards_connected (r : Service.Remote) (kv : KVNamespace) :
  connected r -> FLASHCARDS_KV (Service.worker r) = Some kv ->
  (Service.getFlashcards r).1
  = Service.finish "Failed to fetch flashcards: " (inr (getAll kv)).
Proof.
  unfold connected, Service.getFlashcards, Service.fetch. intros -> Hkv.
  unfold Worker.fetch, flashcardsApi. cbn [method pathname]. rewrite Hkv. reflexivity.
Qed.

Lemma finish_error (what message : string) (status : Z) :
  Service.ok (createErrorResponse message status) = false ->
  exists e, Service.finish what (inr (createErrorResponse message status))
            = mkApiResponse false None (Some e).
Proof. intros Hok. unfold Service.finish. rewrite Hok. cbn. by eexists. Qed.

Lemma finish_json (what : string) (v : JSValue) :
  Service.finish what (inr (createJsonResponse v 200))
  = mkApiResponse true (Some (roundtrip v)) None.
Proof. reflexivity. Qed.

(** C3, as stated, fails: with three valid cards and one value that is not
    JSON in the namespace, the worker answers 500 and [getFlashcards]
    returns a failure that carries no card. *)
Lemma listing_with_one_corrupt_value_fails :
  let r := Sample.remote Sample.three_cards_and_junk in
  Sample.three_cards_and_junk !! "k1" = Some (Serialized (Sample.stored_card "k1" "alpha"))
  /\ Sample.three_cards_and_junk !! "k2" = Some (Serialized (Sample.stored_card "k2" "beta"))
  /\ Sample.three_cards_and_junk !! "k3" = Some (Serialized (Sample.stored_card "k3" "gamma"))
  /\ Sample.three_cards_and_junk !! "k4" = Some (Malformed "{oops")
  /\ status (getAll Sample.three_cards_and_junk) = 500
  /\ success (Service.getFlashcards r).1 = false
  /\ data (Service.getFlashcards r).1 = None.
Proof. vm_compute. repeat split; reflexivity. Qed.

(** C3, amended. For a connected client and a bound namespace: if some
    stored value is non-empty text that [JSON.parse] rejects, the listing
    fails as a whole, the worker answering 500 and [getFlashcards] returning
    a failure without cards; otherwise the listing succeeds and returns
    exactly the stored values that parse to something truthy (an empty
    value is dropped). *)
Theorem listing_all_or_nothing (r : Service.Remote) (kv : KVNamespace) :
  connected r -> FLASHCARDS_KV (Service.worker r) = Some kv ->
  let response := (Service.getFlashcards r).1 in
  ((exists key t, kv !! key = Some t /\ unreadable t) ->
     status (getAll kv) = 500 /\ success response = false /\ data response = None)
  /\ ((forall key t, kv !! key = Some t -> ~ unreadable t) ->
     status (getAll kv) = 200 /\ success response = true
     /\ exists items, data response = Some (JArr items)
                      /\ forall card, card ∈ items <-> listed kv card).
Proof.
  intros Hon Hkv. cbn zeta. rewrite (getFlashcards_connected r kv Hon Hkv). split.
  - intros (key & t & Hk & Hbad).
    destruct (getAll_unreadable kv key t Hk Hbad) as [e ->].
    split; [done|].
    by destruct (finish_error "Failed to fetch flashcards: "
                   ("Failed to retrieve flashcards: " +:+ message e) 500 eq_refl)
      as [e' ->].
  - intros Hok. destruct (getAll_readable kv Hok) as (values & -> & Hvalues).
    split; [done|]. rewrite finish_json. split; [done|].
    eexists. split; [reflexivity|]. intros card.
    rewrite list_elem_of_In, in_map_iff. split.
    + intros (v & <- & [Hin Ht]%filter_In).
      apply list_elem_of_In, (Hvalues v Ht) in Hin as [key Hk]. by exists key, v.
    + intros (key & v & Hk & Ht & ->). exists v. split; [done|].
      apply filter_In. split; [|done].
      apply list_elem_of_In, (Hvalues v Ht). by exists key.
Qed.

Lemma listing_all_or_nothing_witness :
  let r := Sample.remote Sample.three_cards in
  status (getAll Sample.three_cards) = 200
  /\ success (Service.getFlashcards r).1 = true
  /\ exists items, data (Service.getFlashcards r).1 = Some (JArr items)
                   /\ forall card, card ∈ items <-> listed Sample.three_cards card.
Proof.
  cbn zeta.
  refine (proj2 (listing_all_or_nothing (Sample.remote Sample.three_cards)
                   Sample.three_cards _ _) _).
  - reflexivity.
  - reflexivity.
  - intros key t Hk (raw & -> & _).
    destruct (decide (key = "k3")) as [->|?]; [vm_compute in Hk; discriminate|].
    unfold Sample.three_cards in Hk. rewrite lookup_insert_ne in Hk by done.
    destruct (decide (key = "k2")) as [->|?]; [vm_compute in Hk; discriminate|].
    rewrite lookup_insert_ne in Hk by done.
    destruct (decide (key = "k1")) as [->|?]; [vm_compute in Hk; discriminate|].
    rewrite lookup_insert_ne in Hk by done. by rewrite lookup_empty in Hk.
Defined.

(** *** Creation *)

Lemma lookup_set_prop_eq (k : string) (v : JSValue) (props : list (string * JSValue)) :
  lookup_prop k (set_prop k v props) = Some v.
Proof.
  induction props as [|[k' v'] props IH]; cbn.
  - by rewrite String.eqb_refl.
  - destruct (String.eqb k' k) eqn:E; cbn; [by rewrite String.eqb_refl|rewrite E; apply IH].
Qed.

Lemma lookup_set_prop_ne (k k' : string) (v : JSValue) (props : list (string * JSValue)) :
  String.eqb k k' = false ->
  lookup_prop k' (set_prop k v props) = lookup_prop k' props.
Proof.
  intros Hne. induction props as [|[k0 v0] props IH]; cbn.
  - by rewrite Hne.
  - destruct (String.eqb k0 k) eqn:E; cbn.
    + apply String.eqb_eq in E as ->. by rewrite Hne.
    + by rewrite IH.
Qed.

Lemma lookup_roundtrip (k : string) (props : list (string * JSValue)) :
  get k (roundtrip (JObj props)) = roundtrip <$> lookup_prop k props.
Proof.
  cbn. induction props as [|[k' v'] props IH]; cbn; [done|].
  by destruct (String.eqb k' k).
Qed.

Lemma get_roundtrip_twice (k : string) (body : JSValue) (id : string) (t1 t2 : float) :
  get k (roundtrip (roundtrip (created body id t1 t2)))
  = (fun v => roundtrip (roundtrip v)) <$> get k (created body id t1 t2).
Proof.
  unfold created. set (props := set_prop "interval" _ _).
  change (roundtrip (JObj props))
    with (JObj (List.map (fun kv => let '(k0, x) := kv in (k0, roundtrip x)) props)).
  rewrite lookup_roundtrip.
  change (lookup_prop k (List.map _ props)) with (get k (roundtrip (JObj props))).
  rewrite lookup_roundtrip. cbn [get]. by destruct (lookup_prop k props).
Qed.

Lemma roundtrip_number_twice (n : float) :
  roundtrip (roundtrip (JNum n)) = roundtrip (JNum n).
Proof.
  cbn [roundtrip]. destruct (is_finite n) eqn:Hf; [|done].
  destruct (is_zero n) eqn:Hz; [reflexivity|]. cbn [roundtrip]. by rewrite Hf, Hz.
Qed.

(** The four fields the worker assigns override whatever the body says. *)
Lemma created_metadata (body : JSValue) (id : string) (t1 t2 : float) :
  get "id" (created body id t1 t2) = Some (JStr id)
  /\ get "createdAt" (created body id t1 t2) = Some (JNum t1)
  /\ get "dueDate" (created body id t1 t2) = Some (JNum t2)
  /\ get "interval" (created body id t1 t2) = Some (JNum 0).
Proof.
  unfold created. cbn [get]. repeat split.
  - rewrite 3 lookup_set_prop_ne by reflexivity. apply lookup_set_prop_eq.
  - rewrite 2 lookup_set_prop_ne by reflexivity. apply lookup_set_prop_eq.
  - rewrite lookup_set_prop_ne by reflexivity. apply lookup_set_prop_eq.
  - apply lookup_set_prop_eq.
Qed.

(** The fields of the draft are copied. *)
Lemma created_content (draft : Draft) (id : string) (t1 t2 : float) :
  let card := created (roundtrip (Service.draft_object draft)) id t1 t2 in
  get "word" card = Some (JStr (draft_word draft))
  /\ get "definition" card = Some (JStr (draft_definition draft))
  /\ get "exampleSentence" card = JStr <$> draft_exampleSentence draft.
Proof.
  destruct draft as [w d [e|] [l|]]; cbn; done.
Qed.

(** [POST /api/flashcards] with a body that parses. *)
Lemma post_parsed (request : Request) (kv : KVNamespace) (w : World) (v : JSValue) :
  body request = Serialized v ->
  let id := uuid (uuids w) (drawn (uuids w)) in
  let t1 := reading (clock w) (reads (clock w)) in
  let t2 := reading (clock w) (S (reads (clock w))) in
  post request kv w
  = (createJsonResponse (created v id t1 t2) 201,
     mkWorld (Some (<[id := stringify (created v id t1 t2)]> kv))
             (mkClock (reading (clock w)) (S (S (reads (clock w)))))
             (mkUUIDs (uuid (uuids w)) (S (drawn (uuids w))))).
Proof. intros Hb. unfold post. by rewrite Hb. Qed.

(** [POST /api/flashcards] with a body that does not parse. *)
Lemma post_malformed (request : Request) (kv : KVNamespace) (w : World) (raw : string) :
  body request = Malformed raw ->
  exists m, post request kv w = (createErrorResponse m 400, w).
Proof. intros Hb. unfold post. rewrite Hb. cbn. by eexists. Qed.

Lemma getFlashcards_succeeded (r : Service.Remote) (kv : KVNamespace) :
  FLASHCARDS_KV (Service.worker r) = Some kv ->
  success (Service.getFlashcards r).1 = true ->
  exists values,
    Promise_all (read kv <$> KV_list kv) = inr values
    /\ data (Service.getFlashcards r).1
       = Some (JArr (List.map roundtrip (List.filter truthy values))).
Proof.
  intros Hkv.
  destruct (Service.online (Service.network r) (Service.sent (Service.network r))) eqn:Hon.
  - rewrite (getFlashcards_connected r kv Hon Hkv). unfold getAll.
    destruct (Promise_all (read kv <$> KV_list kv)) as [e|values].
    + destruct (finish_error "Failed to fetch flashcards: "
                  ("Failed to retrieve flashcards: " +:+ message e) 500 eq_refl) as [e' ->].
      done.
    + intros _. by exists values.
  - unfold Service.getFlashcards, Service.fetch. by rewrite Hon.
Qed.

Lemma addFlashcard_succeeded (r : Service.Remote) (kv : KVNamespace) (draft : Draft) :
  FLASHCARDS_KV (Service.worker r) = Some kv ->
  success (Service.addFlashcard draft r).1 = true ->
  let w := Service.worker r in
  let id := uuid (uuids w) (drawn (uuids w)) in
  let t1 := reading (clock w) (reads (clock w)) in
  let t2 := reading (clock w) (S (reads (clock w))) in
  let card := created (roundtrip (Service.draft_object draft)) id t1 t2 in
  data (Service.addFlashcard draft r).1 = Some (roundtrip card)
  /\ FLASHCARDS_KV (Service.worker (Service.addFlashcard draft r).2)
     = Some (<[id := stringify card]> kv).
Proof.
  intros Hkv. unfold Service.addFlashcard, Service.fetch.
  destruct (Service.online (Service.network r) (Service.sent (Service.network r)));
    [|done].
  unfold Worker.fetch, flashcardsApi. cbn [method pathname]. rewrite Hkv.
  cbn [String.eqb Ascii.eqb Bool.eqb andb String.prefix].
  rewrite (post_parsed _ kv (Service.worker r) (roundtrip (Service.draft_object draft)))
    by reflexivity.
  done.
Qed.

Lemma addFlashcard_unbound (r : Service.Remote) (draft : Draft) :
  FLASHCARDS_KV (Service.worker r) = None ->
  success (Service.addFlashcard draft r).1 = false.
Proof.
  intros Hkv. unfold Service.addFlashcard, Service.fetch.
  destruct (Service.online (Service.network r) (Service.sent (Service.network r)));
    [|done].
  unfold Worker.fetch, flashcardsApi. cbn [method pathname]. by rewrite Hkv.
Qed.

(** C7. When [addFlashcard(draft)] succeeds and the [getFlashcards()] that
    follows succeeds, the listing contains a card with the draft's word,
    definition and example sentence, whose id is the worker's next
    [crypto.randomUUID()], whose [createdAt] and [dueDate] are the worker's
    next two clock readings, and whose interval is 0. *)
Theorem create_then_list (r : Service.Remote) (draft : Draft) :
  success (Service.addFlashcard draft r).1 = true ->
  success (Service.getFlashcards (Service.addFlashcard draft r).2).1 = true ->
  let w := Service.worker r in
  exists items card,
    data (Service.getFlashcards (Service.addFlashcard draft r).2).1 = Some (JArr items)
    /\ card ∈ items
    /\ get "word" card = Some (JStr (draft_word draft))
    /\ get "definition" card = Some (JStr (draft_definition draft))
    /\ get "exampleSentence" card = JStr <$> draft_exampleSentence draft
    /\ get "id" card = Some (JStr (uuid (uuids w) (drawn (uuids w))))
    /\ get "createdAt" card = Some (wire_number (reading (clock w) (reads (clock w))))
    /\ get "dueDate" card = Some (wire_number (reading (clock w) (S (reads (clock w)))))
    /\ get "interval" card = Some (JNum 0).
Proof.
  intros Hadd Hlist. cbn zeta.
  destruct (FLASHCARDS_KV (Service.worker r)) as [kv|] eqn:Hkv;
    [|by rewrite (addFlashcard_unbound r draft Hkv) in Hadd].
  destruct (addFlashcard_succeeded r kv draft Hkv Hadd) as [_ Hkv'].
  set (id := uuid _ _) in *. set (t1 := reading _ (reads _)) in *.
  set (t2 := reading _ (S _)) in *.
  set (card := created _ id t1 t2) in *.
  destruct (getFlashcards_succeeded _ _ Hkv' Hlist) as (values & Hvalues & ->).
  exists (List.map roundtrip (List.filter truthy values)), (roundtrip (roundtrip card)).
  split; [done|]. split.
  - apply list_elem_of_In, in_map, filter_In. split; [|done].
    apply list_elem_of_In.
    assert (Hin : inr (roundtrip card) ∈ read (<[id:=stringify card]> kv)
                                         <$> KV_list (<[id:=stringify card]> kv)).
    { apply list_elem_of_fmap. exists id. split.
      - unfold read, KV_get. by rewrite lookup_insert_eq.
      - apply (key_listed _ id (stringify card)). by rewrite lookup_insert_eq. }
    apply Promise_all_inr in Hvalues. rewrite Hvalues in Hin.
    by apply list_elem_of_fmap in Hin as (v & [= <-] & Hin).
  - subst card.
    set (card := created (roundtrip (Service.draft_object draft)) id t1 t2).
    assert (Hget : forall k, get k (roundtrip (roundtrip card))
                             = (fun v => roundtrip (roundtrip v)) <$> get k card)
      by (intros k; apply get_roundtrip_twice).
    subst card.
    pose proof (created_content draft id t1 t2) as (Hw & Hd & He).
    pose proof (created_metadata (roundtrip (Service.draft_object draft)) id t1 t2)
      as (Hi & Hc & Hdue & Hint).
    rewrite !Hget, Hw, Hd, He, Hi, Hc, Hdue, Hint.
    unfold wire_number. cbn [fmap option_fmap option_map].
    rewrite !roundtrip_number_twice. repeat split; try done.
    by destruct (draft_exampleSentence draft).
Qed.

Lemma create_then_list_witness :
  let r := Sample.remote Sample.three_cards in
  let draft := mkDraft "terse" "brief" (Some "A terse reply.") None in
  let w := Service.worker r in
  exists items card,
    data (Service.getFlashcards (Service.addFlashcard draft r).2).1 = Some (JArr items)
    /\ card ∈ items
    /\ get "word" card = Some (JStr (draft_word draft))
    /\ get "definition" card = Some (JStr (draft_definition draft))
    /\ get "exampleSentence" card = JStr <$> draft_exampleSentence draft
    /\ get "id" card = Some (JStr (uuid (uuids w) (drawn (uuids w))))
    /\ get "createdAt" card = Some (wire_number (reading (clock w) (reads (clock w))))
    /\ get "dueDate" card = Some (wire_number (reading (clock w) (S (reads (clock w)))))
    /\ get "interval" card = Some (JNum 0).
Proof.
  cbn zeta.
  apply (create_then_list (Sample.remote Sample.three_cards)
           (mkDraft "terse" "brief" (Some "A terse reply.") None)).
  - vm_compute. reflexivity.
  - vm_compute. reflexivity.
Defined.

(** The card created above, as the listing shows it: the worker's clock
    advanced by a millisecond between [createdAt] and [dueDate]. *)
Example created_card_on_the_wire :
  let r := Sample.remote ∅ in
  let draft := mkDraft "terse" "brief" None None in
  data (Service.getFlashcards (Service.addFlashcard draft r).2).1
  = Some (JArr [JObj [("word", JStr "terse"); ("definition", JStr "brief");
                      ("id", JStr "uuid-0"); ("createdAt", JNum 1700000000000);
                      ("dueDate", JNum 1700000000001); ("interval", JNum 0)]]).
Proof. vm_compute. reflexivity. Qed.

(** *** Validation *)

(** C8, as stated, fails: a create request whose body has neither a word nor
    a definition is answered 201 and stored, and so is a draft whose word
    and definition are empty. *)
Lemma create_without_required_fields_is_stored :
  let w := Service.worker (Sample.remote ∅) in
  let request :=
    mkRequest "POST" "/api/flashcards" (Serialized (JObj [("exampleSentence", JStr "x")])) in
  status (flashcardsApi request w).1 = 201
  /\ FLASHCARDS_KV (flashcardsApi request w).2
     = Some (<["uuid-0" :=
               Serialized (JObj [("exampleSentence", JStr "x"); ("id", JStr "uuid-0");
                                 ("createdAt", JNum 1700000000000);
                                 ("dueDate", JNum 1700000000001);
                                 ("interval", JNum 0)])]> ∅)
  /\ success (Service.addFlashcard (mkDraft "" "" None None) (Sample.remote ∅)).1 = true.
Proof. vm_compute. repeat split; reflexivity. Qed.

Lemma post_route (request : Request) (kv : KVNamespace) (w : World) :
  FLASHCARDS_KV w = Some kv ->
  method request = "POST" -> pathname request = "/api/flashcards" ->
  flashcardsApi request w = post request kv w.
Proof. unfold flashcardsApi. by intros -> -> ->. Qed.

Lemma submit_blank {R : Type} (onAdd : Draft -> R -> R) (onSuccess : option (R -> R))
    (f : AddWordForm.Form) (r : R) :
  JS.trim (AddWordForm.word f) = EmptyString
  \/ JS.trim (AddWordForm.definition f) = EmptyString ->
  AddWordForm.handleSubmit onAdd onSuccess f r
  = (AddWordForm.mkForm (AddWordForm.word f) (AddWordForm.definition f)
       (AddWordForm.exampleSentence f) (AddWordForm.loadingDefinition f)
       "Word and Definition are required.", r).
Proof.
  unfold AddWordForm.handleSubmit.
  cbn [AddWordForm.word AddWordForm.definition AddWordForm.exampleSentence
       AddWordForm.loadingDefinition].
  intros [-> | ->]; cbn [JS.nonempty negb orb]; [done|by rewrite orb_true_r].
Qed.

(** C8, amended. [POST /api/flashcards] answers 400 when the request body
    is not JSON, and then stores nothing; a body that parses is answered
    201 and stored under a new id, whatever fields it has.  A word or a
    definition that is blank is stopped earlier, by the form: [handleSubmit]
    shows "Word and Definition are required." and does not call [onAdd]. *)
Theorem create_validation {R : Type} (request : Request) (kv : KVNamespace) (w : World)
    (onAdd : Draft -> R -> R) (onSuccess : option (R -> R))
    (f : AddWordForm.Form) (r : R) :
  FLASHCARDS_KV w = Some kv ->
  method request = "POST" -> pathname request = "/api/flashcards" ->
  (forall raw, body request = Malformed raw ->
     status (flashcardsApi request w).1 = 400 /\ (flashcardsApi request w).2 = w)
  /\ (forall v, body request = Serialized v ->
     let id := uuid (uuids w) (drawn (uuids w)) in
     let card := created v id (reading (clock w) (reads (clock w)))
                         (reading (clock w) (S (reads (clock w)))) in
     status (flashcardsApi request w).1 = 201
     /\ FLASHCARDS_KV (flashcardsApi request w).2 = Some (<[id := stringify card]> kv))
  /\ (JS.trim (AddWordForm.word f) = EmptyString
      \/ JS.trim (AddWordForm.definition f) = EmptyString ->
      AddWordForm.error (AddWordForm.handleSubmit onAdd onSuccess f r).1
      = "Word and Definition are required."
      /\ (AddWordForm.handleSubmit onAdd onSuccess f r).2 = r).
Proof.
  intros Hkv Hm Hp. rewrite (post_route request kv w Hkv Hm Hp). split; [|split].
  - intros raw Hb. by destruct (post_malformed request kv w raw Hb) as [m ->].
  - intros v Hb. cbn zeta. by rewrite (post_parsed request kv w v Hb).
  - intros Hblank. by rewrite (submit_blank onAdd onSuccess f r Hblank).
Qed.

Lemma create_validation_witness :
  let w := Service.worker (Sample.remote ∅) in
  let request := mkRequest "POST" "/api/flashcards" (Malformed "word=terse") in
  let f := AddWordForm.mkForm "   " "brief" "" false "" in
  (status (flashcardsApi request w).1 = 400 /\ (flashcardsApi request w).2 = w)
  /\ (AddWordForm.error
        (AddWordForm.handleSubmit (fun (_ : Draft) (n : nat) => S n) None f 0%nat).1
      = "Word and Definition are required."
      /\ (AddWordForm.handleSubmit (fun (_ : Draft) (n : nat) => S n) None f 0%nat).2
         = 0%nat).
Proof.
  cbn zeta.
  destruct (create_validation
              (mkRequest "POST" "/api/flashcards" (Malformed "word=terse")) ∅
              (Service.worker (Sample.remote ∅))
              (fun (_ : Draft) (n : nat) => S n) None
              (AddWordForm.mkForm "   " "brief" "" false "") 0%nat
              eq_refl eq_refl eq_refl) as (Hbad & _ & Hblank).
  split.
  - apply (Hbad "word=terse"). reflexivity.
  - apply Hblank. left. reflexivity.
Defined.

(** A submission with a word and a definition calls [onAdd] once and clears
    the form. *)
Example submit_filled :
  AddWordForm.handleSubmit (fun (_ : Draft) (n : nat) => S n) None
                           (AddWordForm.mkForm "terse" "brief" "" false "stale") 0%nat
  = (AddWordForm.mkForm "" "" "" false "", 1%nat).
Proof. reflexivity. Qed.

(** *** Update *)

(** X3. [PUT /api/flashcards/{id}] replaces the stored value when the body
    is an object whose [id] is the id of the path, and answers 400 without
    storing anything when the body names another id or none. *)
Theorem update_requires_matching_id (request : Request) (id : string)
    (kv : KVNamespace) (w : World) (props : list (string * JSValue)) :
  body request = Serialized (JObj props) ->
  (lookup_prop "id" props = Some (JStr id) ->
     status (put request id kv w).1 = 200
     /\ FLASHCARDS_KV (put request id kv w).2
        = Some (<[id := stringify (JObj props)]> kv))
  /\ (lookup_prop "id" props <> Some (JStr id) ->
     put request id kv w
     = (createErrorResponse "Flashcard ID in path and body do not match." 400, w)).
Proof.
  intros Hb. unfold put. rewrite Hb. cbn [parse id_differs get]. split.
  - intros ->. by rewrite String.eqb_refl.
  - intros Hne. destruct (lookup_prop "id" props) as [[| | |s| |]|] eqn:E; try done.
    destruct (String.eqb_spec s id) as [->|]; [done|done].
Qed.

Lemma update_requires_matching_id_witness :
  let w := Service.worker (Sample.remote Sample.three_cards) in
  let request := mkRequest "PUT" "/api/flashcards/k1"
                           (Serialized (Sample.stored_card "k2" "beta")) in
  put request "k1" Sample.three_cards w
  = (createErrorResponse "Flashcard ID in path and body do not match." 400, w).
Proof.
  cbn zeta.
  refine (proj2 (update_requires_matching_id
                   (mkRequest "PUT" "/api/flashcards/k1"
                              (Serialized (Sample.stored_card "k2" "beta")))
                   "k1" Sample.three_cards
                   (Service.worker (Sample.remote Sample.three_cards)) _ _) _).
  - reflexivity.
  - cbn. discriminate.
Defined.

(** The same through the route: the id is the last segment of the path. *)
Example update_through_the_route :
  let w := Service.worker (Sample.remote Sample.three_cards) in
  let mismatched := mkRequest "PUT" "/api/flashcards/k1"
                              (Serialized (Sample.stored_card "k2" "beta")) in
  let matching := mkRequest "PUT" "/api/flashcards/k1"
                            (Serialized (Sample.stored_card "k1" "omega")) in
  status (flashcardsApi mismatched w).1 = 400
  /\ (flashcardsApi mismatched w).2 = w
  /\ status (flashcardsApi matching w).1 = 200
  /\ FLASHCARDS_KV (flashcardsApi matching w).2
     = Some (<["k1" := Serialized (Sample.stored_card "k1" "omega")]> Sample.three_cards).
Proof. vm_compute. repeat split; reflexivity. Qed.


(** *** Routes, and what a request does to the namespace *)

Lemma append_assoc (a b c : string) : (a +:+ b) +:+ c = a +:+ (b +:+ c).
Proof.
  induction a as [|x a IH]; [done|].
  change (String x ((a +:+ b) +:+ c) = String x (a +:+ (b +:+ c))). by f_equal.
Qed.

Lemma append_empty_r (a : string) : a +:+ EmptyString = a.
Proof.
  induction a as [|x a IH]; [done|].
  change (String x (a +:+ EmptyString) = String x a). by f_equal.
Qed.

Lemma pop_split_unreserved (acc s : string) :
  unreserved s = true -> pop_split acc s = acc +:+ s.
Proof.
  revert acc. induction s as [|c s IH]; intros acc; cbn [unreserved pop_split].
  - intros _. by rewrite append_empty_r.
  - intros [Hc Hs]%andb_true_iff.
    destruct (Ascii.eqb_spec c "/") as [->|_]; [done|].
    rewrite IH by done. by rewrite append_assoc.
Qed.

Lemma item_route (request : Request) (kv : KVNamespace) (w : World) (id : string) :
  FLASHCARDS_KV w = Some kv ->
  pathname request = "/api/flashcards/" +:+ id ->
  path_segment id ->
  flashcardsApi request w
  = if String.eqb (method request) "PUT" then put request id kv w
    else if String.eqb (method request) "DELETE" then del id kv w
    else (createErrorResponse "Method Not Allowed for Flashcards API." 405, w).
Proof.
  intros Hkv Hp [Hne Hid]. unfold flashcardsApi. rewrite Hkv, Hp.
  assert (String.eqb ("/api/flashcards/" +:+ id) "/api/flashcards" = false) as ->
    by reflexivity.
  assert (String.prefix "/api/flashcards/" ("/api/flashcards/" +:+ id) = true) as ->
    by (change (String.prefix EmptyString id = true); by destruct id).
  assert (pop_split EmptyString ("/api/flashcards/" +:+ id) = pop_split EmptyString id) as ->
    by reflexivity.
  rewrite pop_split_unreserved by done. cbn [andb].
  change (EmptyString +:+ id) with id.
  by destruct id.
Qed.

Lemma post_effect (request : Request) (kv : KVNamespace) (w : World) :
  (status (post request kv w).1 = 400 /\ (post request kv w).2 = w)
  \/ (status (post request kv w).1 = 201
      /\ exists v, body request = Serialized v
         /\ FLASHCARDS_KV (post request kv w).2
            = Some (<[uuid (uuids w) (drawn (uuids w)) :=
                      stringify (created v (uuid (uuids w) (drawn (uuids w)))
                                   (reading (clock w) (reads (clock w)))
                                   (reading (clock w) (S (reads (clock w)))))]> kv)).
Proof.
  destruct (body request) as [v|raw] eqn:Hb.
  - right. rewrite (post_parsed request kv w v Hb). split; [done|]. by exists v.
  - left. by destruct (post_malformed request kv w raw Hb) as [m ->].
Qed.

Lemma put_effect (request : Request) (id : string) (kv : KVNamespace) (w : World) :
  (status (put request id kv w).1 = 400 /\ (put request id kv w).2 = w)
  \/ (status (put request id kv w).1 = 200
      /\ exists v, body request = Serialized v
         /\ FLASHCARDS_KV (put request id kv w).2 = Some (<[id := stringify v]> kv)).
Proof.
  unfold put. destruct (body request) as [v|raw] eqn:Hb; cbn [parse]; [|by left].
  destruct (id_differs v id) as [e|[|]]; [by left|by left|].
  right. split; [done|]. by exists v.
Qed.

Lemma api_rejected (request : Request) (w : World) :
  400 <= status (flashcardsApi request w).1
  \/ (method request <> "POST" /\ method request <> "PUT" /\ method request <> "DELETE") ->
  (flashcardsApi request w).2 = w.
Proof.
  unfold flashcardsApi.
  destruct (FLASHCARDS_KV w) as [kv|]; [|done].
  destruct (String.eqb (pathname request) "/api/flashcards" && String.eqb (method request) "GET");
    [done|].
  assert (Hitem :
    400 <= status
      (if String.prefix "/api/flashcards/" (pathname request)
       then
         if negb (JS.nonempty (pop_split EmptyString (pathname request)))
         then (createErrorResponse "Flashcard ID is missing." 400, w)
         else if String.eqb (method request) "PUT"
              then put request (pop_split EmptyString (pathname request)) kv w
              else if String.eqb (method request) "DELETE"
                   then del (pop_split EmptyString (pathname request)) kv w
                   else (createErrorResponse "Method Not Allowed for Flashcards API." 405, w)
       else (createErrorResponse "Method Not Allowed for Flashcards API." 405, w)).1
    \/ (method request <> "POST" /\ method request <> "PUT" /\ method request <> "DELETE") ->
    (if String.prefix "/api/flashcards/" (pathname request)
       then
         if negb (JS.nonempty (pop_split EmptyString (pathname request)))
         then (createErrorResponse "Flashcard ID is missing." 400, w)
         else if String.eqb (method request) "PUT"
              then put request (pop_split EmptyString (pathname request)) kv w
              else if String.eqb (method request) "DELETE"
                   then del (pop_split EmptyString (pathname request)) kv w
                   else (createErrorResponse "Method Not Allowed for Flashcards API." 405, w)
       else (createErrorResponse "Method Not Allowed for Flashcards API." 405, w)).2 = w).
  { destruct (String.prefix "/api/flashcards/" (pathname request)); [|done].
    destruct (negb _); [done|].
    destruct (String.eqb_spec (method request) "PUT") as [Hm'|Hm'].
    - intros [Hs|(_ & ? & _)]; [|done].
      destruct (put_effect request (pop_split EmptyString (pathname request)) kv w)
        as [[_ ?]|[H _]]; [done|lia].
    - destruct (String.eqb_spec (method request) "DELETE") as [Hm''|Hm'']; [|done].
      intros [Hs|(_ & _ & ?)]; [cbn in Hs; lia|done]. }
  destruct (String.eqb (pathname request) "/api/flashcards"); cbn [andb]; [|exact Hitem].
  destruct (String.eqb_spec (method request) "POST") as [Hm|Hm]; [|exact Hitem].
  intros [Hs|[? _]]; [|done].
  destruct (post_effect request kv w) as [[_ ?]|[H _]]; [done|lia].
Qed.

(** X8. A request that the worker answers with a status of 400 or more, and
    a request whose method is not POST, PUT or DELETE, leaves the namespace,
    the clock and the identifier source as they were. *)
Theorem rejected_request_changes_nothing (request : Request) (w w' : World)
    (response : Response) :
  Worker.fetch request w = Some (response, w') ->
  400 <= status response
  \/ (method request <> "POST" /\ method request <> "PUT" /\ method request <> "DELETE") ->
  w' = w.
Proof.
  unfold Worker.fetch.
  destruct (String.eqb (method request) "OPTIONS"); [by intros [= _ <-]|].
  destruct (String.prefix "/api/flashcards" (pathname request));
    [|destruct (String.prefix "/api/gemini" (pathname request)); [done|by intros [= _ <-]]].
  intros [= H] Hcase. pose proof (api_rejected request w) as Hr.
  rewrite H in Hr. exact (Hr Hcase).
Qed.

Lemma api_touches_one_key (request : Request) (w : World) (kv : KVNamespace) :
  FLASHCARDS_KV w = Some kv ->
  exists kv', FLASHCARDS_KV (flashcardsApi request w).2 = Some kv'
    /\ forall k : string,
         k <> uuid (uuids w) (drawn (uuids w)) ->
         k <> pop_split EmptyString (pathname request) ->
         kv' !! k = kv !! k.
Proof.
  intros Hkv. unfold flashcardsApi. rewrite Hkv.
  destruct (_ && _); [by exists kv|].
  destruct (_ && _).
  { destruct (post_effect request kv w) as [[_ ->]|[_ (v & _ & ->)]]; [by exists kv|].
    eexists. split; [done|]. intros k Hk _. by rewrite lookup_insert_ne. }
  destruct (String.prefix _ _); [|by exists kv].
  destruct (negb _); [by exists kv|].
  destruct (String.eqb (method request) "PUT").
  { destruct (put_effect request (pop_split EmptyString (pathname request)) kv w)
      as [[_ ->]|[_ (v & _ & ->)]]; [by exists kv|].
    eexists. split; [done|]. intros k _ Hk. by rewrite lookup_insert_ne. }
  destruct (String.eqb (method request) "DELETE"); [|by exists kv].
  eexists. split; [done|]. intros k _ Hk. unfold KV_delete. by rewrite lookup_delete_ne.
Qed.

(** X9. No request unbinds the namespace or changes the value of a key other
    than the one it names: the last segment of its path, or the identifier
    drawn for a creation. *)
Theorem request_touches_one_key (request : Request) (w w' : World) (response : Response)
    (kv : KVNamespace) :
  FLASHCARDS_KV w = Some kv ->
  Worker.fetch request w = Some (response, w') ->
  exists kv', FLASHCARDS_KV w' = Some kv'
    /\ forall k : string,
         k <> uuid (uuids w) (drawn (uuids w)) ->
         k <> pop_split EmptyString (pathname request) ->
         kv' !! k = kv !! k.
Proof.
  intros Hkv. unfold Worker.fetch.
  destruct (String.eqb (method request) "OPTIONS"); [intros [= _ <-]; by exists kv|].
  destruct (String.prefix "/api/flashcards" (pathname request));
    [|destruct (String.prefix "/api/gemini" (pathname request));
      [done|intros [= _ <-]; by exists kv]].
  intros [= H]. pose proof (api_touches_one_key request w kv Hkv) as Hr.
  by rewrite H in Hr.
Qed.

(** *** Listing, as a relation between the namespace and the answer *)

Lemma read_truthy (kv : KVNamespace) (key : string) (v : JSValue) :
  truthy v = true ->
  read kv key = inr v <-> kv !! key = Some (Serialized v).
Proof.
  intros Hv. unfold read, KV_get.
  destruct (kv !! key) as [[v'|raw]|]; cbn.
  - split; by intros [= ->].
  - destruct raw; cbn; split; try done. intros [= <-]. done.
  - split; [|done]. intros [= <-]. done.
Qed.

Lemma listing_succeeded (r : Service.Remote) (kv : KVNamespace) :
  FLASHCARDS_KV (Service.worker r) = Some kv ->
  success (Service.getFlashcards r).1 = true ->
  exists items, data (Service.getFlashcards r).1 = Some (JArr items)
                /\ forall card, card ∈ items <-> listed kv card.
Proof.
  intros Hkv Hs.
  destruct (getFlashcards_succeeded r kv Hkv Hs) as (values & Hvalues & ->).
  eexists. split; [done|]. intros card.
  apply Promise_all_inr in Hvalues.
  rewrite list_elem_of_In, in_map_iff. split.
  - intros (v & <- & [Hin Ht]%filter_In).
    assert (Hin' : inr v ∈ read kv <$> KV_list kv).
    { rewrite Hvalues. apply list_elem_of_fmap. exists v. by rewrite list_elem_of_In. }
    apply list_elem_of_fmap in Hin' as (key & Hread & _).
    exists key, v. split; [|done]. by apply read_truthy.
  - intros (key & v & Hk & Ht & ->). exists v. split; [done|].
    apply filter_In. split; [|done]. apply list_elem_of_In.
    assert (Hin' : inr v ∈ read kv <$> KV_list kv).
    { apply list_elem_of_fmap. exists key. split; [|by apply (key_listed kv key _ Hk)].
      symmetry. by apply read_truthy. }
    rewrite Hvalues in Hin'. by apply list_elem_of_fmap in Hin' as (v' & [= ->] & Hin').
Qed.

(** *** Removal *)

Lemma deleteFlashcard_connected (r : Service.Remote) (kv : KVNamespace) (id : string) :
  connected r -> FLASHCARDS_KV (Service.worker r) = Some kv -> path_segment id ->
  success (Service.deleteFlashcard id r).1 = true
  /\ FLASHCARDS_KV (Service.worker (Service.deleteFlashcard id r).2) = Some (delete id kv).
Proof.
  unfold connected, Service.deleteFlashcard, Service.fetch. intros -> Hkv Hid.
  set (request := mkRequest "DELETE" _ _).
  unfold Worker.fetch.
  assert (String.prefix "/api/flashcards" (pathname request) = true) as ->
    by (change (String.prefix EmptyString (String "/" id) = true); done).
  rewrite (item_route request kv (Service.worker r) id Hkv eq_refl Hid).
  done.
Qed.

(** X10. For a connected client, a bound namespace and an id that is a path
    segment as it stands, [deleteFlashcard(id)] succeeds whether or not a
    card is stored under the id, the namespace loses the key, and the
    listing that follows, when it succeeds, has exactly the truthy values
    stored under the other keys. *)
Theorem delete_then_list (r : Service.Remote) (kv : KVNamespace) (id : string) :
  connected r -> FLASHCARDS_KV (Service.worker r) = Some kv -> path_segment id ->
  let r' := (Service.deleteFlashcard id r).2 in
  success (Service.deleteFlashcard id r).1 = true
  /\ FLASHCARDS_KV (Service.worker r') = Some (delete id kv)
  /\ (success (Service.getFlashcards r').1 = true ->
      exists items,
        data (Service.getFlashcards r').1 = Some (JArr items)
        /\ forall card,
             card ∈ items
             <-> exists (key : string) (v : JSValue),
                   key <> id /\ kv !! key = Some (Serialized v)
                   /\ truthy v = true /\ card = roundtrip v).
Proof.
  intros Hon Hkv Hid. cbn zeta.
  destruct (deleteFlashcard_connected r kv id Hon Hkv Hid) as [Hs Hkv'].
  split; [done|]. split; [done|]. intros Hlist.
  destruct (listing_succeeded _ _ Hkv' Hlist) as (items & Hd & Hitems).
  exists items. split; [done|]. intros card. rewrite Hitems. unfold listed. split.
  - intros (key & v & Hk & Ht & ->). apply lookup_delete_Some in Hk as [Hne Hk].
    by exists key, v.
  - intros (key & v & Hne & Hk & Ht & ->). exists key, v.
    split; [|done]. by apply lookup_delete_Some.
Qed.

(** *** Update through the client *)

Lemma roundtrip_idem (v : JSValue) : roundtrip (roundtrip v) = roundtrip v.
Proof.
  revert v. fix IH 1. intros [| b | n | s | items | props]; try reflexivity.
  - apply roundtrip_number_twice.
  - cbn [roundtrip]. f_equal. induction items as [|x items IHitems]; [done|].
    cbn [List.map]. f_equal; [apply IH|apply IHitems].
  - cbn [roundtrip]. f_equal. induction props as [|[k x] props IHprops]; [done|].
    cbn [List.map]. f_equal; [f_equal; apply IH|apply IHprops].
Qed.

Lemma flashcard_object_id (c : Flashcard) :
  get "id" (roundtrip (Service.flashcard_object c)) = Some (JStr (id c)).
Proof. reflexivity. Qed.

Lemma updateFlashcard_connected (r : Service.Remote) (kv : KVNamespace) (c : Flashcard) :
  connected r -> FLASHCARDS_KV (Service.worker r) = Some kv -> path_segment (id c) ->
  let sent := roundtrip (Service.flashcard_object c) in
  (Service.updateFlashcard c r).1 = mkApiResponse true (Some sent) None
  /\ FLASHCARDS_KV (Service.worker (Service.updateFlashcard c r).2)
     = Some (<[id c := Serialized sent]> kv).
Proof.
  unfold connected, Service.updateFlashcard, Service.fetch. intros -> Hkv Hid.
  set (request := mkRequest "PUT" _ _).
  unfold Worker.fetch.
  assert (String.prefix "/api/flashcards" (pathname request) = true) as ->
    by (change (String.prefix EmptyString (String "/" (id c)) = true); done).
  rewrite (item_route request kv (Service.worker r) (id c) Hkv eq_refl Hid).
  cbn [method String.eqb Ascii.eqb Bool.eqb].
  unfold put. cbn [body request parse stringify id_differs].
  set (sent := roundtrip (Service.flashcard_object c)).
  assert (id_differs sent (id c) = inr false) as ->.
  { unfold id_differs. subst sent. rewrite flashcard_object_id.
    cbn [roundtrip Service.flashcard_object]. by rewrite String.eqb_refl. }
  cbn zeta. unfold Service.finish, createJsonResponse, Service.ok, Service.json, stringify.
  cbn [status responseBody parse Z.leb Z.compare andb negb fst snd Service.worker].
  subst sent. by rewrite !roundtrip_idem.
Qed.

Lemma flashcard_on_the_wire (c : Flashcard) :
  let sent := roundtrip (Service.flashcard_object c) in
  get "id" sent = Some (JStr (id c))
  /\ get "word" sent = Some (JStr (word c))
  /\ get "definition" sent = Some (JStr (definition c))
  /\ get "exampleSentence" sent = JStr <$> exampleSentence c
  /\ get "createdAt" sent = Some (wire_number (createdAt c))
  /\ get "lastReviewedAt" sent = wire_number <$> lastReviewedAt c
  /\ get "dueDate" sent = wire_number <$> dueDate c
  /\ get "interval" sent = wire_number <$> interval c.
Proof.
  destruct c as [i w d [e|] t [l|] [u|] [n|]]; cbn zeta; unfold Service.flashcard_object;
    rewrite !lookup_roundtrip; repeat split; reflexivity.
Qed.

(** X11. For a connected client, a bound namespace and a card whose id is a
    path segment as it stands, [updateFlashcard(card)] succeeds whether or
    not a card is stored under the id (the route does not look the id up):
    the card is stored under its id as it was sent, comes back as [data], and
    is in the listing that follows when that succeeds.  Of the card as sent,
    [dueDate], [interval] and [lastReviewedAt] are the Numbers of the card as
    JSON carries them, [null] for one that is not finite. *)
Theorem update_then_list (r : Service.Remote) (kv : KVNamespace) (c : Flashcard) :
  connected r -> FLASHCARDS_KV (Service.worker r) = Some kv -> path_segment (id c) ->
  let sent := roundtrip (Service.flashcard_object c) in
  let r' := (Service.updateFlashcard c r).2 in
  (Service.updateFlashcard c r).1 = mkApiResponse true (Some sent) None
  /\ FLASHCARDS_KV (Service.worker r') = Some (<[id c := Serialized sent]> kv)
  /\ (success (Service.getFlashcards r').1 = true ->
      exists items, data (Service.getFlashcards r').1 = Some (JArr items) /\ sent ∈ items)
  /\ get "dueDate" sent = wire_number <$> dueDate c
  /\ get "interval" sent = wire_number <$> interval c
  /\ get "lastReviewedAt" sent = wire_number <$> lastReviewedAt c.
Proof.
  intros Hon Hkv Hid. cbn zeta.
  destruct (updateFlashcard_connected r kv c Hon Hkv Hid) as [Hs Hkv'].
  split; [done|]. split; [done|]. split.
  - intros Hlist. destruct (listing_succeeded _ _ Hkv' Hlist) as (items & Hd & Hitems).
    exists items. split; [done|]. apply Hitems.
    exists (id c), (roundtrip (Service.flashcard_object c)).
    split; [by rewrite lookup_insert_eq|]. split; [done|]. by rewrite roundtrip_idem.
  - by destruct (flashcard_on_the_wire c) as (_ & _ & _ & _ & _ & Hl & Hd & Hi).
Qed.

(** *** Error messages from the worker to the caller *)

Lemma parse_error_message (m : string) (s : Z) :
  Service.parseErrorResponse (createErrorResponse m s)
  = inr (if JS.nonempty m then m else "Unknown error (" +:+ pretty s +:+ ")").
Proof.
  unfold Service.parseErrorResponse, createErrorResponse.
  cbn [contentType status].
  assert (Service.includes "application/json" "application/json" = true) as ->
    by reflexivity.
  unfold Service.json, stringify. cbn [responseBody parse roundtrip List.map get lookup_prop].
  cbn [String.eqb Ascii.eqb Bool.eqb truthy]. by destruct m.
Qed.

(** X12. An error answer of the worker, [createErrorResponse(message,
    status)] with a status outside 200..299, reaches the caller of
    [getFlashcards], [addFlashcard] and [updateFlashcard] as
    [{ success: false, error }] where [error] is the operation's prefix, the
    status, a space and the worker's message ("Unknown error (status)" for
    an empty message). *)
Theorem worker_error_reaches_caller (what m : string) (s : Z) :
  s < 200 \/ 299 < s ->
  Service.finish what (inr (createErrorResponse m s))
  = mkApiResponse false None
      (Some (what +:+ pretty s +:+ " "
             +:+ (if JS.nonempty m then m else "Unknown error (" +:+ pretty s +:+ ")"))).
Proof.
  intros Hs. unfold Service.finish.
  assert (Service.ok (createErrorResponse m s) = false) as ->.
  { unfold Service.ok, createErrorResponse. cbn [status].
    destruct (Z.leb_spec 200 s), (Z.leb_spec s 299); try done. lia. }
  cbn [negb]. unfold Service.rejected. rewrite parse_error_message. reflexivity.
Qed.

Lemma finish_shape (what : string) (result : Exn + Response) :
  (forall response v,
     result = inr response -> Service.ok response = true ->
     Service.json response = inr v -> truthy v = true) ->
  data_or_error (Service.finish what result).
Proof.
  intros Hv. unfold Service.finish, data_or_error.
  destruct result as [e|response]; [by cbn|].
  destruct (Service.ok response) eqn:Hok; cbn [negb]; [|by cbn].
  destruct (Service.json response) as [e|v] eqn:Hj; [by cbn|].
  cbn. split; [done|]. exists v. split; [done|]. by apply (Hv response v).
Qed.

Lemma getAll_shape (kv : KVNamespace) (v : JSValue) :
  Service.ok (getAll kv) = true -> Service.json (getAll kv) = inr v -> truthy v = true.
Proof.
  unfold getAll. destruct (Promise_all _); [done|]. by intros _ [= <-].
Qed.

Lemma post_shape (request : Request) (kv : KVNamespace) (w : World) (v : JSValue) :
  Service.ok (post request kv w).1 = true ->
  Service.json (post request kv w).1 = inr v -> truthy v = true.
Proof.
  unfold post. destruct (parse (body request)); [done|]. by intros _ [= <-].
Qed.

Lemma put_shape (request : Request) (id : string) (kv : KVNamespace) (w : World)
    (v : JSValue) :
  Service.ok (put request id kv w).1 = true ->
  Service.json (put request id kv w).1 = inr v -> truthy v = true.
Proof.
  unfold put. destruct (parse (body request)) as [e|u]; [done|].
  destruct (id_differs u id) as [e|[|]] eqn:Hid; [done|done|].
  intros _ [= <-]. unfold id_differs in Hid.
  destruct u as [| | | | |props]; try done.
Qed.

Lemma api_shape (request : Request) (w : World) (v : JSValue) :
  Service.ok (flashcardsApi request w).1 = true ->
  Service.json (flashcardsApi request w).1 = inr v -> truthy v = true.
Proof.
  unfold flashcardsApi. destruct (FLASHCARDS_KV w) as [kv|]; [|done].
  destruct (_ && _); [apply getAll_shape|].
  destruct (_ && _); [apply post_shape|].
  destruct (String.prefix _ _); [|done].
  destruct (negb _); [done|].
  destruct (String.eqb _ "PUT"); [apply put_shape|].
  destruct (String.eqb _ "DELETE"); done.
Qed.

Lemma fetched_shape (request : Request) (r : Service.Remote) (response : Response)
    (v : JSValue) :
  String.eqb (method request) "OPTIONS" = false ->
  (Service.fetch request r).1 = inr response -> Service.ok response = true ->
  Service.json response = inr v -> truthy v = true.
Proof.
  intros Hm. unfold Service.fetch, Worker.fetch. rewrite Hm.
  destruct (Service.online _ _); [|done].
  destruct (String.prefix "/api/flashcards" (pathname request)).
  - pose proof (api_shape request (Service.worker r) v) as H.
    destruct (flashcardsApi request (Service.worker r)) as [resp w']. cbn.
    intros [= <-]. exact H.
  - destruct (String.prefix "/api/gemini" (pathname request)); [done|].
    cbn. by intros [= <-].
Qed.

(** X13. Every answer of [getFlashcards], [addFlashcard] and
    [updateFlashcard] is either a success with no error and a [data] that is
    truthy, or a failure with an error message and no [data]; an answer of
    [deleteFlashcard] has no [data], and no error exactly when it is a
    success. *)
Theorem answers_have_data_or_error (r : Service.Remote) (draft : Draft) (c : Flashcard)
    (id : string) :
  data_or_error (Service.getFlashcards r).1
  /\ data_or_error (Service.addFlashcard draft r).1
  /\ data_or_error (Service.updateFlashcard c r).1
  /\ data (Service.deleteFlashcard id r).1 = None
  /\ (success (Service.deleteFlashcard id r).1 = true
      <-> error (Service.deleteFlashcard id r).1 = None).
Proof.
  repeat split.
  - unfold Service.getFlashcards.
    pose proof (fetched_shape (mkRequest "GET" Service.ENDPOINTS_FLASHCARDS
                                 (Malformed EmptyString)) r) as H.
    destruct (Service.fetch _ r) as [result r']. cbn [fst] in *.
    apply finish_shape. intros response v ->. by apply H.
  - unfold Service.addFlashcard.
    pose proof (fetched_shape (mkRequest "POST" Service.ENDPOINTS_FLASHCARDS
                                 (stringify (Service.draft_object draft))) r) as H.
    destruct (Service.fetch _ r) as [result r']. cbn [fst] in *.
    apply finish_shape. intros response v ->. by apply H.
  - unfold Service.updateFlashcard.
    pose proof (fetched_shape
                  (mkRequest "PUT" (Service.ENDPOINTS_FLASHCARDS +:+ "/" +:+ Types.id c)
                     (stringify (Service.flashcard_object c))) r) as H.
    destruct (Service.fetch _ r) as [result r']. cbn [fst] in *.
    apply finish_shape. intros response v ->. by apply H.
  - unfold Service.deleteFlashcard. destruct (Service.fetch _ r) as [[e|response] r'];
      cbn [fst]; [done|]. by destruct (negb _).
  - unfold Service.deleteFlashcard. destruct (Service.fetch _ r) as [[e|response] r'];
      cbn [fst]; [done|]. by destruct (negb _).
  - unfold Service.deleteFlashcard. destruct (Service.fetch _ r) as [[e|response] r'];
      cbn [fst]; [done|]. by destruct (negb _).
Qed.

Lemma lookup_fold_set_prop (k : string) (props acc : list (string * JSValue)) :
  NoDup props.*1 ->
  lookup_prop k (fold_left (fun acc kv => set_prop kv.1 kv.2 acc) props acc)
  = match lookup_prop k props with
    | Some v => Some v
    | None => lookup_prop k acc
    end.
Proof.
  revert acc. induction props as [|[k' v'] props IH]; intros acc Hnd; cbn [fold_left]; [done|].
  apply NoDup_cons in Hnd as [Hk' Hnd]. rewrite IH by done. cbn [lookup_prop fst snd].
  destruct (String.eqb_spec k' k) as [->|Hne].
  - assert (lookup_prop k props = None) as ->.
    { clear -Hk'. induction props as [|[k0 v0] props IH]; [done|].
      cbn in Hk'. apply not_elem_of_cons in Hk' as [Hne Hk']. cbn.
      destruct (String.eqb_spec k0 k); [congruence|]. by apply IH. }
    apply lookup_set_prop_eq.
  - destruct (lookup_prop k props); [done|].
    apply lookup_set_prop_ne. by apply String.eqb_neq.
Qed.

Lemma lookup_spread (k : string) (props : list (string * JSValue)) :
  NoDup props.*1 -> lookup_prop k (spread (JObj props)) = lookup_prop k props.
Proof.
  intros Hnd. unfold spread. rewrite lookup_fold_set_prop by done.
  by destruct (lookup_prop k props).
Qed.

(** X22. [POST /api/flashcards] with an object as body overwrites whatever
    [id], [createdAt], [dueDate] and [interval] the body carries by the
    worker's own, and stores and returns every other field of the body as it
    was sent. *)
Theorem create_overrides_metadata (request : Request) (kv : KVNamespace) (w : World)
    (props : list (string * JSValue)) :
  FLASHCARDS_KV w = Some kv ->
  method request = "POST" -> pathname request = "/api/flashcards" ->
  body request = Serialized (JObj props) -> NoDup props.*1 ->
  exists card,
    (flashcardsApi request w).1 = createJsonResponse card 201
    /\ FLASHCARDS_KV (flashcardsApi request w).2
       = Some (<[uuid (uuids w) (drawn (uuids w)) := stringify card]> kv)
    /\ get "id" card = Some (JStr (uuid (uuids w) (drawn (uuids w))))
    /\ get "createdAt" card = Some (JNum (reading (clock w) (reads (clock w))))
    /\ get "dueDate" card = Some (JNum (reading (clock w) (S (reads (clock w)))))
    /\ get "interval" card = Some (JNum 0)
    /\ forall k : string,
         k <> "id" -> k <> "createdAt" -> k <> "dueDate" -> k <> "interval" ->
         get k card = lookup_prop k props.
Proof.
  intros Hkv Hm Hp Hb Hnd. rewrite (post_route request kv w Hkv Hm Hp).
  rewrite (post_parsed request kv w (JObj props) Hb). cbn zeta.
  eexists. split; [reflexivity|]. split; [reflexivity|].
  destruct (created_metadata (JObj props) (uuid (uuids w) (drawn (uuids w)))
              (reading (clock w) (reads (clock w)))
              (reading (clock w) (S (reads (clock w))))) as (Hi & Hc & Hd & Hn).
  split; [done|]. split; [done|]. split; [done|]. split; [done|].
  intros k H1 H2 H3 H4. unfold created. cbn [get].
  rewrite 4 lookup_set_prop_ne by (by apply String.eqb_neq).
  by apply lookup_spread.
Qed.

(** *** Instances *)

Lemma rejected_request_changes_nothing_witness :
  let w := Service.worker (Sample.remote Sample.three_cards) in
  let request := mkRequest "PUT" "/api/flashcards/k1"
                           (Serialized (Sample.stored_card "k2" "beta")) in
  (flashcardsApi request w).2 = w.
Proof.
  cbn zeta.
  apply (rejected_request_changes_nothing
           (mkRequest "PUT" "/api/flashcards/k1"
                      (Serialized (Sample.stored_card "k2" "beta")))
           (Service.worker (Sample.remote Sample.three_cards)) _
           (flashcardsApi
              (mkRequest "PUT" "/api/flashcards/k1"
                         (Serialized (Sample.stored_card "k2" "beta")))
              (Service.worker (Sample.remote Sample.three_cards))).1).
  - reflexivity.
  - left. vm_compute. discriminate.
Defined.

Lemma request_touches_one_key_witness :
  let w := Service.worker (Sample.remote Sample.three_cards) in
  let request := mkRequest "DELETE" "/api/flashcards/k2" (Malformed EmptyString) in
  exists kv', FLASHCARDS_KV (flashcardsApi request w).2 = Some kv'
    /\ forall k : string,
         k <> "uuid-0" -> k <> "k2" -> kv' !! k = Sample.three_cards !! k.
Proof.
  cbn zeta.
  apply (request_touches_one_key
           (mkRequest "DELETE" "/api/flashcards/k2" (Malformed EmptyString))
           (Service.worker (Sample.remote Sample.three_cards)) _
           (flashcardsApi
              (mkRequest "DELETE" "/api/flashcards/k2" (Malformed EmptyString))
              (Service.worker (Sample.remote Sample.three_cards))).1
           Sample.three_cards).
  - reflexivity.
  - reflexivity.
Defined.

Lemma delete_then_list_witness :
  let r := Sample.remote Sample.three_cards in
  let r' := (Service.deleteFlashcard "k2" r).2 in
  success (Service.deleteFlashcard "k2" r).1 = true
  /\ FLASHCARDS_KV (Service.worker r') = Some (delete "k2" Sample.three_cards)
  /\ (success (Service.getFlashcards r').1 = true ->
      exists items,
        data (Service.getFlashcards r').1 = Some (JArr items)
        /\ forall card,
             card ∈ items
             <-> exists (key : string) (v : JSValue),
                   key <> "k2" /\ Sample.three_cards !! key = Some (Serialized v)
                   /\ truthy v = true /\ card = roundtrip v).
Proof.
  cbn zeta.
  apply (delete_then_list (Sample.remote Sample.three_cards) Sample.three_cards "k2").
  - reflexivity.
  - reflexivity.
  - split; [discriminate|reflexivity].
Defined.

(** A removal of a key that is not stored is answered like any other. *)
Example delete_of_an_absent_card :
  let r := Sample.remote Sample.three_cards in
  Worker.status (flashcardsApi (mkRequest "DELETE" "/api/flashcards/k9" (Malformed EmptyString))
                               (Service.worker r)).1 = 204
  /\ (Service.deleteFlashcard "k9" r).1 = mkApiResponse true None None.
Proof. vm_compute. split; reflexivity. Qed.

Lemma update_then_list_witness :
  let r := Sample.remote Sample.three_cards in
  let c := Sample.card_a in
  let sent := roundtrip (Service.flashcard_object c) in
  let r' := (Service.updateFlashcard c r).2 in
  (Service.updateFlashcard c r).1 = mkApiResponse true (Some sent) None
  /\ FLASHCARDS_KV (Service.worker r') = Some (<[id c := Serialized sent]> Sample.three_cards)
  /\ (success (Service.getFlashcards r').1 = true ->
      exists items, data (Service.getFlashcards r').1 = Some (JArr items) /\ sent ∈ items)
  /\ get "dueDate" sent = wire_number <$> dueDate c
  /\ get "interval" sent = wire_number <$> interval c
  /\ get "lastReviewedAt" sent = wire_number <$> lastReviewedAt c.
Proof.
  cbn zeta.
  apply (update_then_list (Sample.remote Sample.three_cards) Sample.three_cards
           Sample.card_a).
  - reflexivity.
  - reflexivity.
  - split; [discriminate|reflexivity].
Defined.

(** A card whose interval has overflowed is stored with [null] for its
    interval and its due date. *)
Example overflowed_card_on_the_wire :
  let c := Sample.card "a" infinity infinity in
  get "interval" (roundtrip (Service.flashcard_object c)) = Some JNull
  /\ get "dueDate" (roundtrip (Service.flashcard_object c)) = Some JNull.
Proof. split; reflexivity. Qed.

Lemma worker_error_reaches_caller_witness :
  Service.finish "Failed to update flashcard: "
    (inr (createErrorResponse "Flashcard ID in path and body do not match." 400))
  = mkApiResponse false None
      (Some "Failed to update flashcard: 400 Flashcard ID in path and body do not match.").
Proof.
  apply (worker_error_reaches_caller "Failed to update flashcard: "
           "Flashcard ID in path and body do not match." 400).
  right. lia.
Defined.

(** Without a namespace bound to the worker, every operation of the client
    fails with the worker's message, and nothing changes on the worker. *)
Example unbound_namespace :
  let r := Service.mkRemote (Service.mkNetwork (fun _ => true) 0)
             (mkWorld None Sample.ticking (mkUUIDs (fun n => "uuid-" +:+ pretty n) 0)) in
  error (Service.getFlashcards r).1
  = Some "Failed to fetch flashcards: 500 KV Namespace (FLASHCARDS_KV) not configured."
  /\ error (Service.deleteFlashcard "k1" r).1
     = Some "Failed to delete flashcard: 500 KV Namespace (FLASHCARDS_KV) not configured."
  /\ Service.worker (Service.addFlashcard (mkDraft "terse" "brief" None None) r).2
     = Service.worker r.
Proof. vm_compute. repeat split; reflexivity. Qed.

Lemma create_overrides_metadata_witness :
  let w := Service.worker (Sample.remote ∅) in
  let props := [("id", JStr "mine"); ("word", JStr "terse"); ("interval", JNum 7)] in
  let request := mkRequest "POST" "/api/flashcards" (Serialized (JObj props)) in
  exists card,
    (flashcardsApi request w).1 = createJsonResponse card 201
    /\ FLASHCARDS_KV (flashcardsApi request w).2
       = Some (<[uuid (uuids w) (drawn (uuids w)) := stringify card]> ∅)
    /\ get "id" card = Some (JStr (uuid (uuids w) (drawn (uuids w))))
    /\ get "createdAt" card = Some (JNum (reading (clock w) (reads (clock w))))
    /\ get "dueDate" card = Some (JNum (reading (clock w) (S (reads (clock w)))))
    /\ get "interval" card = Some (JNum 0)
    /\ forall k : string,
         k <> "id" -> k <> "createdAt" -> k <> "dueDate" -> k <> "interval" ->
         get k card = lookup_prop k props.
Proof.
  cbn zeta.
  apply (create_overrides_metadata
           (mkRequest "POST" "/api/flashcards"
              (Serialized (JObj [("id", JStr "mine"); ("word", JStr "terse");
                                 ("interval", JNum 7)])))
           ∅ (Service.worker (Sample.remote ∅))).
  - reflexivity.
  - reflexivity.
  - reflexivity.
  - reflexivity.
  - apply (bool_decide_unpack _). vm_compute. exact I.
Defined.

End StoreFacts.

(** ** The "Suggest" page *)

Module SuggestionFacts.
Import Types App Deck Gemini Suggestions.

Lemma elem_of_filter_word (word : string) (s : GeminiDefinitionResponse)
    (l : list GeminiDefinitionResponse) :
  s ∈ List.filter (fun s => negb (String.eqb (g_word s) word)) l
  <-> s ∈ l /\ g_word s <> word.
Proof.
  rewrite !list_elem_of_In, filter_In.
  destruct (String.eqb_spec (g_word s) word) as [E|E]; cbn [negb]; split.
  - by intros [_ ?].
  - by intros [_ ?].
  - by intros [? _].
  - by intros [? _].
Qed.

(** X14. Adding a suggestion, or dismissing one, removes from the list every
    suggestion of that word and no other; an added suggestion leaves the
    list whether or not the card could be created, and a creation that
    failed leaves the deck as it was, with an error message. *)
Theorem suggestion_leaves_list {R G : Type} (svc : FlashcardService R) (p : Page R G)
    (suggestion : GeminiDefinitionResponse) (word : string) :
  let added := handleAddSuggestedWord svc suggestion p in
  let dismissed := handleDismissSuggestion word p in
  (forall s, s ∈ suggestedWords (panel added)
             <-> s ∈ suggestedWords (panel p) /\ g_word s <> g_word suggestion)
  /\ addingSuggestionWord (panel added) = None
  /\ sys added = handleAddFlashcard svc (as_draft suggestion) (sys p)
  /\ (failed (addFlashcard svc (as_draft suggestion) (remote (sys p))).1 ->
      flashcards (ui (sys added)) = flashcards (ui (sys p))
      /\ is_Some (error (ui (sys added))))
  /\ (forall s, s ∈ suggestedWords (panel dismissed)
                <-> s ∈ suggestedWords (panel p) /\ g_word s <> word)
  /\ sys dismissed = sys p.
Proof.
  cbn zeta. split; [|split; [|split; [|split; [|split]]]]; try reflexivity.
  - intros s. apply elem_of_filter_word.
  - intros Hfail.
    by destruct (DeckFacts.add_failed svc (sys p) (as_draft suggestion) Hfail) as (? & _ & ?).
  - intros s. apply elem_of_filter_word.
Qed.

(** X15. [fetchSuggestions] discards the suggestions shown before the request,
    also when the request fails; it ends the loading state and leaves the
    deck and the cursor alone. *)
Theorem suggestions_replaced {R G : Type} (ai : GeminiService G) (p : Page R G)
    (theme : option string) :
  let response := (suggestWords ai 5%float theme (gemini p)).1 in
  let p' := fetchSuggestions ai theme p in
  loadingSuggestions (panel p') = false
  /\ flashcards (ui (sys p')) = flashcards (ui (sys p))
  /\ currentFlashcardIndex (ui (sys p')) = currentFlashcardIndex (ui (sys p))
  /\ (forall d, succeeded response d ->
        suggestedWords (panel p') = suggestions d /\ error (ui (sys p')) = None)
  /\ (failed response ->
        suggestedWords (panel p') = [] /\ is_Some (error (ui (sys p')))).
Proof.
  cbn zeta. unfold fetchSuggestions, succeeded, failed.
  destruct (suggestWords ai 5%float theme (gemini p)) as [response g]. cbn [fst].
  destruct (success response) eqn:Hs, (data response) as [d|] eqn:Hd; cbn.
  all: split; [done|]; split; [done|]; split; [done|]; split.
  all: try (intros d' [? ?]; by simplify_eq).
  all: try (intros [?|?]; by simplify_eq).
  all: by intros _.
Qed.

Lemma suggestion_leaves_list_witness :
  let p := Sample.page [Sample.card_a] in
  let suggestion := Gemini.mkDefinition "terse" "brief" None in
  let added := handleAddSuggestedWord Sample.unreachable suggestion p in
  flashcards (ui (sys added)) = flashcards (ui (sys p))
  /\ is_Some (error (ui (sys added))).
Proof.
  cbn zeta.
  destruct (suggestion_leaves_list Sample.unreachable (Sample.page [Sample.card_a])
              (Gemini.mkDefinition "terse" "brief" None) "lucid")
    as (_ & _ & _ & Hfail & _).
  apply Hfail. left. reflexivity.
Defined.

(** Both suggestions of the word leave the list, though the store could not
    be reached and no card was added. *)
Example suggestion_lost :
  let p := Sample.page [Sample.card_a] in
  let added := handleAddSuggestedWord Sample.unreachable
                 (Gemini.mkDefinition "terse" "brief" None) p in
  suggestedWords (panel added) = [Gemini.mkDefinition "lucid" "clear" None]
  /\ flashcards (ui (sys added)) = [Sample.card_a].
Proof. split; reflexivity. Qed.

Lemma suggestions_replaced_witness :
  let p := Sample.page [Sample.card_a] in
  let p' := fetchSuggestions Sample.silent (Some "Travel") p in
  suggestedWords (panel p') = [] /\ is_Some (error (ui (sys p'))).
Proof.
  cbn zeta.
  destruct (suggestions_replaced Sample.silent (Sample.page [Sample.card_a])
              (Some "Travel")) as (_ & _ & _ & _ & Hfail).
  apply Hfail. left. reflexivity.
Defined.

End SuggestionFacts.

(** ** The form to add a word *)

Module FormFacts.
Import Types Deck Gemini AddWordForm.

Lemma nonempty_ne (s : string) : s <> EmptyString -> JS.nonempty s = true.
Proof. by destruct s. Qed.

(** X16. A submission with a word and a definition clears the form and calls
    [onSuccess], also when the card could not be created: the draft is then
    neither in the form nor in the deck. *)
Theorem submit_clears_the_form {R : Type} (svc : App.FlashcardService R)
    (onSuccess : option (App.Sys R -> App.Sys R)) (f : Form) (s : App.Sys R) :
  JS.trim (word f) <> EmptyString -> JS.trim (definition f) <> EmptyString ->
  let draft := mkDraft (word f) (definition f) (Some (exampleSentence f)) None in
  let added := App.handleAddFlashcard svc draft s in
  handleSubmit (App.handleAddFlashcard svc) onSuccess f s
  = (mkForm "" "" "" (loadingDefinition f) "",
     match onSuccess with Some k => k added | None => added end)
  /\ (failed (App.addFlashcard svc draft (App.remote s)).1 ->
      App.flashcards (App.ui added) = App.flashcards (App.ui s)
      /\ is_Some (App.error (App.ui added))).
Proof.
  intros Hw Hd. cbn zeta. split.
  - unfold handleSubmit. cbn [word definition exampleSentence loadingDefinition error].
    by rewrite (nonempty_ne _ Hw), (nonempty_ne _ Hd).
  - intros Hfail.
    by destruct (DeckFacts.add_failed svc s _ Hfail) as (? & _ & ?).
Qed.

Lemma error_or_nonempty {T} (response : ApiResponse T) (fallback : string) :
  fallback <> EmptyString -> error_or response fallback <> EmptyString.
Proof.
  intros Hf. unfold error_or. destruct (Types.error response) as [e|]; [|done].
  by destruct e.
Qed.

(** X17. [handleGenerateDefinition]: with a blank word the service is not called
    and a message is shown; otherwise the word is sent, a definition that
    arrives replaces the definition and the example sentence of the form (an
    example that is absent empties the field), a failure leaves both fields
    as they were and shows a message, and the loading state is over. *)
Theorem generate_definition_outcomes {G : Type} (ai : GeminiService G) (f : Form) (g : G) :
  let response := (generateDefinition ai (word f) g).1 in
  let f' := (handleGenerateDefinition ai f g).1 in
  (JS.trim (word f) = EmptyString ->
     handleGenerateDefinition ai f g
     = (mkForm (word f) (definition f) (exampleSentence f) (loadingDefinition f)
               "Please enter a word to generate a definition.", g))
  /\ (JS.trim (word f) <> EmptyString ->
      (handleGenerateDefinition ai f g).2 = (generateDefinition ai (word f) g).2
      /\ word f' = word f /\ loadingDefinition f' = false
      /\ (forall d, succeeded response d ->
            definition f' = g_definition d
            /\ exampleSentence f'
               = match g_exampleSentence d with Some e => e | None => "" end
            /\ error f' = "")
      /\ (failed response ->
            definition f' = definition f /\ exampleSentence f' = exampleSentence f
            /\ error f' <> "")).
Proof.
  cbn zeta. unfold handleGenerateDefinition, succeeded, failed. split.
  - by intros ->.
  - intros Hw. rewrite (nonempty_ne _ Hw). cbn [negb word].
    destruct (generateDefinition ai (word f) g) as [response g']. cbn [fst snd].
    destruct (Types.success response) eqn:Hs, (Types.data response) as [d|] eqn:Hd;
      cbn [word definition exampleSentence loadingDefinition error fst snd].
    all: split; [done|]; split; [done|]; split; [done|]; split.
    all: try (intros d' [? ?]; simplify_eq).
    all: try (intros [?|?]; simplify_eq).
    all: try (repeat split; try done; by apply error_or_nonempty).
    repeat split; try done. by destruct (g_exampleSentence d') as [[|]|].
Qed.

Lemma submit_clears_the_form_witness :
  let f := mkForm "terse" "brief" "" false "" in
  let s := Sample.screen [Sample.card_a] (JS.Idx 0) in
  let draft := mkDraft "terse" "brief" (Some "") None in
  let added := App.handleAddFlashcard Sample.unreachable draft s in
  handleSubmit (App.handleAddFlashcard Sample.unreachable) None f s
  = (mkForm "" "" "" false "", added)
  /\ (failed (App.addFlashcard Sample.unreachable draft (App.remote s)).1 ->
      App.flashcards (App.ui added) = App.flashcards (App.ui s)
      /\ is_Some (App.error (App.ui added))).
Proof.
  cbn zeta.
  apply (submit_clears_the_form Sample.unreachable None
           (mkForm "terse" "brief" "" false "")
           (Sample.screen [Sample.card_a] (JS.Idx 0))).
  - vm_compute. discriminate.
  - vm_compute. discriminate.
Defined.

Lemma generate_definition_outcomes_witness :
  let f := mkForm "ephemeral" "" "an old example" false "" in
  let f' := (handleGenerateDefinition Sample.answering f tt).1 in
  definition f' = "lasting a very short time" /\ exampleSentence f' = "" /\ error f' = "".
Proof.
  cbn zeta.
  destruct (generate_definition_outcomes Sample.answering
              (mkForm "ephemeral" "" "an old example" false "") tt) as [_ Hword].
  destruct Hword as (_ & _ & _ & Hok & _); [vm_compute; discriminate|].
  apply (Hok (Gemini.mkDefinition "ephemeral" "lasting a very short time" None)).
  split; reflexivity.
Defined.

End FormFacts.

(** ** Decoding the audio of a speech *)

Module AudioFacts.
Import Audio.

(** A loop over [i < n] that replaces the element at [i] by [g i] of it. *)
Lemma update_lookup {A} (g : nat -> A -> A) (d : A) (n : nat) (l : list A) (j : nat) :
  foldl (fun l i => <[i := g i (default d (l !! i))]> l) l (seq 0 n) !! j
  = if decide (j < n)%nat then g j <$> l !! j else l !! j.
Proof.
  induction n as [|n IH].
  - cbn. destruct (decide _); [lia|done].
  - rewrite seq_S, foldl_app. cbn [foldl Nat.add].
    set (l' := foldl _ l (seq 0 n)) in *.
    rewrite list_lookup_insert.
    destruct (decide (j = n)) as [->|Hne].
    + destruct (decide (n < n)%nat); [lia|].
      destruct (decide (n < S n)%nat); [|lia].
      rewrite IH. destruct (l !! n) as [x|] eqn:Hx; cbn.
      * destruct (decide _) as [_|Hn]; [done|].
        destruct Hn. split; [done|]. apply lookup_lt_is_Some. rewrite IH. by eexists.
      * destruct (decide _) as [[_ Hn]|_]; [|done].
        apply lookup_lt_is_Some in Hn. rewrite IH in Hn. by destruct Hn.
    + destruct (decide (n = j /\ _)) as [[? _]|_]; [congruence|].
      rewrite IH. destruct (decide (j < n)%nat), (decide (j < S n)%nat); try done; lia.
Qed.

Lemma update_length {A} (g : nat -> A -> A) (d : A) (n : nat) (l : list A) :
  length (foldl (fun l i => <[i := g i (default d (l !! i))]> l) l (seq 0 n)) = length l.
Proof.
  induction n as [|n IH]; [done|].
  rewrite seq_S, foldl_app. cbn [foldl Nat.add]. by rewrite length_insert.
Qed.

Lemma fill_lookup {A} (f : nat -> A) (n : nat) (l : list A) (j : nat) :
  foldl (fun l i => <[i := f i]> l) l (seq 0 n) !! j
  = if decide (j < n)%nat then (fun _ => f j) <$> l !! j else l !! j.
Proof.
  exact (update_lookup (fun i _ => f i) (f 0%nat) n l j).
Qed.

Lemma get_lookup (s : string) (j : nat) :
  String.get j s = list_ascii_of_string s !! j.
Proof.
  revert j. induction s as [|c s IH]; intros [|j]; cbn; try done.
Qed.

Lemma length_list_ascii (s : string) :
  length (list_ascii_of_string s) = String.length s.
Proof. induction s as [|c s IH]; cbn; [done|]. by rewrite IH. Qed.

Lemma replicate_lookup {A} (n : nat) (x : A) (j : nat) :
  replicate n x !! j = if decide (j < n)%nat then Some x else None.
Proof.
  destruct (decide _).
  - by apply lookup_replicate_2.
  - apply lookup_replicate_None. lia.
Qed.

(** [decode] returns the characters of the binary string as bytes. *)
Lemma decode_bytes (atob : string -> Thrown + string) (base64 binaryString : string) :
  atob base64 = inr binaryString ->
  decode atob base64 = inr (byte_of_ascii <$> list_ascii_of_string binaryString).
Proof.
  intros Ha. unfold decode. rewrite Ha. f_equal.
  apply list_eq. intros j. rewrite fill_lookup, replicate_lookup, list_lookup_fmap.
  unfold charCodeAt. rewrite get_lookup.
  destruct (decide _) as [Hj|Hj]; cbn.
  - rewrite <- length_list_ascii in Hj. apply lookup_lt_is_Some_2 in Hj as [c ->]. done.
  - rewrite <- length_list_ascii in Hj.
    by rewrite (proj2 (lookup_ge_None _ _)) by lia.
Qed.

Lemma int16_range (lo hi : Byte.byte) : -32768 <= int16 lo hi <= 32767.
Proof.
  unfold int16. pose proof (Byte.to_N_bounded lo). pose proof (Byte.to_N_bounded hi).
  destruct (Z.ltb_spec (Z.of_N (Byte.to_N lo) + 256 * Z.of_N (Byte.to_N hi)) 32768); lia.
Qed.

Lemma int16s_lookup (data : list Byte.byte) (k : nat) (z : Z) :
  int16s data !! k = Some z ->
  exists lo hi, data !! (2 * k)%nat = Some lo /\ data !! (2 * k + 1)%nat = Some hi
                /\ z = int16 lo hi.
Proof.
  revert data. induction k as [|k IH]; intros [|lo [|hi data]]; cbn [int16s]; try done.
  - intros [= <-]. by exists lo, hi.
  - intros H. destruct (IH data H) as (lo' & hi' & H1 & H2 & ->).
    exists lo', hi'. replace (2 * S k)%nat with (S (S (2 * k))) by lia.
    replace (S (S (2 * k)) + 1)%nat with (S (S (2 * k + 1))) by lia. done.
Qed.

Lemma length_int16s (data : list Byte.byte) :
  Nat.even (length data) = true -> (2 * length (int16s data) = length data)%nat.
Proof.
  revert data. fix IH 1. intros [|lo [|hi data]]; cbn [int16s length Nat.even]; try done.
  intros H. specialize (IH data H). lia.
Qed.

Lemma every_byte_in (b : Byte.byte) : In b every_byte.
Proof.
  apply list_elem_of_In, list_elem_of_omap. exists (Byte.to_nat b). split.
  - apply elem_of_seq. pose proof (Byte.to_nat_bounded b). lia.
  - apply Byte.of_to_nat.
Qed.

Lemma quotient_range (lo hi : Byte.byte) :
  let x := (of_int (int16 lo hi) / 32768)%float in
  (-1 <=? x)%float = true /\ (x <? 1)%float = true
  /\ (x * 32768 =? of_int (int16 lo hi))%float = true.
Proof.
  cbn zeta.
  assert (H : forallb (fun lo => forallb (fun hi =>
                let x := (of_int (int16 lo hi) / 32768)%float in
                (-1 <=? x)%float && (x <? 1)%float
                && (x * 32768 =? of_int (int16 lo hi))%float) every_byte) every_byte
              = true) by (vm_compute; reflexivity).
  rewrite forallb_forall in H. specialize (H lo (every_byte_in lo)).
  rewrite forallb_forall in H. specialize (H hi (every_byte_in hi)). cbn zeta in H.
  by apply andb_true_iff in H as [[? ?]%andb_true_iff ?].
Qed.

Lemma createBuffer_inr (ctx : AudioContext) (nc len : Z) (rate : float) (buffer : AudioBuffer) :
  createBuffer ctx nc len rate = inr buffer ->
  1 <= nc <= maxChannels ctx /\ 1 <= len /\ rateSupported ctx rate = true
  /\ buffer = replicate (Z.to_nat nc) (replicate (Z.to_nat len) 0%float).
Proof.
  unfold createBuffer.
  destruct (Z.leb_spec 1 nc), (Z.leb_spec nc (maxChannels ctx)), (Z.leb_spec 1 len),
           (rateSupported ctx rate); cbn [andb]; try done.
  intros [= <-]. repeat split; lia.
Qed.

(** X18. The buffer [decodeAudioData] returns has [numChannels] channels of
    [floor(samples / numChannels)] values; the value at position [i] of
    channel [c] is the little-endian 16-bit sample number
    [i * numChannels + c] of [data], divided by 32768: a Number in
    [[-1, 1)] from which the sample is recovered by multiplying. *)
Theorem decoded_samples (data : list Byte.byte) (ctx : AudioContext) (sampleRate : float)
    (numChannels : Z) (buffer : AudioBuffer) :
  decodeAudioData data ctx sampleRate numChannels = inr buffer ->
  Z.of_nat (length buffer) = numChannels
  /\ forall (channel : nat) (channelData : list float),
       buffer !! channel = Some channelData ->
       Z.of_nat (length channelData)
       = Z.of_nat (length data) / 2 / numChannels
       /\ forall (i : nat) (x : float),
            channelData !! i = Some x ->
            exists lo hi : Byte.byte,
              let k := (i * Z.to_nat numChannels + channel)%nat in
              data !! (2 * k)%nat = Some lo /\ data !! (2 * k + 1)%nat = Some hi
              /\ x = (of_int (int16 lo hi) / 32768)%float
              /\ (-1 <=? x)%float = true /\ (x <? 1)%float = true
              /\ (x * 32768 =? of_int (int16 lo hi))%float = true.
Proof.
  unfold decodeAudioData, Int16Array.
  destruct (Nat.even (length data)) eqn:Heven; [|done].
  pose proof (length_int16s data Heven) as Hlen.
  set (dataInt16 := int16s data) in *. set (len := Z.of_nat (length dataInt16)).
  destruct (createBuffer ctx numChannels (len / numChannels) sampleRate) as [e|silence] eqn:Hc;
    [done|].
  apply createBuffer_inr in Hc as ([Hnc _] & Hframes & _ & ->).
  set (nc := Z.to_nat numChannels). set (frames := Z.to_nat (len / numChannels)).
  set (iterations := Z.to_nat _).
  intros [= <-].
  set (g := fun (channel : nat) (channelData : list float) =>
              foldl (fun channelData i =>
                       <[i := sample dataInt16 (i * nc + channel)]> channelData)
                    channelData (seq 0 iterations)).
  assert (Hlookup : forall channel,
            foldl (fun buffer channel => <[channel := g channel (default [] (buffer !! channel))]> buffer)
                  (replicate nc (replicate frames 0%float)) (seq 0 nc) !! channel
            = if decide (channel < nc)%nat then Some (g channel (replicate frames 0%float))
              else None).
  { intros channel. rewrite (update_lookup g []), replicate_lookup.
    by destruct (decide _). }
  split.
  - rewrite (update_length g []), length_replicate. subst nc. lia.
  - intros channel channelData. rewrite Hlookup.
    destruct (decide _) as [Hch|]; [|done]. intros [= <-].
    assert (Hx : forall i, g channel (replicate frames 0%float) !! i
                 = if decide (i < frames)%nat then Some (sample dataInt16 (i * nc + channel))
                   else None).
    { intros i. unfold g. rewrite fill_lookup, replicate_lookup.
      assert (frames <= iterations)%nat.
      { subst frames iterations. apply Z2Nat.inj_le; try (apply Z.div_pos; lia).
        apply Z.div_le_mono; lia. }
      destruct (decide (i < iterations)%nat), (decide (i < frames)%nat); try done. lia. }
    assert (Hdiv : Z.of_nat frames = len / numChannels) by (subst frames; lia).
    split.
    + unfold g. rewrite (update_length (fun i _ => sample dataInt16 (i * nc + channel)) nan).
      rewrite length_replicate, Hdiv. subst len. f_equal.
      apply Z.div_unique_exact; lia.
    + intros i x. rewrite Hx. destruct (decide _) as [Hi|]; [|done]. intros [= <-].
      unfold sample.
      assert (Hk : (i * nc + channel < length dataInt16)%nat).
      { assert (Z.of_nat frames * numChannels <= len).
        { rewrite Hdiv, Z.mul_comm. apply Z.mul_div_le. lia. }
        assert (Z.of_nat nc = numChannels) by (subst nc; lia).
        subst len. nia. }
      apply lookup_lt_is_Some_2 in Hk as [z Hz]. rewrite Hz.
      destruct (int16s_lookup data _ z Hz) as (lo & hi & H1 & H2 & ->).
      exists lo, hi. cbn zeta. split; [done|]. split; [done|]. split; [done|].
      apply quotient_range.
Qed.

(** X19. [decodeAudioData] returns a buffer exactly when the data has an even
    number of bytes and at least one 16-bit sample for each channel, and the
    audio context takes the number of channels and the sample rate: data of
    odd length and empty data are rejected. *)
Theorem decodable (data : list Byte.byte) (ctx : AudioContext) (sampleRate : float)
    (numChannels : Z) :
  (exists buffer, decodeAudioData data ctx sampleRate numChannels = inr buffer)
  <-> Nat.even (length data) = true
      /\ 1 <= numChannels <= maxChannels ctx
      /\ numChannels <= Z.of_nat (length data) / 2
      /\ rateSupported ctx sampleRate = true.
Proof.
  unfold decodeAudioData, Int16Array.
  destruct (Nat.even (length data)) eqn:Heven; [|split; [by intros [? ?]|by intros [? _]]].
  pose proof (length_int16s data Heven) as Hlen.
  assert (Hhalf : Z.of_nat (length (int16s data)) = Z.of_nat (length data) / 2)
    by (apply Z.div_unique_exact; lia).
  rewrite Hhalf. set (len := Z.of_nat (length data) / 2).
  assert (0 <= len) by (subst len; lia).
  unfold createBuffer.
  destruct (Z.leb_spec 1 numChannels) as [H1|H1]; cbn [andb];
    [|split; [by intros [? ?]|intros (_ & ? & _); lia]].
  destruct (Z.leb_spec numChannels (maxChannels ctx)) as [H2|H2]; cbn [andb];
    [|split; [by intros [? ?]|intros (_ & ? & _); lia]].
  destruct (Z.leb_spec 1 (len / numChannels)) as [H3|H3]; cbn [andb].
  - assert (numChannels <= len).
    { pose proof (Z.mul_div_le len numChannels ltac:(lia)). nia. }
    destruct (rateSupported ctx sampleRate); [|split; [by intros [? ?]|by intros (_ & _ & _ & ?)]].
    split; [done|]. intros _. by eexists.
  - split; [by intros [? ?]|]. intros (_ & _ & Hle & _).
    assert (1 <= len / numChannels); [|lia].
    apply Z.div_le_lower_bound; lia.
Qed.

Lemma decoded_samples_witness :
  let data := [Byte.x00; Byte.x00; Byte.xff; Byte.x7f] in
  let buffer := [[0%float; 0x1.fffcp-1%float]] in
  Z.of_nat (length buffer) = 1
  /\ forall (channel : nat) (channelData : list float),
       buffer !! channel = Some channelData ->
       Z.of_nat (length channelData) = Z.of_nat (length data) / 2 / 1
       /\ forall (i : nat) (x : float),
            channelData !! i = Some x ->
            exists lo hi : Byte.byte,
              let k := (i * Z.to_nat 1 + channel)%nat in
              data !! (2 * k)%nat = Some lo /\ data !! (2 * k + 1)%nat = Some hi
              /\ x = (of_int (int16 lo hi) / 32768)%float
              /\ (-1 <=? x)%float = true /\ (x <? 1)%float = true
              /\ (x * 32768 =? of_int (int16 lo hi))%float = true.
Proof.
  cbn zeta.
  apply (decoded_samples [Byte.x00; Byte.x00; Byte.xff; Byte.x7f] Sample.context 24000 1).
  reflexivity.
Defined.

(** Three bytes are not 16-bit samples, and no byte at all is no sound. *)
Example undecodable_audio :
  decodeAudioData [Byte.x00; Byte.x00; Byte.xff] Sample.context 24000 1
  = inl (RangeError "byte length of Int16Array should be a multiple of 2")
  /\ decodeAudioData [] Sample.context 24000 1
     = inl (NotSupportedError "The buffer could not be created with these values").
Proof. split; reflexivity. Qed.

End AudioFacts.

(** ** Reading a card aloud *)

Module ReadAloudFacts.
Import Types Gemini Audio ReadAloud.



(** A speech of two samples is decoded and started; a Gemini service that
    cannot be reached leaves an error message and no reading in progress;
    when the source ends, the reading is over. *)
Example read_aloud_scenario :
  let played := handleReadAloud Sample.answering Sample.atob "ephemeral" "Zephyr"
                                Sample.stage in
  let failed := handleReadAloud Sample.silent Sample.atob "ephemeral" "Zephyr"
                                Sample.stage in
  (App.isReadingAloud (ui played) = true
   /\ currentAudioSourceRef (player played)
      = Some (mkSource 0 [[0%float; 0x1.fffcp-1%float]])
   /\ playing (player played) = [0%nat])
  /\ (App.isReadingAloud (ui failed) = false
      /\ App.error (ui failed) = Some "Failed to fetch"
      /\ currentAudioSourceRef (player failed) = None)
  /\ App.isReadingAloud
       (ui (onended (mkSource 0 [[0%float; 0x1.fffcp-1%float]]) played)) = false.
Proof. vm_compute. repeat split; reflexivity. Qed.

End ReadAloudFacts.

(** ** The text of a Gemini answer *)

Module GeminiTextFacts.
Import GeminiText.

Lemma app_length (a b : string) :
  String.length (a +:+ b) = (String.length a + String.length b)%nat.
Proof.
  induction a as [|x a IH]; [done|].
  change (S (String.length (a +:+ b)) = S (String.length a + String.length b)).
  by rewrite IH.
Qed.

Lemma substring_app (a b : string) :
  String.substring 0 (String.length a) (a +:+ b) = a.
Proof.
  induction a as [|x a IH]; [by destruct b|].
  change (String x (String.substring 0 (String.length a) (a +:+ b)) = String x a).
  by rewrite IH.
Qed.

Lemma endsWith_app (a suffix : string) : endsWith suffix (a +:+ suffix) = true.
Proof.
  induction a as [|x a IH].
  - change (EmptyString +:+ suffix) with suffix. destruct suffix; cbn; [done|].
    by rewrite Ascii.eqb_refl, String.eqb_refl.
  - change (endsWith suffix (String x (a +:+ suffix)) = true). cbn [endsWith].
    rewrite IH. apply orb_true_r.
Qed.

Lemma trimEnd_fence (a : string) : JS.trimEnd (a +:+ "```") = a +:+ "```".
Proof.
  induction a as [|x a IH]; [reflexivity|].
  change (JS.trimEnd (String x (a +:+ "```")) = String x (a +:+ "```")).
  cbn [JS.trimEnd]. rewrite IH.
  destruct (a +:+ "```") eqn:E; [|done].
  by destruct a.
Qed.

(** X21. When the text of a Gemini answer, trimmed, is a body between the
    fences [```json] and [```], [cleanJsonStr] is the body, trimmed. *)
Theorem fenced_json_unwrapped (text body : string) :
  JS.trim text = "```json" +:+ body +:+ "```" -> cleanJsonStr text = JS.trim body.
Proof.
  intros Htrim. unfold cleanJsonStr. rewrite Htrim.
  assert (String.prefix "```json" ("```json" +:+ body +:+ "```") = true) as ->.
  { change (String.prefix EmptyString (body +:+ "```") = true). by destruct (body +:+ "```"). }
  assert (endsWith "```" ("```json" +:+ body +:+ "```") = true) as ->.
  { change ("```json" +:+ body +:+ "```") with (("```json" +:+ body) +:+ "```").
    apply endsWith_app. }
  cbn [andb]. f_equal. unfold slice.
  assert (String.length ("```json" +:+ body +:+ "```") - 3 - 7 = String.length body)%nat as ->.
  { rewrite !app_length. cbn. lia. }
  change (String.substring 0 (String.length body) (body +:+ "```") = body).
  apply substring_app.
Qed.

Lemma fenced_json_unwrapped_witness :
  cleanJsonStr "  ```json {} ```  " = JS.trim " {} ".
Proof. apply (fenced_json_unwrapped "  ```json {} ```  " " {} "). reflexivity. Defined.

(** Fences around nothing leave the empty text; text without fences is
    trimmed and nothing more. *)
Example fences_and_no_fences :
  cleanJsonStr "```json```" = EmptyString
  /\ cleanJsonStr " [1, 2] " = "[1, 2]"
  /\ cleanJsonStr "```json [1, 2]" = "```json [1, 2]".
Proof. repeat split; reflexivity. Qed.

End GeminiTextFacts.

(** ** The client of the Gemini routes *)

Module GeminiClientFacts.
Import Json Types GeminiClient.

Lemma rejected_worker_error (fallback m : string) (s : Z) :
  rejected fallback (Worker.createErrorResponse m s)
  = Error (if JS.nonempty m then m else fallback +:+ pretty s).
Proof.
  unfold rejected, Worker.createErrorResponse, Service.json, stringify.
  cbn [Worker.responseBody Worker.status parse roundtrip List.map get lookup_prop].
  cbn [String.eqb Ascii.eqb Bool.eqb truthy]. by destruct m.
Qed.

(** X25. An error answer of the worker reaches the caller of [generateDefinition],
    [suggestWords] and [generateSpeech] as [{ success: false, error }] with
    the worker's message as it is (the fallback with the status for an empty
    message); an error answer whose body is not JSON reaches the caller as
    the message of the exception of [response.json()], without the status. *)
Theorem gemini_error_reaches_caller (fallback : string)
    (pick : JSValue -> Exn + option JSValue) (response : Worker.Response) :
  Service.ok response = false ->
  (forall m s, response = Worker.createErrorResponse m s ->
     finish fallback pick (inr response)
     = mkApiResponse false None (Some (if JS.nonempty m then m else fallback +:+ pretty s)))
  /\ (forall e, Service.json response = inl e ->
      finish fallback pick (inr response) = mkApiResponse false None (Some (message e))).
Proof.
  intros Hok. unfold finish. rewrite Hok. cbn [negb]. split.
  - intros m s ->. by rewrite rejected_worker_error.
  - intros e He. unfold rejected. by rewrite He.
Qed.

Lemma gemini_error_reaches_caller_witness :
  finish "Failed to generate speech: " data_of
    (inr (Worker.createErrorResponse "No audio data received from Gemini TTS." 500))
  = mkApiResponse false None (Some "No audio data received from Gemini TTS.").
Proof.
  apply (proj1 (gemini_error_reaches_caller "Failed to generate speech: " data_of
                  (Worker.createErrorResponse "No audio data received from Gemini TTS." 500)
                  eq_refl)
               "No audio data received from Gemini TTS." 500).
  reflexivity.
Defined.

(** A speech route that answers 200 without a [data] property makes
    [generateSpeech] a success without data, which [handleReadAloud] treats
    as a failure. *)
Example speech_without_data :
  finish "Failed to generate speech: " data_of
    (inr (Worker.createJsonResponse (JObj [("audio", JStr "AAD/fw==")]) 200))
  = mkApiResponse true None None.
Proof. reflexivity. Qed.

End GeminiClientFacts.
